(** * PMC full-text extraction: a shallow embedding of [main_extraction.py]

    The development follows section 4 of the program ("PMC Full Text
    Scraping Module (v2.1)"): the section classifier, the normalizer
    [clean_text_v2], the chunker [chunk_text_v2], the three extraction
    strategies of [PMCScraperV2] and [extract_full_text].

    Text.  A Python [str] is a [list ascii]; the model covers ASCII text
    (code points below 128).  A character of code 128 or more is carried
    through unchanged and is neither a letter, a digit nor white space.

    Regular expressions.  Python's [re] is a backtracking matcher.  It is
    embedded as such ([Regex.run], in continuation-passing style): greedy
    quantifiers, alternatives tried from left to right, the first success
    wins.  The patterns of the program are written as syntax trees, each
    next to the source pattern it transcribes. *)

From Stdlib Require Import Ascii String List ZArith Lia Bool Arith.
Import ListNotations.

Set Implicit Arguments.
Set Warnings "-register-all,-abstract-large-number".

(* ------------------------------------------------------------------ *)
(** * Python strings *)

Module Py.

Definition str := list ascii.

(** A string literal of the source. *)
Definition lit (x : string) : str := list_ascii_of_string x.

Definition LF : ascii := ascii_of_nat 10.

Definition code (c : ascii) : nat := nat_of_ascii c.

Definition between (lo hi : nat) (c : ascii) : bool :=
  (lo <=? code c) && (code c <=? hi).

(** [str.isspace] on one ASCII character: TAB, LF, VT, FF, CR, the four
    separators FS GS RS US, and the space.  [\s], [str.strip] and
    [str.split] all use this test. *)
Definition is_space (c : ascii) : bool :=
  between 9 13 c || between 28 32 c.

Definition is_upper (c : ascii) : bool := between 65 90 c.
Definition is_lower (c : ascii) : bool := between 97 122 c.
Definition is_digit (c : ascii) : bool := between 48 57 c.

(** [\w]: letters, digits and the underscore. *)
Definition is_word (c : ascii) : bool :=
  is_upper c || is_lower c || is_digit c || (code c =? 95).

Definition lower_char (c : ascii) : ascii :=
  if is_upper c then ascii_of_nat (code c + 32) else c.

Definition upper_char (c : ascii) : ascii :=
  if is_lower c then ascii_of_nat (code c - 32) else c.

Definition lower (t : str) : str := map lower_char t.
Definition upper (t : str) : str := map upper_char t.

Definition ascii_eqb (a b : ascii) : bool := Ascii.eqb a b.

Fixpoint str_eqb (a b : str) : bool :=
  match a, b with
  | [], [] => true
  | x :: a', y :: b' => ascii_eqb x y && str_eqb a' b'
  | _, _ => false
  end.

(** [len(t)] as a Python integer. *)
Definition len (t : str) : Z := Z.of_nat (length t).

Fixpoint lstrip (t : str) : str :=
  match t with
  | c :: t' => if is_space c then lstrip t' else t
  | [] => []
  end.

Definition rstrip (t : str) : str := rev (lstrip (rev t)).

(** [t.strip()] *)
Definition strip (t : str) : str := rstrip (lstrip t).

(** [t.split()]: the maximal runs of characters that are not white space.
    [cur] holds the run being read, last character first. *)
Fixpoint split_from (cur : str) (t : str) : list str :=
  match t with
  | [] => match cur with [] => [] | _ => [rev cur] end
  | c :: t' =>
      if is_space c
      then match cur with
           | [] => split_from [] t'
           | _ => rev cur :: split_from [] t'
           end
      else split_from (c :: cur) t'
  end.

Definition split (t : str) : list str := split_from [] t.

(** [sep.join(parts)] *)
Fixpoint join (sep : str) (parts : list str) : str :=
  match parts with
  | [] => []
  | [p] => p
  | p :: rest => p ++ sep ++ join sep rest
  end.

(** [t.startswith(p)] *)
Fixpoint startswith (p t : str) : bool :=
  match p, t with
  | [], _ => true
  | x :: p', y :: t' => ascii_eqb x y && startswith p' t'
  | _ :: _, [] => false
  end.

(** [p in t] for strings. *)
Fixpoint contains (p t : str) : bool :=
  startswith p t ||
  match t with
  | [] => false
  | _ :: t' => contains p t'
  end.

(** Python's index normalisation in a slice [t[lo:hi]]: a negative index
    counts from the end, and the result is clamped to [0, len]. *)
Definition slice_index (n : Z) (i : Z) : nat :=
  Z.to_nat (if (i <? 0)%Z then Z.max (i + n) 0 else Z.min i n).

(** [l[lo:hi]] *)
Definition slice {A : Type} (l : list A) (lo hi : Z) : list A :=
  let n := Z.of_nat (length l) in
  let a := slice_index n lo in
  let b := slice_index n hi in
  firstn (b - a) (skipn a l).

End Py.

Import Py.

(* ------------------------------------------------------------------ *)
(** * Regular expressions, as Python's [re] runs them *)

Module Regex.

(** Character classes. *)
Inductive cclass : Type :=
| CSpace                                (* \s *)
| CNonSpace                             (* \S *)
| CDigit                                (* \d *)
| CSet (ranges : list (ascii * ascii)). (* [a-z...]; a single is a range *)

Inductive re : Type :=
| Lit (l : str)              (* literal characters *)
| Cls (p : cclass)           (* one character of a class *)
| Bol                        (* ^ (no MULTILINE): start of the string *)
| Eol                        (* $ (no MULTILINE): end, or before a final LF *)
| WordB                      (* \b *)
| Cat (a b : re)             (* ab *)
| Alt (a b : re)             (* a|b *)
| Opt (a : re)               (* a?, greedy *)
| Rep (n : nat) (p : cclass) (* n or more of a class, greedy: p* p+ p{n,} *)
| Grp (i : nat) (a : re).    (* capturing group number i *)

Definition in_ranges (rs : list (ascii * ascii)) (c : ascii) : bool :=
  existsb (fun r => between (code (fst r)) (code (snd r)) c) rs.

(** Membership in a class; with IGNORECASE a set also accepts a character
    one of whose case variants it contains. *)
Definition cls_test (ic : bool) (p : cclass) (c : ascii) : bool :=
  match p with
  | CSpace => is_space c
  | CNonSpace => negb (is_space c)
  | CDigit => is_digit c
  | CSet rs =>
      in_ranges rs c ||
      (ic && (in_ranges rs (lower_char c) || in_ranges rs (upper_char c)))
  end.

(** A literal character of the pattern against a character of the text. *)
Definition chr_eq (ic : bool) (p c : ascii) : bool :=
  if ic then ascii_eqb (lower_char p) (lower_char c) else ascii_eqb p c.

(** The groups captured so far, most recent first. *)
Definition caps := list (nat * str).

Fixpoint group (g : caps) (i : nat) : str :=
  match g with
  | [] => []
  | (j, v) :: g' => if i =? j then v else group g' i
  end.

Definition is_word_opt (c : option ascii) : bool :=
  match c with Some x => is_word x | None => false end.

(** [$] without MULTILINE. *)
Definition at_eol (t : str) : bool :=
  match t with
  | [] => true
  | [c] => ascii_eqb c LF
  | _ => false
  end.

(** [\b] between the previous character and the rest of the text. *)
Definition at_wordb (prev : option ascii) (t : str) : bool :=
  xorb (is_word_opt prev) (is_word_opt (hd_error t)).

Section Run.

Variable ic : bool.       (* re.IGNORECASE *)
Variable A : Type.

(** What remains to be matched: it receives the previous character
    ([None] at the start of the string), the rest of the text and the
    groups, and fails ([None]) to make the matcher backtrack. *)
Definition kont := option ascii -> str -> caps -> option A.

Fixpoint run_lit (l : str) (prev : option ascii) (t : str)
  : option (option ascii * str) :=
  match l with
  | [] => Some (prev, t)
  | p :: l' =>
      match t with
      | c :: t' => if chr_eq ic p c then run_lit l' (Some c) t' else None
      | [] => None
      end
  end.

(** Greedy repetition of a class: take one more character if possible,
    and give it back when the continuation fails. *)
Fixpoint run_rep (p : ascii -> bool) (n : nat) (prev : option ascii)
  (t : str) (g : caps) (k : kont) : option A :=
  let stop := if n =? 0 then k prev t g else None in
  match t with
  | c :: t' =>
      if p c
      then match run_rep p (pred n) (Some c) t' g k with
           | Some r => Some r
           | None => stop
           end
      else stop
  | [] => stop
  end.

(** The text consumed between [t] and its suffix [t']. *)
Definition consumed (t t' : str) : str :=
  firstn (length t - length t') t.

Fixpoint run (r : re) (prev : option ascii) (t : str) (g : caps)
  (k : kont) : option A :=
  match r with
  | Lit l =>
      match run_lit l prev t with
      | Some (prev', t') => k prev' t' g
      | None => None
      end
  | Cls p =>
      match t with
      | c :: t' => if cls_test ic p c then k (Some c) t' g else None
      | [] => None
      end
  | Bol => match prev with None => k prev t g | Some _ => None end
  | Eol => if at_eol t then k prev t g else None
  | WordB => if at_wordb prev t then k prev t g else None
  | Cat a b => run a prev t g (fun prev' t' g' => run b prev' t' g' k)
  | Alt a b =>
      match run a prev t g k with
      | Some x => Some x
      | None => run b prev t g k
      end
  | Opt a =>
      match run a prev t g k with
      | Some x => Some x
      | None => k prev t g
      end
  | Rep n p => run_rep (cls_test ic p) n prev t g k
  | Grp i a =>
      run a prev t g (fun prev' t' g' => k prev' t' ((i, consumed t t') :: g'))
  end.

End Run.

(** A successful match: the rest of the text after it, and its groups. *)
Definition found := (str * caps)%type.

Definition accept : kont found := fun _ t g => Some (t, g).

(** The match attempted at one position of the text. *)
Definition match_at (ic : bool) (r : re) (prev : option ascii) (t : str)
  : option found :=
  run ic r prev t [] (@accept).

(** [re.match(r, t)]: a match at the start of the text. *)
Definition re_match (ic : bool) (r : re) (t : str) : option found :=
  match_at ic r None t.

(** [re.fullmatch(r, t)]: a match of the whole text; the matcher
    backtracks until the match ends where the text ends. *)
Definition re_fullmatch (ic : bool) (r : re) (t : str) : option found :=
  run ic r None t [] (fun _ t' g => match t' with [] => Some (t', g) | _ => None end).

(** [re.search(r, t)]: the match at the leftmost position that has one;
    the result is the start offset of the match. *)
Fixpoint search_from (ic : bool) (r : re) (prev : option ascii) (t : str)
  (i : nat) : option nat :=
  match match_at ic r prev t with
  | Some _ => Some i
  | None =>
      match t with
      | [] => None
      | c :: t' => search_from ic r (Some c) t' (S i)
      end
  end.

Definition re_search (ic : bool) (r : re) (t : str) : option nat :=
  search_from ic r None t 0.

(** Replacement templates: literal text and group references ([\1]). *)
Inductive piece : Type :=
| PText (x : str)
| PGroup (i : nat).

Definition expand (tpl : list piece) (g : caps) : str :=
  flat_map (fun p => match p with PText x => x | PGroup i => group g i end) tpl.

(** [re.sub(r, tpl, t)]: the text is scanned from left to right; at each
    position a match is replaced by the expanded template and the scan
    resumes after it, otherwise the character is copied.  [skip] counts
    the characters of the current match still to be passed over.  The
    patterns the program substitutes cannot match the empty string
    (lemma [substituted_patterns_consume]), so the treatment of empty
    matches by [re.sub] is not part of the model: an empty match is
    passed over. *)
Fixpoint sub_from (ic : bool) (r : re) (tpl : list piece)
  (prev : option ascii) (t : str) (skip : nat) : str :=
  match skip with
  | S n =>
      match t with
      | c :: t' => sub_from ic r tpl (Some c) t' n
      | [] => []
      end
  | O =>
      match t with
      | [] => []
      | c :: t' =>
          match match_at ic r prev t with
          | Some (rest, g) =>
              match length t - length rest with
              | O => c :: sub_from ic r tpl (Some c) t' 0
              | S n => expand tpl g ++ sub_from ic r tpl (Some c) t' n
              end
          | None => c :: sub_from ic r tpl (Some c) t' 0
          end
      end
  end.

Definition re_sub (ic : bool) (r : re) (tpl : list piece) (t : str) : str :=
  sub_from ic r tpl None t 0.

(** The least number of characters a match of [r] consumes. *)
Fixpoint min_len (r : re) : nat :=
  match r with
  | Lit l => length l
  | Cls _ => 1
  | Bol | Eol | WordB => 0
  | Cat a b => min_len a + min_len b
  | Alt a b => Nat.min (min_len a) (min_len b)
  | Opt _ => 0
  | Rep n _ => n
  | Grp _ a => min_len a
  end.

End Regex.

Import Regex.

Declare Scope re_scope.
Delimit Scope re_scope with re.
Bind Scope re_scope with re.
Infix ";;" := Cat (at level 61, right associativity) : re_scope.

(** A literal of a pattern, and the quantified classes the patterns use. *)
Definition L (x : string) : re := Lit (lit x).
Definition ws0 : re := Rep 0 CSpace.          (* \s* *)
Open Scope re_scope.

(* ------------------------------------------------------------------ *)
(** * Pattern tables and the section classifier *)

Definition opt_s : re := Opt (L "s").

(** [EXCLUDE_SECTION_PATTERNS], in the order of the source. *)
Definition EXCLUDE_SECTION_PATTERNS : list re :=
  [ (* ^references?$ *)
    Bol ;; L "reference" ;; opt_s ;; Eol
  ; (* ^bibliography$ *)
    Bol ;; L "bibliography" ;; Eol
  ; (* ^acknowledgm?ents?$ *)
    Bol ;; L "acknowledg" ;; Opt (L "m") ;; L "ent" ;; opt_s ;; Eol
  ; (* ^acknowledg?ments?$ *)
    Bol ;; L "acknowled" ;; Opt (L "g") ;; L "ment" ;; opt_s ;; Eol
  ; (* ^author\s*contributions?$ *)
    Bol ;; L "author" ;; ws0 ;; L "contribution" ;; opt_s ;; Eol
  ; (* ^authors?\s*contributions?$ *)
    Bol ;; L "author" ;; opt_s ;; ws0 ;; L "contribution" ;; opt_s ;; Eol
  ; (* ^contributors?$ *)
    Bol ;; L "contributor" ;; opt_s ;; Eol
  ; (* ^contributor\s*information$ *)
    Bol ;; L "contributor" ;; ws0 ;; L "information" ;; Eol
  ; (* ^conflicts?\s*of\s*interests?$ *)
    Bol ;; L "conflict" ;; opt_s ;; ws0 ;; L "of" ;; ws0 ;; L "interest" ;;
    opt_s ;; Eol
  ; (* ^competing\s*interests?$ *)
    Bol ;; L "competing" ;; ws0 ;; L "interest" ;; opt_s ;; Eol
  ; (* ^declarations?$ *)
    Bol ;; L "declaration" ;; opt_s ;; Eol
  ; (* ^disclosure$ *)
    Bol ;; L "disclosure" ;; Eol
  ; (* ^funding$ *)
    Bol ;; L "funding" ;; Eol
  ; (* ^funding\s*(sources?|information)?$ *)
    Bol ;; L "funding" ;; ws0 ;;
    Opt (Grp 1 (Alt (L "source" ;; opt_s) (L "information"))) ;; Eol
  ; (* ^financial\s*disclosure$ *)
    Bol ;; L "financial" ;; ws0 ;; L "disclosure" ;; Eol
  ; (* ^supplementary\s*(materials?|data|information)?$ *)
    Bol ;; L "supplementary" ;; ws0 ;;
    Opt (Grp 1 (Alt (L "material" ;; opt_s) (Alt (L "data") (L "information")))) ;;
    Eol
  ; (* ^supporting\s*information$ *)
    Bol ;; L "supporting" ;; ws0 ;; L "information" ;; Eol
  ; (* ^appendi(x|ces)$ *)
    Bol ;; L "appendi" ;; Grp 1 (Alt (L "x") (L "ces")) ;; Eol
  ; (* ^data\s*availability *)
    Bol ;; L "data" ;; ws0 ;; L "availability"
  ; (* ^ethics\s*(statement|approval)?$ *)
    Bol ;; L "ethics" ;; ws0 ;;
    Opt (Grp 1 (Alt (L "statement") (L "approval"))) ;; Eol
  ; (* ^ethical\s*approval$ *)
    Bol ;; L "ethical" ;; ws0 ;; L "approval" ;; Eol
  ; (* ^footnotes?$ *)
    Bol ;; L "footnote" ;; opt_s ;; Eol
  ; (* ^abbreviations?$ *)
    Bol ;; L "abbreviation" ;; opt_s ;; Eol
  ; (* ^associated\s*data$ *)
    Bol ;; L "associated" ;; ws0 ;; L "data" ;; Eol
  ].

(** [MAIN_CONTENT_PATTERNS], in the order of the source. *)
Definition MAIN_CONTENT_PATTERNS : list re :=
  [ (* ^abstract$ *)
    Bol ;; L "abstract" ;; Eol
  ; (* ^highlights?$ *)
    Bol ;; L "highlight" ;; opt_s ;; Eol
  ; (* ^background$ *)
    Bol ;; L "background" ;; Eol
  ; (* ^introduction$ *)
    Bol ;; L "introduction" ;; Eol
  ; (* ^methods?$ *)
    Bol ;; L "method" ;; opt_s ;; Eol
  ; (* ^materials?\s*(and|&)\s*methods?$ *)
    Bol ;; L "material" ;; opt_s ;; ws0 ;; Grp 1 (Alt (L "and") (L "&")) ;;
    ws0 ;; L "method" ;; opt_s ;; Eol
  ; (* ^patients?\s*(and|&)\s*methods?$ *)
    Bol ;; L "patient" ;; opt_s ;; ws0 ;; Grp 1 (Alt (L "and") (L "&")) ;;
    ws0 ;; L "method" ;; opt_s ;; Eol
  ; (* ^study\s*design$ *)
    Bol ;; L "study" ;; ws0 ;; L "design" ;; Eol
  ; (* ^results?$ *)
    Bol ;; L "result" ;; opt_s ;; Eol
  ; (* ^findings?$ *)
    Bol ;; L "finding" ;; opt_s ;; Eol
  ; (* ^discussion$ *)
    Bol ;; L "discussion" ;; Eol
  ; (* ^conclusions?$ *)
    Bol ;; L "conclusion" ;; opt_s ;; Eol
  ; (* ^summary$ *)
    Bol ;; L "summary" ;; Eol
  ].

Definition is_some {A : Type} (o : option A) : bool :=
  match o with Some _ => true | None => false end.

(** Python's truth value of a string: [not title] holds of the empty one. *)
Definition truthy (t : str) : bool :=
  match t with [] => false | _ => true end.

(** The loop [for pattern in table: if re.match(pattern, t, re.IGNORECASE):
    return True] followed by [return False]. *)
Definition any_match (table : list re) (t : str) : bool :=
  existsb (fun p => is_some (re_match true p t)) table.

Definition is_exclude_section (title : str) : bool :=
  if negb (truthy title) then false
  else
    let title_clean := lower (strip title) in
    any_match EXCLUDE_SECTION_PATTERNS title_clean.

Definition is_main_content_section (title : str) : bool :=
  if negb (truthy title) then false
  else
    let title_clean := lower (strip title) in
    any_match MAIN_CONTENT_PATTERNS title_clean.

(* ------------------------------------------------------------------ *)
(** * The normalizer *)

Definition rg (a b : ascii) : ascii * ascii := (a, b).
Definition one (a : ascii) : ascii * ascii := (a, a).

(** ORCID\s*(ID)?\s*:\s*\S+ *)
Definition ORCID_ID : re :=
  L "ORCID" ;; ws0 ;; Opt (Grp 1 (L "ID")) ;; ws0 ;; L ":" ;; ws0 ;;
  Rep 1 CNonSpace.

(** https?://orcid\.org/\S+ *)
Definition ORCID_URL : re :=
  L "http" ;; opt_s ;; L "://orcid" ;; L "." ;; L "org/" ;; Rep 1 CNonSpace.

(** \b[A-Za-z0-9._%+-]+@[A-Za-z0-9.-]+\.[A-Z|a-z]{2,}\b *)
Definition EMAIL : re :=
  WordB ;;
  Rep 1 (CSet [rg "A" "Z"; rg "a" "z"; rg "0" "9";
               one "."; one "_"; one "%"; one "+"; one "-"]) ;;
  L "@" ;;
  Rep 1 (CSet [rg "A" "Z"; rg "a" "z"; rg "0" "9"; one "."; one "-"]) ;;
  L "." ;;
  Rep 2 (CSet [rg "A" "Z"; one "|"; rg "a" "z"]) ;;
  WordB.

(** (Figure|Table)\s*\d+\.?\s*(Open in a new tab)? *)
Definition FIGURE_TABLE : re :=
  Grp 1 (Alt (L "Figure") (L "Table")) ;; ws0 ;; Rep 1 CDigit ;;
  Opt (L ".") ;; ws0 ;; Opt (Grp 2 (L "Open in a new tab")).

(** \s+ *)
Definition SPACES : re := Rep 1 CSpace.

(** \n\s*\n *)
Definition BLANK_LINES : re := Lit [LF] ;; ws0 ;; Lit [LF].

Definition clean_text_v2 (text : str) : str :=
  if negb (truthy text) then []
  else
    (* Remove ORCID ID *)
    let text := re_sub true ORCID_ID [] text in
    let text := re_sub false ORCID_URL [] text in
    (* Remove email addresses *)
    let text := re_sub false EMAIL [] text in
    (* Remove duplicate content in Figure/Table annotations *)
    let text := re_sub true FIGURE_TABLE [PGroup 1; PText (lit " ")] text in
    (* Remove excessive whitespace *)
    let text := re_sub false SPACES [PText (lit " ")] text in
    let text := re_sub false BLANK_LINES [PText [LF; LF]] text in
    strip text.

(* ------------------------------------------------------------------ *)
(** * The chunker *)

(** One pass through the body of the [while] loop of [chunk_text_v2]: the
    chunk it appends, and the next value of [start] ([None] on [break]). *)
Definition chunk_step (words : list str) (chunk_size_words overlap_words : Z)
  (start : Z) : str * option Z :=
  let n := Z.of_nat (length words) in
  let end_ := Z.min (start + chunk_size_words) n in
  let chunk := join (lit " ") (slice words start end_) in
  (chunk,
   if (end_ =? n)%Z then None
   else Some (start + (chunk_size_words - overlap_words))%Z).

(** The [while start < len(words)] loop.  The source loop need not
    terminate, so the model counts its iterations down from [fuel];
    [None] means that the loop was still running when the fuel ran out. *)
Fixpoint chunk_loop (fuel : nat) (words : list str)
  (chunk_size_words overlap_words : Z) (start : Z) : option (list str) :=
  if (start <? Z.of_nat (length words))%Z then
    match fuel with
    | O => None
    | S fuel' =>
        let (chunk, next) :=
          chunk_step words chunk_size_words overlap_words start in
        match next with
        | None => Some [chunk]
        | Some start' =>
            option_map (cons chunk)
              (chunk_loop fuel' words chunk_size_words overlap_words start')
        end
    end
  else Some [].

Definition chunk_text_v2_fuel (fuel : nat) (text : str)
  (chunk_size_words overlap_words : Z) : option (list str) :=
  let words := split text in
  if (Z.of_nat (length words) <=? chunk_size_words)%Z then Some [text]
  else chunk_loop fuel words chunk_size_words overlap_words 0.

(** [chunk_text_v2], with one unit of fuel per word and one more: a loop
    that advances needs no more, and a loop that needs more never stops
    (lemma [chunk_loop_stuck]). *)
Definition chunk_text_v2 (text : str) (chunk_size_words overlap_words : Z)
  : option (list str) :=
  chunk_text_v2_fuel (S (length (split text))) text
    chunk_size_words overlap_words.

(** The call [chunk_text_v2(clean)] of [extract_full_text], with the
    default window of 4000 words and overlap of 1000. *)
Definition chunk_text_v2_default (text : str) : list str :=
  match chunk_text_v2 text 4000 1000 with
  | Some chunks => chunks
  | None => []
  end.

(* ------------------------------------------------------------------ *)
(** * Parsed markup

    The tree BeautifulSoup builds: a tag with its name, the tokens of its
    [class] attribute, its [id] attribute and its children, or a string of
    text.  Only the strings [get_text] reports are represented (comments
    and the data of script and style elements are not among them). *)

Module Soup.

Inductive node : Type :=
| Text (t : str)
| Tag (name : str) (classes : list str) (id : option str)
      (children : list node).

Definition is_tag (n : node) : bool :=
  match n with Tag _ _ _ _ => true | Text _ => false end.

Definition is_text (n : node) : bool := negb (is_tag n).

(** [tag.name in names] *)
Definition named (names : list string) (n : node) : bool :=
  match n with
  | Tag nm _ _ _ => existsb (fun x => str_eqb (lit x) nm) names
  | Text _ => false
  end.

(** The filter [class_=c]: one of the class tokens is [c]. *)
Definition has_class (c : string) (n : node) : bool :=
  match n with
  | Tag _ cls _ _ => existsb (str_eqb (lit c)) cls
  | Text _ => false
  end.

(** The filter [id=re.compile(r)]: the pattern is searched in the id. *)
Definition id_search (ic : bool) (r : re) (n : node) : bool :=
  match n with
  | Tag _ _ (Some i) _ => is_some (re_search ic r i)
  | _ => false
  end.

(** The nodes below [n], in document order. *)
Fixpoint descendants (n : node) : list node :=
  match n with
  | Text _ => []
  | Tag _ _ _ cs => flat_map (fun c => c :: descendants c) cs
  end.

Definition find_all (p : node -> bool) (n : node) : list node :=
  filter p (descendants n).

Definition find (p : node -> bool) (n : node) : option node :=
  hd_error (find_all p n).

(** [find_all(..., recursive=False)] *)
Definition find_all_children (p : node -> bool) (n : node) : list node :=
  match n with
  | Text _ => []
  | Tag _ _ _ cs => filter p cs
  end.

(** The strings below [n], in document order. *)
Fixpoint strings (n : node) : list str :=
  match n with
  | Text t => [t]
  | Tag _ _ _ cs => flat_map strings cs
  end.

(** [n.get_text(separator=sep, strip=True)]: every string is stripped,
    the empty ones are dropped, the others joined by [sep]. *)
Definition get_text (sep : str) (n : node) : str :=
  join sep (filter truthy (map strip (strings n))).

(** Every node below [n] in document order, each with the tags that
    follow it among the children of its parent: the nodes that repeated
    calls of [find_next_sibling()] visit. *)
Fixpoint with_next_siblings (n : node) : list (node * list node) :=
  match n with
  | Text _ => []
  | Tag _ _ _ cs =>
      (fix go (l : list node) : list (node * list node) :=
         match l with
         | [] => []
         | c :: rest =>
             (c, filter is_tag rest) :: with_next_siblings c ++ go rest
         end) cs
  end.

(** The tree after [decompose()] of every tag below [n] that [bad] holds of. *)
Fixpoint decompose_all (bad : node -> bool) (n : node) : node :=
  match n with
  | Text _ => n
  | Tag nm cls i cs =>
      Tag nm cls i
        ((fix go (l : list node) : list node :=
            match l with
            | [] => []
            | c :: rest =>
                if bad c then go rest else decompose_all bad c :: go rest
            end) cs)
  end.

(** The first node below [n], in document order, that [p] holds of is
    decomposed together with the tags that follow it among its siblings;
    [None] when [p] holds of no node. *)
Fixpoint decompose_from (p : node -> bool) (n : node) : option node :=
  match n with
  | Text _ => None
  | Tag nm cls i cs =>
      option_map (Tag nm cls i)
        ((fix go (l : list node) : option (list node) :=
            match l with
            | [] => None
            | c :: rest =>
                if p c then Some (filter is_text rest)
                else match decompose_from p c with
                     | Some c' => Some (c' :: rest)
                     | None => option_map (cons c) (go rest)
                     end
            end) cs)
  end.

End Soup.

Import Soup.

(* ------------------------------------------------------------------ *)
(** * The extraction strategies of [PMCScraperV2] *)

(** What a strategy returns: the candidate text ([None] for Python's
    [None]) and the titles of the sections it used. *)
Definition candidate := (option str * list str)%type.

(** ** Method 1: the sections of the main article body *)

(** The loop over [main_body.find_all('section', recursive=False)]. *)
Fixpoint method1_loop (sections : list node)
  (content_parts sections_found : list str) : list str * list str :=
  match sections with
  | [] => (content_parts, sections_found)
  | section :: rest =>
      let heading := find (named ["h2"; "h3"; "h4"]%string) section in
      let section_title :=
        match heading with Some h => get_text [] h | None => [] end in
      if truthy section_title && is_exclude_section section_title
      then (content_parts, sections_found)                     (* break *)
      else
        let section_text := get_text (lit " ") section in
        if truthy section_text && (len section_text >? 50)%Z
        then method1_loop rest (content_parts ++ [section_text])
               (if truthy section_title
                then sections_found ++ [section_title]
                else sections_found)
        else method1_loop rest content_parts sections_found
  end.

Definition orelse {A : Type} (a b : option A) : option A :=
  match a with Some _ => a | None => b end.

Definition extract_method1_main_body (soup : node) : candidate :=
  let main_body :=
    orelse
      (find (fun n => named ["section"%string] n && has_class "main-article-body" n) soup)
      (orelse
         (find (fun n => named ["div"%string] n && has_class "article-content" n) soup)
         (find (fun n => named ["article"%string] n && has_class "article" n) soup)) in
  match main_body with
  | None => (None, [lit "main-article-body not found"])
  | Some main_body =>
      let (content_parts, sections_found) :=
        method1_loop (find_all_children (named ["section"%string]) main_body)
          [] [] in
      match content_parts with
      | [] => (None, sections_found)
      | _ => (Some (join (lit " ") content_parts), sections_found)
      end
  end.

(** ** Method 2: the position of the headings *)

(** A heading as the loop of method 2 sees it: the tag, and the tags
    that follow it among its siblings. *)
Definition heading_view := (node * list node)%type.

(** The inner loop [while current: ...]: the texts of the following
    siblings up to the next h2 or h3, the empty ones left out. *)
Fixpoint sibling_content (siblings : list node) : list str :=
  match siblings with
  | [] => []
  | current :: rest =>
      if named ["h2"; "h3"]%string current then []             (* break *)
      else
        let text := get_text (lit " ") current in
        if truthy text then text :: sibling_content rest
        else sibling_content rest
  end.

(** The loop [for heading in headings]. *)
Fixpoint method2_loop (headings : list heading_view) (start_found : bool)
  (content_parts sections_found : list str) : list str * list str :=
  match headings with
  | [] => (content_parts, sections_found)
  | (heading, siblings) :: rest =>
      let heading_text := get_text [] heading in
      if is_exclude_section heading_text
      then (content_parts, sections_found)                     (* break *)
      else
        let start_found :=
          if is_main_content_section heading_text then true else start_found in
        if start_found
        then
          let content := sibling_content siblings in
          method2_loop rest start_found
            (match content with
             | [] => content_parts
             | _ => content_parts ++
                    [heading_text ++ [LF] ++ join (lit " ") content]
             end)
            (sections_found ++ [heading_text])
        else method2_loop rest start_found content_parts sections_found
  end.

(** [soup.find_all(['h2', 'h3'])], each heading with its next siblings. *)
Definition headings_of (soup : node) : list heading_view :=
  filter (fun hv => named ["h2"; "h3"]%string (fst hv)) (with_next_siblings soup).

Definition method2_result (r : list str * list str) : candidate :=
  match fst r with
  | [] => (None, snd r)
  | _ => (Some (join [LF; LF] (fst r)), snd r)
  end.

Definition extract_method2_heading (soup : node) : candidate :=
  method2_result (method2_loop (headings_of soup) false [] []).

(** ** Method 3: the fallback *)

(** \bReferences\b, \bBibliography\b, \bFootnotes\b *)
Definition MARKER_PATTERNS : list re :=
  [ WordB ;; L "References" ;; WordB
  ; WordB ;; L "Bibliography" ;; WordB
  ; WordB ;; L "Footnotes" ;; WordB ].

(** The loop [for pattern in [...]: match = re.search(pattern, text,
    re.IGNORECASE); if match: text = text[:match.start()]; break]. *)
Fixpoint truncate_at_marker (patterns : list re) (text : str) : str :=
  match patterns with
  | [] => text
  | pattern :: rest =>
      match re_search true pattern text with
      | Some start => firstn start text
      | None => truncate_at_marker rest text
      end
  end.

(** The last two statements of method 3, on the flattened text. *)
Definition method3_text (text : str) : option str :=
  let text := truncate_at_marker MARKER_PATTERNS text in
  if (len text >? 500)%Z then Some (strip text) else None.

Definition extract_method3_fallback (soup : node) : candidate :=
  let sections_found := [lit "[Fallback mode]"] in
  let article :=
    orelse (find (named ["article"%string]) soup)
      (orelse
         (find (fun n => named ["div"%string] n && has_class "article-content" n) soup)
         (orelse
            (find (fun n => named ["div"%string] n &&
                            id_search true (Alt (L "article") (L "content")) n)
               soup)
            (find (named ["main"%string]) soup))) in
  match article with
  | None => (None, sections_found)
  | Some article =>
      let article :=
        decompose_all
          (named ["script"; "style"; "nav"; "footer"; "header"; "aside"]%string)
          article in
      let article :=
        match decompose_from
                (fun n => named ["h1"; "h2"; "h3"; "h4"]%string n &&
                          is_exclude_section (get_text [] n))
                article with
        | Some cut => cut
        | None => article
        end in
      let text := get_text (lit " ") article in
      (method3_text text, sections_found)
  end.

(* ------------------------------------------------------------------ *)
(** * Fetching and the result of an extraction *)

Inductive ExtractionStatus : Type :=
| SUCCESS
| PARTIAL      (* Partially successful (used fallback) *)
| FAILED
| NO_PMCID.

Record ExtractionResult : Type := {
  pmcid : str;
  status : ExtractionStatus;
  full_text : option str;
  full_text_chunks : option (list str);
  error_message : option str;
  method_used : option str;
  sections_found : option (list str);
  char_count : Z;
  word_count : Z
}.

(** What [requests.get] followed by [raise_for_status] does. *)
Inductive response : Type :=
| Response (text : str)              (* a response that is not an error *)
| Timeout                            (* requests.Timeout *)
| HTTPError (status_code : Z)        (* requests.HTTPError *)
| RequestException (message : str)   (* another requests.RequestException *)
| OtherException (message : str).    (* an exception the method lets through *)

(** What the Selenium block does: the page source, or an exception. *)
Inductive rendering : Type :=
| PageSource (html : str)
| SeleniumException (message : str).

(** The surroundings of the scraper: the network, the browser, the HTML
    parser, and the text of the traceback of an exception.  The parser
    and the three strategies are total functions here: the only
    exception that reaches the handler of [extract_full_text] is one
    that [requests.get] lets through. *)
Record world : Type := {
  requests_get : str -> response;
  selenium_get : str -> rendering;
  html_parser : str -> node;
  format_exc : str
}.

(** The calls a run makes, in order. *)
Inductive event : Type :=
| CallRequests (url : str)
| CallSelenium (url : str)
| CallMethod1
| CallMethod2
| CallMethod3.

Inductive outcome (A : Type) : Type :=
| Return (a : A)
| Raise (message : str).

Arguments Return {A} a.
Arguments Raise {A} message.

Definition article_url (pmcid : str) : str :=
  lit "https://pmc.ncbi.nlm.nih.gov/articles/" ++ pmcid ++ lit "/".

Section Scraper.

Variable w : world.
Variable use_selenium : bool.     (* self.use_selenium *)

(** Method 2 of [fetch_html]: Selenium fallback. *)
Definition fetch_selenium (url : str)
  : outcome (option str * option str) * list event :=
  if use_selenium then
    match selenium_get w url with
    | PageSource html =>
        if (len html >? 10000)%Z
        then (Return (Some html, None), [CallSelenium url])
        else (Return (None, Some (lit "Unable to fetch page content")),
              [CallSelenium url])
    | SeleniumException e =>
        (Return (None, Some (lit "Selenium failed: " ++ e)), [CallSelenium url])
    end
  else (Return (None, Some (lit "Unable to fetch page content")), []).

Definition fetch_html (pmcid : str)
  : outcome (option str * option str) * list event :=
  let url := article_url pmcid in
  let fallback :=
    let (r, log) := fetch_selenium url in (r, CallRequests url :: log) in
  match requests_get w url with
  | Response text =>
      if (len text >? 10000)%Z
      then (Return (Some text, None), [CallRequests url])
      else fallback
  | Timeout => fallback
  | HTTPError status_code =>
      if (status_code =? 404)%Z
      then (Return (None, Some (lit "Article not found (404): " ++ pmcid)),
            [CallRequests url])
      else fallback
  | RequestException _ => fallback
  | OtherException e => (Raise e, [CallRequests url])
  end.

(** The result built when a strategy passes its gate. *)
Definition extracted (pmcid : str) (st : ExtractionStatus) (method : string)
  (text : str) (sections : list str) : ExtractionResult :=
  let clean := clean_text_v2 text in
  {| pmcid := pmcid;
     status := st;
     full_text := Some clean;
     full_text_chunks := Some (chunk_text_v2_default clean);
     error_message := None;
     method_used := Some (lit method);
     sections_found := Some sections;
     char_count := len clean;
     word_count := Z.of_nat (length (split clean)) |}.

Definition failure (pmcid : str) (st : ExtractionStatus) (message : str)
  : ExtractionResult :=
  {| pmcid := pmcid;
     status := st;
     full_text := None;
     full_text_chunks := None;
     error_message := Some message;
     method_used := None;
     sections_found := None;
     char_count := 0;
     word_count := 0 |}.

(** The gate [text and len(text) > n]. *)
Definition passes (n : Z) (text : option str) : option str :=
  match text with
  | Some t => if truthy t && (len t >? n)%Z then Some t else None
  | None => None
  end.

(** The part of [extract_full_text] that follows the fetch. *)
Definition extract_from_html (pmcid html : str)
  : ExtractionResult * list event :=
  let soup := html_parser w html in
  (* Method 1: Precise extraction using main-article-body *)
  let (text, sections) := extract_method1_main_body soup in
  match passes 1000 text with
  | Some text =>
      (extracted pmcid SUCCESS "method1_main_body" text sections,
       [CallMethod1])
  | None =>
      (* Method 2: Heading-based extraction *)
      let (text, sections) := extract_method2_heading soup in
      match passes 1000 text with
      | Some text =>
          (extracted pmcid SUCCESS "method2_heading" text sections,
           [CallMethod1; CallMethod2])
      | None =>
          (* Method 3: Fallback *)
          let (text, sections) := extract_method3_fallback soup in
          match passes 500 text with
          | Some text =>
              (extracted pmcid PARTIAL "method3_fallback" text sections,
               [CallMethod1; CallMethod2; CallMethod3])
          | None =>
              (failure pmcid FAILED
                 (lit "All extraction methods failed, page structure may be non-standard"),
               [CallMethod1; CallMethod2; CallMethod3])
          end
      end
  end.

(** The identifier as [extract_full_text] normalises it. *)
Definition normalize_pmcid (pmcid : str) : str :=
  let pmcid := strip pmcid in
  let pmcid :=
    if negb (startswith (lit "PMC") (upper pmcid))
    then lit "PMC" ++ pmcid else pmcid in
  upper pmcid.

Definition extract_full_text (pmcid : str) : ExtractionResult * list event :=
  if negb (truthy pmcid)
  then (failure [] NO_PMCID (lit "PMCID is empty"), [])
  else
    let pmcid := normalize_pmcid pmcid in
    match fetch_html pmcid with
    | (Return (html, error), log) =>
        match html with
        | Some ((_ :: _) as html) =>
            let (r, log') := extract_from_html pmcid html in (r, log ++ log')
        | _ =>
            (failure pmcid FAILED
               (match error with
                | Some ((_ :: _) as e) => e
                | _ => lit "Unable to fetch HTML"
                end),
             log)
        end
    | (Raise e, log) =>
        (failure pmcid FAILED
           (lit "Exception: " ++ e ++ [LF] ++ firstn 500 (format_exc w)),
         log)
    end.

End Scraper.

(* ================================================================== *)
(** * Vocabulary of the properties *)

Definition no_space (x : str) : Prop := Forall (fun c => is_space c = false) x.

(** A word: not empty, and without white space. *)
Definition is_a_word (x : str) : Prop := x <> [] /\ no_space x.

(** The window of the iteration of the chunker that begins at offset [a]. *)
Definition window (words : list str) (chunk_size_words : Z) (a : Z) : str :=
  join (lit " ")
    (slice words a (Z.min (a + chunk_size_words) (Z.of_nat (length words)))).

(** How a run of the three strategies ends. *)
Inductive chain_end (w : world) (id html : str)
  : ExtractionResult -> list event -> Prop :=
| end_method1 text :
    passes 1000 (fst (extract_method1_main_body (html_parser w html)))
    = Some text ->
    chain_end w id html
      (extracted id SUCCESS "method1_main_body" text
         (snd (extract_method1_main_body (html_parser w html))))
      [CallMethod1]
| end_method2 text :
    passes 1000 (fst (extract_method1_main_body (html_parser w html)))
    = None ->
    passes 1000 (fst (extract_method2_heading (html_parser w html)))
    = Some text ->
    chain_end w id html
      (extracted id SUCCESS "method2_heading" text
         (snd (extract_method2_heading (html_parser w html))))
      [CallMethod1; CallMethod2]
| end_method3 text :
    passes 1000 (fst (extract_method1_main_body (html_parser w html)))
    = None ->
    passes 1000 (fst (extract_method2_heading (html_parser w html)))
    = None ->
    passes 500 (fst (extract_method3_fallback (html_parser w html)))
    = Some text ->
    chain_end w id html
      (extracted id PARTIAL "method3_fallback" text
         (snd (extract_method3_fallback (html_parser w html))))
      [CallMethod1; CallMethod2; CallMethod3]
| end_failed :
    passes 1000 (fst (extract_method1_main_body (html_parser w html)))
    = None ->
    passes 1000 (fst (extract_method2_heading (html_parser w html)))
    = None ->
    passes 500 (fst (extract_method3_fallback (html_parser w html)))
    = None ->
    chain_end w id html
      (failure id FAILED
         (lit "All extraction methods failed, page structure may be non-standard"))
      [CallMethod1; CallMethod2; CallMethod3].

(** How a call of [extract_full_text] ends. *)
Inductive run_end (w : world) (use_selenium : bool) (pmcid : str)
  : ExtractionResult -> list event -> Prop :=
| end_no_pmcid :
    pmcid = [] ->
    run_end w use_selenium pmcid
      (failure [] NO_PMCID (lit "PMCID is empty")) []
| end_fetch_failed message log :
    pmcid <> [] ->
    (exists r, fetch_html w use_selenium (normalize_pmcid pmcid) = (r, log)) ->
    run_end w use_selenium pmcid
      (failure (normalize_pmcid pmcid) FAILED message) log
| end_chain html error log r log' :
    pmcid <> [] ->
    html <> [] ->
    fetch_html w use_selenium (normalize_pmcid pmcid)
    = (Return (Some html, error), log) ->
    chain_end w (normalize_pmcid pmcid) html r log' ->
    run_end w use_selenium pmcid r (log ++ log').

(* ------------------------------------------------------------------ *)
(** ** Strategy 2 in terms of the sequence of headings *)

Definition heading_text (h : heading_view) : str := get_text [] (fst h).

Definition excluded_heading (h : heading_view) : bool :=
  is_exclude_section (heading_text h).

Definition main_heading (h : heading_view) : bool :=
  is_main_content_section (heading_text h).

(** What a collected heading adds to the candidate text. *)
Definition heading_part (h : heading_view) : list str :=
  match sibling_content (snd h) with
  | [] => []
  | content => [heading_text h ++ [LF] ++ join (lit " ") content]
  end.

(** The elements before the first one that satisfies [p]. *)
Fixpoint before_first {A : Type} (p : A -> bool) (l : list A) : list A :=
  match l with
  | [] => []
  | x :: rest => if p x then [] else x :: before_first p rest
  end.

(** The elements from the first one that satisfies [p] on. *)
Fixpoint from_first {A : Type} (p : A -> bool) (l : list A) : list A :=
  match l with
  | [] => []
  | x :: rest => if p x then l else from_first p rest
  end.

(** The headings strategy 2 collects according to the specification:
    nothing before the first main-content heading; from that heading on,
    every heading up to the first excluded one that follows it. *)
Fixpoint collected_as_specified (headings : list heading_view)
  (started : bool) : list heading_view :=
  match headings with
  | [] => []
  | h :: rest =>
      if started
      then if excluded_heading h then []
           else h :: collected_as_specified rest true
      else if main_heading h
           then h :: collected_as_specified rest true
           else collected_as_specified rest false
  end.

(* ------------------------------------------------------------------ *)
(** ** Marker words in the flattened text of strategy 3 *)

Definition last_opt (t : str) : option ascii := hd_error (rev t).

(** The previous character after the matcher has read [m]. *)
Definition prev_after (prev : option ascii) (m : str) : option ascii :=
  match last_opt m with Some c => Some c | None => prev end.

(** [word] occurs at offset [i] of [text]: the characters there are those
    of [word] up to case, with a word boundary ([\b]) on each side. *)
Definition occurs_at (word text : str) (i : nat) : Prop :=
  exists before m after,
    text = before ++ m ++ after /\
    length before = i /\
    lower m = lower word /\
    at_wordb (last_opt before) (m ++ after) = true /\
    at_wordb (last_opt (before ++ m)) after = true.

Definition first_occurrence (word text : str) (i : nat) : Prop :=
  occurs_at word text i /\ forall j, j < i -> ~ occurs_at word text j.

Definition absent (word text : str) : Prop :=
  forall j, ~ occurs_at word text j.

(** The pattern [\bword\b]. *)
Definition marker (word : string) : re := WordB ;; L word ;; WordB.

Definition opt_min (a b : option nat) : option nat :=
  match a, b with
  | Some x, Some y => Some (Nat.min x y)
  | Some x, None => Some x
  | None, _ => b
  end.

(** The truncation as the specification words it: the prefix that ends
    before the earliest occurrence of any of the three marker words. *)
Definition earliest_marker_start (text : str) : option nat :=
  opt_min (re_search true (marker "References") text)
    (opt_min (re_search true (marker "Bibliography") text)
       (re_search true (marker "Footnotes") text)).

Definition earliest_marker_prefix (text : str) : str :=
  match earliest_marker_start text with
  | Some i => firstn i text
  | None => text
  end.

(* ------------------------------------------------------------------ *)
(** ** Anchors of the classifier's patterns *)

(** The pattern ends with [$] on every path. *)
Fixpoint anchored_end (r : re) : bool :=
  match r with
  | Eol => true
  | Cat _ b => anchored_end b
  | Alt a b => anchored_end a && anchored_end b
  | Grp _ a => anchored_end a
  | _ => false
  end.

(** [t'] is what remains of [t] after some of its characters. *)
Definition suffix (t' t : str) : Prop := exists pre, t = pre ++ t'.

(** The classifier as the specification words it: the trimmed,
    lower-cased title fully matches some pattern of the table. *)
Definition excluded_as_specified (title : str) : bool :=
  existsb (fun p => is_some (re_fullmatch true p (lower (strip title))))
    EXCLUDE_SECTION_PATTERNS.

(* ------------------------------------------------------------------ *)
(** ** White space in normalized text *)

Definition starts_with_space (t : str) : bool :=
  match t with c :: _ => is_space c | [] => false end.

(** Every white-space character of [t] is a single space that is not
    followed by another white-space character. *)
Fixpoint tidy (t : str) : bool :=
  match t with
  | [] => true
  | c :: t' =>
      (if is_space c
       then ascii_eqb c " " && negb (starts_with_space t')
       else true) && tidy t'
  end.

(** The last three statements of [clean_text_v2]: the two white-space
    passes and the trimming. *)
Definition squeeze (t : str) : str :=
  strip (re_sub false BLANK_LINES [PText [LF; LF]]
           (re_sub false SPACES [PText (lit " ")] t)).


(* ------------------------------------------------------------------ *)
(** * Example pages *)

Module Examples.

(** A response long enough to pass the 10000-character test. *)
Definition long_page : str := repeat "x"%char 10001.

Definition document (children : list node) : node :=
  Tag (lit "[document]") [] None children.

Definition elem (name : string) (children : list node) : node :=
  Tag (lit name) [] None children.

Definition main_article_body (children : list node) : node :=
  Tag (lit "section") [lit "main-article-body"] None children.

(** A world whose network answers every request with [long_page], which
    the parser turns into [soup]; there is no browser. *)
Definition serving (soup : node) : world :=
  {| requests_get := fun _ => Response long_page;
     selenium_get := fun _ => SeleniumException (lit "no driver");
     html_parser := fun _ => soup;
     format_exc := [] |}.

(** A world in which every article is missing. *)
Definition missing : world :=
  {| requests_get := fun _ => HTTPError 404;
     selenium_get := fun _ => PageSource long_page;
     html_parser := fun _ => document [];
     format_exc := [] |}.

(** A results section whose paragraph holds a run of a thousand spaces. *)
Definition spaced_page : node :=
  document
    [main_article_body
       [elem "section"
          [elem "h2" [Text (lit "Results")];
           elem "p" [Text (lit "a" ++ repeat " "%char 1000 ++ lit "b")]]]].

(** A section without heading that is one long researcher identifier. *)
Definition orcid_page : node :=
  document
    [main_article_body
       [elem "section"
          [elem "p" [Text (lit "ORCID:" ++ repeat "7"%char 1000)]]]].

(** A funding statement placed before the abstract. *)
Definition funding_first : list heading_view :=
  [ (elem "h2" [Text (lit "Funding")], [elem "p" [Text (lit "None.")]]);
    (elem "h2" [Text (lit "Abstract")],
     [elem "p" [Text (lit "We study risk.")]]) ].

(** Title, abstract, methods, references, and an appendix after them. *)
Definition plain_article : list heading_view :=
  [ (elem "h2" [Text (lit "Risk models")], [elem "p" [Text (lit "News")]]);
    (elem "h2" [Text (lit "Abstract")],
     [elem "p" [Text (lit "We study risk.")]; elem "div" [];
      elem "h3" [Text (lit "Aims")]; elem "p" [Text (lit "hidden")]]);
    (elem "h3" [Text (lit "Aims")], []);
    (elem "h2" [Text (lit "Methods")], [elem "p" [Text (lit "Cohort.")]]);
    (elem "h2" [Text (lit "References")], [elem "p" [Text (lit "1. A")]]);
    (elem "h2" [Text (lit "Results")], [elem "p" [Text (lit "late")]]) ].

(** Six hundred characters of body text, then footnotes, then references. *)
Definition footnotes_first : str :=
  repeat "x"%char 600 ++ lit " Footnotes 1 References 2".

End Examples.

(* ------------------------------------------------------------------ *)
(** * The dictionaries of the results *)

(** The values a dictionary of the program holds. *)
Inductive pyval : Type :=
| PNone
| PStr (s : str)
| PList (l : list str)
| PInt (z : Z).

Definition opt_str (o : option str) : pyval :=
  match o with Some s => PStr s | None => PNone end.

Definition opt_list (o : option (list str)) : pyval :=
  match o with Some l => PList l | None => PNone end.

(** [status.value] *)
Definition status_value (st : ExtractionStatus) : str :=
  match st with
  | SUCCESS => lit "success"
  | PARTIAL => lit "partial"
  | FAILED => lit "failed"
  | NO_PMCID => lit "no_pmcid"
  end.

(** A dictionary with string keys, in insertion order. *)
Definition dict (V : Type) := list (str * V).

Fixpoint dict_get {V : Type} (d : dict V) (key : str) : option V :=
  match d with
  | [] => None
  | (k, v) :: d' => if str_eqb k key then Some v else dict_get d' key
  end.

(** [d[key] = v]: the value of an existing key is replaced in place, a
    new key is added at the end. *)
Fixpoint dict_set {V : Type} (d : dict V) (key : str) (v : V) : dict V :=
  match d with
  | [] => [(key, v)]
  | (k, x) :: d' =>
      if str_eqb k key then (k, v) :: d' else (k, x) :: dict_set d' key v
  end.

Definition dict_keys {V : Type} (d : dict V) : list str := map fst d.

(* ------------------------------------------------------------------ *)
(** * Vocabulary of the further properties *)

(** A text made of white space only. *)
Definition all_space (t : str) : Prop := Forall (fun c => is_space c = true) t.

(** A text of ASCII characters: the texts on which [str.upper],
    [str.lower] and [str.strip] are the functions of [Py]. *)
Definition is_ascii (t : str) : Prop := Forall (fun c => code c < 128) t.

(** The calls that go to the network or the browser. *)
Definition is_transport (e : event) : bool :=
  match e with
  | CallRequests _ | CallSelenium _ => true
  | _ => false
  end.

(** Strategy 1 in terms of the child sections of the container: the
    title and the text the loop reads from a section, and its two tests. *)
Definition section_title (section : node) : str :=
  match find (named ["h2"; "h3"; "h4"]%string) section with
  | Some h => get_text [] h
  | None => []
  end.

Definition section_text (section : node) : str := get_text (lit " ") section.

Definition excluded_section (section : node) : bool :=
  truthy (section_title section) && is_exclude_section (section_title section).

Definition substantial (section : node) : bool :=
  truthy (section_text section) && (len (section_text section) >? 50)%Z.

(** The container strategy 1 works in: the first of the three [find]s
    that succeeds. *)
Definition main_body_of (soup : node) : option node :=
  orelse
    (find (fun n => named ["section"%string] n && has_class "main-article-body" n) soup)
    (orelse
       (find (fun n => named ["div"%string] n && has_class "article-content" n) soup)
       (find (fun n => named ["article"%string] n && has_class "article" n) soup)).

(** The first and the last character of [w] are word characters. *)
Definition wordy (w : str) : Prop :=
  is_word_opt (hd_error w) = true /\ is_word_opt (last_opt w) = true.

(* ------------------------------------------------------------------ *)
(** * The language-model client: [chat_completion] and [process_input] *)

(** What one call of [client.chat.completions.create] followed by
    [response.choices[0].message.content] does. *)
Inductive api_outcome : Type :=
| Completion (content : option str)
    (* the content of the first choice, possibly None *)
| ApiError (status_code : option Z)
    (* an OpenAIError; the ones without a [status_code] attribute make
       [e.status_code] raise AttributeError *)
| ApiRaise (message : str).
    (* any other exception: the function lets it through *)

(** What the client does, in order. *)
Inductive llm_event : Type :=
| ApiCall (content : str)      (* the content of the message sent *)
| Sleep (seconds : Z).

(** The service: the outcome of the call number [i] (from 0). *)
Definition service := nat -> api_outcome.

(** The loop [for attempt in range(max_retries)], from [attempt] on with
    [left] iterations to go.  [calls] counts the calls made before. *)
Fixpoint chat_attempts (api : service) (content : str) (backoff_factor : Z)
  (left attempt calls : nat) : outcome (option str) * list llm_event :=
  match left with
  | O => (Return None, [])                    (* Max retries reached *)
  | S left' =>
      match api calls with
      | Completion c => (Return c, [ApiCall content])
      | ApiError (Some status_code) =>
          if (status_code =? 429)%Z then
            let sleep_time := (backoff_factor ^ Z.of_nat attempt)%Z in
            if (sleep_time <? 0)%Z
            then (Raise (lit "sleep length must be non-negative"),
                  [ApiCall content])
            else
              let (r, log) :=
                chat_attempts api content backoff_factor left'
                  (S attempt) (S calls) in
              (r, ApiCall content :: Sleep sleep_time :: log)
          else (Return None, [ApiCall content])
      | ApiError None =>
          (Raise (lit "object has no attribute 'status_code'"),
           [ApiCall content])
      | ApiRaise e => (Raise e, [ApiCall content])
      end
  end.

(** [chat_completion(messages, max_retries, backoff_factor)], for the
    single user message the program sends; [calls] is the number of calls
    the service has already answered. *)
Definition chat_completion (api : service) (calls : nat) (content : str)
  (max_retries backoff_factor : Z) : outcome (option str) * list llm_event :=
  chat_attempts api content backoff_factor (Z.to_nat max_retries) 0 calls.

(** The number of calls in a log. *)
Definition api_calls (log : list llm_event) : nat :=
  length (filter (fun e => match e with ApiCall _ => true | _ => false end) log).

(** [text.replace(old, new)]: the occurrences of [old] are replaced from
    left to right, without overlap; [skip] counts the characters of the
    current occurrence still to be passed over.  For [old] not empty. *)
Fixpoint replace_from (old new : str) (text : str) (skip : nat) : str :=
  match skip with
  | S n =>
      match text with
      | _ :: text' => replace_from old new text' n
      | [] => []
      end
  | O =>
      match text with
      | [] => []
      | c :: text' =>
          if startswith old text
          then new ++ replace_from old new text' (length old - 1)
          else c :: replace_from old new text' 0
      end
  end.

Definition replace (old new text : str) : str := replace_from old new text 0.

(** The loop of [process_input] over the prompts that remain. *)
Fixpoint process_prompts (api : service) (calls : nat) (input_text : str)
  (prompts : list str) : outcome (list str) * list llm_event :=
  match prompts with
  | [] => (Return [], [])
  | prompt :: rest =>
      let content := replace (lit "[Extracted text]") input_text prompt in
      match chat_completion api calls content 3 2 with
      | (Raise e, log) => (Raise e, log)
      | (Return response, log) =>
          match process_prompts api (calls + api_calls log) input_text rest with
          | (Raise e, log') => (Raise e, log ++ log')
          | (Return responses, log') =>
              (Return (match response with
                       | Some ((_ :: _) as r) => r :: responses
                       | _ => responses
                       end),
               log ++ log')
          end
      end
  end.

Definition process_input (api : service) (input_text : str)
  (prompts : list str) : outcome (list str) * list llm_event :=
  process_prompts api 0 input_text prompts.

(* ------------------------------------------------------------------ *)
(** * Reading the identifiers: [read_pmid_from_txt] *)

(** What opening and reading the file does: the lines the file
    iterator yields, or an exception. *)
Inductive file_read : Type :=
| Lines (lines : list str)
| FileNotFound
| ReadError (message : str).

Definition read_pmid_from_txt (file : file_read) : list str :=
  match file with
  | Lines lines => map strip (filter (fun line => truthy (strip line)) lines)
  | FileNotFound => []
  | ReadError _ => []
  end.

(** The waits in a log, in order. *)
Definition sleeps (log : list llm_event) : list Z :=
  flat_map (fun e => match e with Sleep s => [s] | _ => [] end) log.

(* ------------------------------------------------------------------ *)
(** * Reading the tables of the answers: [extract_sample_data] and
      [extract_model_data] *)

(** Patterns with a lazy quantifier.  [XLazy n p] is [p{n,}?]: after
    [n] characters of the class it tries what follows first, and takes
    one more character only when that fails. *)
Inductive xre : Type :=
| XRe (r : re)
| XLazy (n : nat) (p : cclass)
| XCat (a b : xre)
| XGrp (i : nat) (a : xre).

Section RunLazy.

Variable ic : bool.
Variable A : Type.

Fixpoint run_lazy (f : ascii -> bool) (n : nat) (prev : option ascii)
  (t : str) (g : caps) (k : kont A) {struct t} : option A :=
  let more :=
    match t with
    | c :: t' => if f c then run_lazy f (pred n) (Some c) t' g k else None
    | [] => None
    end in
  match n with
  | O => match k prev t g with
         | Some x => Some x
         | None => more
         end
  | S _ => more
  end.

Fixpoint xrun (r : xre) (prev : option ascii) (t : str) (g : caps)
  (k : kont A) : option A :=
  match r with
  | XRe r => run ic r prev t g k
  | XLazy n p => run_lazy (cls_test ic p) n prev t g k
  | XCat a b => xrun a prev t g (fun prev' t' g' => xrun b prev' t' g' k)
  | XGrp i a =>
      xrun a prev t g (fun prev' t' g' => k prev' t' ((i, consumed t t') :: g'))
  end.

End RunLazy.

(** [[^0-9]] and [.] as sets of ranges: every character but the digits,
    and every character but the line feed. *)
Definition NOT_DIGIT : cclass :=
  CSet [rg (ascii_of_nat 0) "/"; rg ":" (ascii_of_nat 255)].

Definition DOT : cclass :=
  CSet [rg (ascii_of_nat 0) (ascii_of_nat 9);
        rg (ascii_of_nat 11) (ascii_of_nat 255)].

(** \s*\d+\.\s+([^0-9].*?)\s{2,}( .* ), the last group written here
    with blanks the source does not have. *)
Definition TABLE_LINE : xre :=
  XCat (XRe (ws0 ;; Rep 1 CDigit ;; L "." ;; Rep 1 CSpace))
    (XCat (XGrp 1 (XCat (XRe (Cls NOT_DIGIT)) (XLazy 0 DOT)))
       (XCat (XRe (Rep 2 CSpace))
          (XGrp 2 (XRe (Rep 0 DOT))))).

(** [re.match(TABLE_LINE, line)] followed by [match.groups()]. *)
Definition table_line (line : str) : option (str * str) :=
  match xrun false TABLE_LINE None line [] (@accept) with
  | Some (_, g) => Some (group g 1, group g 2)
  | None => None
  end.

(** The ASCII characters at which [str.splitlines] ends a line. *)
Definition is_linebreak (c : ascii) : bool :=
  between 10 13 c || between 28 30 c.

Definition CR : ascii := ascii_of_nat 13.

(** [text.splitlines()]: a carriage return followed by a line feed ends
    one line; the text after the last line break is a line when it is
    not empty.  [after_cr] tells that the previous character was a
    carriage return. *)
Fixpoint splitlines_from (cur : str) (after_cr : bool) (text : str)
  : list str :=
  match text with
  | [] => match cur with [] => [] | _ => [rev cur] end
  | c :: text' =>
      if after_cr && ascii_eqb c LF then splitlines_from [] false text'
      else if is_linebreak c
           then rev cur :: splitlines_from [] (ascii_eqb c CR) text'
           else splitlines_from (c :: cur) false text'
  end.

Definition splitlines (text : str) : list str :=
  splitlines_from [] false text.

Definition sample_fields : list str :=
  map lit
    [ "PMID";
      "Study Type";
      "Disease Name";
      "External Validation";
      "Date Range in the Development Set";
      "Date Range in the Validation Set";
      "Median Follow-up Time (Years) and IQR";
      "Mean Follow-up Time (Years) and Standard Error";
      "Data Sources";
      "Sample Characteristics";
      "Number of Cases in the Development Set";
      "Number of Controls in the Development Set";
      "Number of Cases in the Validation Set";
      "Number of Controls in the Validation Set";
      "Number of Female Participants (Development)";
      "Number of Female Participants (Validation)";
      "Number of Male Participants (Development)";
      "Number of Male Participants (Validation)";
      "Age Range (Development)";
      "Age Range (Validation)";
      "Average Age and Standard Deviation (Development)";
      "Average Age and Standard Deviation (Validation)";
      "Median Age (Development) and IQR";
      "Median Age (Validation) and IQR";
      "Racial/Ethnic Composition (Development)";
      "Racial/Ethnic Composition (Validation)" ]%string.

Definition model_fields : list str :=
  map lit
    [ "PMID";
      "Model Name";
      "Model Type";
      "Prediction Variables";
      "AUC Values";
      "C-index Values";
      "Accuracy";
      "F1-score";
      "Calibration Values";
      "Nomogram Application";
      "Use of TRIPOD Guidelines" ]%string.

(** [{field: "" for field in fields}] followed by [d["PMID"] = pmid]. *)
Definition new_record (fields : list str) (pmid : str) : dict str :=
  dict_set (map (fun field => (field, [])) fields) (lit "PMID") pmid.

(** [d[key]], for a key the dictionary has. *)
Definition dict_at (d : dict str) (key : str) : str :=
  match dict_get d key with Some v => v | None => [] end.

(** The loop [for f in fields: if f in field: d[f] = value; break]. *)
Fixpoint store (fields : list str) (field value : str) (d : dict str)
  : dict str :=
  match fields with
  | [] => d
  | f :: rest =>
      if contains f field then dict_set d f value
      else store rest field value d
  end.

Definition extract_sample_data (response_sample pmid : str) : dict str :=
  fold_left
    (fun data_dict line =>
       match table_line (strip line) with
       | Some (field, value) => store sample_fields field value data_dict
       | None => data_dict
       end)
    (splitlines response_sample)
    (new_record sample_fields pmid).

(** One pass through the body of the loop of [extract_model_data], on
    the list of models and the current model. *)
Definition model_step (pmid : str) (state : list (dict str) * dict str)
  (line : str) : list (dict str) * dict str :=
  let (model_data_list, current_model) := state in
  match table_line (strip line) with
  | Some (field, value) =>
      let (model_data_list, current_model) :=
        if contains (lit "Model Name") field &&
           truthy (dict_at current_model (lit "Model Name"))
        then (model_data_list ++ [current_model],
              new_record model_fields pmid)
        else (model_data_list, current_model) in
      (model_data_list, store model_fields field value current_model)
  | None => (model_data_list, current_model)
  end.

Definition extract_model_data (response_model pmid : str)
  : list (dict str) :=
  let (model_data_list, current_model) :=
    fold_left (model_step pmid) (splitlines response_model)
      ([], new_record model_fields pmid) in
  (* Append the last model *)
  let model_data_list :=
    if truthy (dict_at current_model (lit "Model Name")) ||
       existsb (fun field => truthy (dict_at current_model field))
         (filter (fun field => negb (str_eqb field (lit "PMID"))) model_fields)
    then model_data_list ++ [current_model]
    else model_data_list in
  (* If no models were identified, return an empty model record *)
  match model_data_list with
  | [] => [new_record model_fields pmid]
  | _ => model_data_list
  end.

(** What the loop of [extract_model_data] keeps true of the list of
    models and of the current model. *)
Definition models_ok (state : list (dict str) * dict str) : Prop :=
  Forall (fun d => dict_keys d = model_fields /\
                   dict_at d (lit "Model Name") <> []) (fst state) /\
  dict_keys (snd state) = model_fields.

(* ------------------------------------------------------------------ *)
(** * Vocabulary: the literal a pattern begins with *)

(** The literal that follows [^] at the start of a pattern. *)
Definition head_of (r : re) : option str :=
  match r with
  | Cat Bol (Cat (Lit l) _) => Some l
  | _ => None
  end.

(** One of the two texts is the beginning of the other. *)
Definition compatible (a b : str) : bool := startswith a b || startswith b a.

(** No pattern of the first table begins as a pattern of the second. *)
Definition heads_apart (t1 t2 : list re) : bool :=
  forallb
    (fun r1 =>
       forallb
         (fun r2 =>
            match head_of r1, head_of r2 with
            | Some a, Some b => negb (compatible (lower a) (lower b))
            | _, _ => false
            end) t2) t1.

(** The numbers of the groups of a pattern. *)
Fixpoint groups_of (r : re) : list nat :=
  match r with
  | Cat a b | Alt a b => groups_of a ++ groups_of b
  | Opt a => groups_of a
  | Grp i a => i :: groups_of a
  | _ => []
  end.

(* ------------------------------------------------------------------ *)
(** * The console *)

(** The scraper reports on the console as it goes, and [console.print]
    reads its argument as Rich markup: it raises [MarkupError] when the
    text holds a closing tag that closes nothing.  A print whose
    template is filled with numbers only is left out, here as above.  A
    print whose template is filled with a text of the caller, of the
    page or of a library returns or raises as that text decides, and the
    exception takes the way any exception takes: out of the strategy,
    into the handler of [extract_full_text], whose own print can raise
    again.

    The definitions above give what each function computes when its
    prints return.  This module gives the functions with those prints at
    their places in the source, in a console that decides which texts
    are rejected. *)

Module Console.

(** The texts handed to [console.print] that hold a string; each
    constructor stands for the f-string of the lines named, filled with
    its arguments. *)
Inductive message : Type :=
| RequestsFailed (e : str)            (* l.347, e = str(e)[:50] *)
| SeleniumFailed (e : str)            (* l.365, e = str(e)[:50] *)
| StoppedAt (title : str)             (* l.390 and l.415, the same f-string *)
| Extracted (title : str) (chars : Z) (* l.398, title = section_title[:40] *)
| Fetching (pmcid : str)              (* l.487 *)
| ExceptionText (e : str).            (* l.558 *)

(** What the console does with a message: [None] when it is printed,
    [Some e] when Rich raises [MarkupError] with the text [e]; and the
    text of [traceback.format_exc()] while that error is handled. *)
Record console : Type := {
  console_print : message -> option str;
  markup_format_exc : str -> str
}.

(** An exception on its way to a handler. *)
Inductive exn : Type :=
| MarkupError (e : str)       (* raised by a print *)
| Unhandled (e : str).        (* let through by [requests.get] *)

(** [str(e)] *)
Definition exn_str (x : exn) : str :=
  match x with MarkupError e | Unhandled e => e end.

Inductive raising (A : Type) : Type :=
| Value (a : A)
| Exn (x : exn).

Arguments Value {A} a.
Arguments Exn {A} x.

(** The first of a sequence of prints that raises. *)
Fixpoint first_error (c : console) (messages : list message) : option str :=
  match messages with
  | [] => None
  | m :: rest =>
      match console_print c m with
      | Some e => Some e
      | None => first_error c rest
      end
  end.

Section Printing.

Variable c : console.
Variable w : world.
Variable use_selenium : bool.

(** The loop of [extract_method1_main_body], l.385-398. *)
Fixpoint method1_loop (sections : list node)
  (content_parts sections_found : list str)
  : raising (list str * list str) :=
  match sections with
  | [] => Value (content_parts, sections_found)
  | section :: rest =>
      let heading := find (named ["h2"; "h3"; "h4"]%string) section in
      let section_title :=
        match heading with Some h => get_text [] h | None => [] end in
      if truthy section_title && is_exclude_section section_title
      then
        match console_print c (StoppedAt section_title) with
        | Some e => Exn (MarkupError e)
        | None => Value (content_parts, sections_found)        (* break *)
        end
      else
        let section_text := get_text (lit " ") section in
        if truthy section_text && (len section_text >? 50)%Z
        then
          if truthy section_title
          then
            match console_print c
                    (Extracted (firstn 40 section_title) (len section_text))
            with
            | Some e => Exn (MarkupError e)
            | None =>
                method1_loop rest (content_parts ++ [section_text])
                  (sections_found ++ [section_title])
            end
          else method1_loop rest (content_parts ++ [section_text])
                 sections_found
        else method1_loop rest content_parts sections_found
  end.

Definition extract_method1_main_body (soup : node) : raising candidate :=
  let main_body :=
    orelse
      (find (fun n => named ["section"%string] n && has_class "main-article-body" n) soup)
      (orelse
         (find (fun n => named ["div"%string] n && has_class "article-content" n) soup)
         (find (fun n => named ["article"%string] n && has_class "article" n) soup)) in
  match main_body with
  | None => Value (None, [lit "main-article-body not found"])
  | Some main_body =>
      match method1_loop
              (find_all_children (named ["section"%string]) main_body) [] []
      with
      | Exn x => Exn x
      | Value (content_parts, sections_found) =>
          match content_parts with
          | [] => Value (None, sections_found)
          | _ => Value (Some (join (lit " ") content_parts), sections_found)
          end
      end
  end.

(** The loop of [extract_method2_heading], l.411-434. *)
Fixpoint method2_loop (headings : list heading_view) (start_found : bool)
  (content_parts sections_found : list str)
  : raising (list str * list str) :=
  match headings with
  | [] => Value (content_parts, sections_found)
  | (heading, siblings) :: rest =>
      let heading_text := get_text [] heading in
      if is_exclude_section heading_text
      then
        match console_print c (StoppedAt heading_text) with
        | Some e => Exn (MarkupError e)
        | None => Value (content_parts, sections_found)        (* break *)
        end
      else
        let start_found :=
          if is_main_content_section heading_text then true else start_found in
        if start_found
        then
          let content := sibling_content siblings in
          method2_loop rest start_found
            (match content with
             | [] => content_parts
             | _ => content_parts ++
                    [heading_text ++ [LF] ++ join (lit " ") content]
             end)
            (sections_found ++ [heading_text])
        else method2_loop rest start_found content_parts sections_found
  end.

Definition extract_method2_heading (soup : node) : raising candidate :=
  match method2_loop (headings_of soup) false [] [] with
  | Exn x => Exn x
  | Value r => Value (method2_result r)
  end.

(** Method 2 of [fetch_html]: Selenium fallback.  The print of l.365 is
    in the handler of the block: an error it raises leaves [fetch_html]. *)
Definition fetch_selenium (url : str)
  : raising (option str * option str) * list event :=
  if use_selenium then
    match selenium_get w url with
    | PageSource html =>
        if (len html >? 10000)%Z
        then (Value (Some html, None), [CallSelenium url])
        else (Value (None, Some (lit "Unable to fetch page content")),
              [CallSelenium url])
    | SeleniumException e =>
        match console_print c (SeleniumFailed (firstn 50 e)) with
        | Some m => (Exn (MarkupError m), [CallSelenium url])
        | None =>
            (Value (None, Some (lit "Selenium failed: " ++ e)),
             [CallSelenium url])
        end
    end
  else (Value (None, Some (lit "Unable to fetch page content")), []).

Definition fetch_html (pmcid : str)
  : raising (option str * option str) * list event :=
  let url := article_url pmcid in
  let fallback :=
    let (r, log) := fetch_selenium url in (r, CallRequests url :: log) in
  match requests_get w url with
  | Response text =>
      if (len text >? 10000)%Z
      then (Value (Some text, None), [CallRequests url])
      else fallback
  | Timeout => fallback
  | HTTPError status_code =>
      if (status_code =? 404)%Z
      then (Value (None, Some (lit "Article not found (404): " ++ pmcid)),
            [CallRequests url])
      else fallback
  | RequestException e =>
      match console_print c (RequestsFailed (firstn 50 e)) with
      | Some m => (Exn (MarkupError m), [CallRequests url])
      | None => fallback
      end
  | OtherException e => (Exn (Unhandled e), [CallRequests url])
  end.

(** The part of the [try] block of [extract_full_text] that follows the
    fetch, l.498-555.  Method 3 prints nothing. *)
Definition extract_from_html (pmcid html : str)
  : raising ExtractionResult * list event :=
  let soup := html_parser w html in
  (* Method 1: Precise extraction using main-article-body *)
  match extract_method1_main_body soup with
  | Exn x => (Exn x, [CallMethod1])
  | Value (text, sections) =>
      match passes 1000 text with
      | Some text =>
          (Value (extracted pmcid SUCCESS "method1_main_body" text sections),
           [CallMethod1])
      | None =>
          (* Method 2: Heading-based extraction *)
          match extract_method2_heading soup with
          | Exn x => (Exn x, [CallMethod1; CallMethod2])
          | Value (text, sections) =>
              match passes 1000 text with
              | Some text =>
                  (Value (extracted pmcid SUCCESS "method2_heading" text
                            sections),
                   [CallMethod1; CallMethod2])
              | None =>
                  (* Method 3: Fallback *)
                  let (text, sections) := extract_method3_fallback soup in
                  match passes 500 text with
                  | Some text =>
                      (Value (extracted pmcid PARTIAL "method3_fallback" text
                                sections),
                       [CallMethod1; CallMethod2; CallMethod3])
                  | None =>
                      (Value
                         (failure pmcid FAILED
                            (lit "All extraction methods failed, page structure may be non-standard")),
                       [CallMethod1; CallMethod2; CallMethod3])
                  end
              end
          end
      end
  end.

(** The [try] block of [extract_full_text], l.489-555. *)
Definition try_block (pmcid : str) : raising ExtractionResult * list event :=
  match fetch_html pmcid with
  | (Value (html, error), log) =>
      match html with
      | Some ((_ :: _) as html) =>
          let (r, log') := extract_from_html pmcid html in (r, log ++ log')
      | _ =>
          (Value
             (failure pmcid FAILED
                (match error with
                 | Some ((_ :: _) as e) => e
                 | _ => lit "Unable to fetch HTML"
                 end)),
           log)
      end
  | (Exn x, log) => (Exn x, log)
  end.

(** [traceback.format_exc()] in the handler. *)
Definition traceback (x : exn) : str :=
  match x with
  | MarkupError e => markup_format_exc c e
  | Unhandled _ => format_exc w
  end.

(** [extract_full_text]: the print of l.487 stands before the [try], so
    that an error it raises leaves the function; the handler of l.557
    prints the exception it caught before it builds the record. *)
Definition extract_full_text (pmcid : str)
  : raising ExtractionResult * list event :=
  if negb (truthy pmcid)
  then (Value (failure [] NO_PMCID (lit "PMCID is empty")), [])
  else
    let pmcid := normalize_pmcid pmcid in
    match console_print c (Fetching pmcid) with
    | Some e => (Exn (MarkupError e), [])
    | None =>
        match try_block pmcid with
        | (Value r, log) => (Value r, log)
        | (Exn x, log) =>
            match console_print c (ExceptionText (exn_str x)) with
            | Some e => (Exn (MarkupError e), log)
            | None =>
                (Value
                   (failure pmcid FAILED
                      (lit "Exception: " ++ exn_str x ++ [LF] ++
                       firstn 500 (traceback x))),
                 log)
            end
        end
    end.

End Printing.

(** The scraper is built with [use_selenium=False]; the [driver]
    argument is not used. *)
Definition fetch_pmc_full_text_v2 (c : console) (w : world) (pmcid_arg : str)
  : raising (dict pyval) * list event :=
  match extract_full_text c w false pmcid_arg with
  | (Exn x, log) => (Exn x, log)
  | (Value result, log) =>
      (Value
         [ (lit "pmcid", PStr (pmcid result));
           (lit "full_text", opt_str (full_text result));
           (lit "full_text_chunks", opt_list (full_text_chunks result));
           (lit "status", PStr (status_value (status result)));
           (lit "error", opt_str (error_message result));
           (lit "method", opt_str (method_used result));
           (lit "sections", opt_list (sections_found result));
           (lit "char_count", PInt (char_count result));
           (lit "word_count", PInt (word_count result)) ],
       log)
  end.

(** ** Vocabulary *)

(** The text a message is filled with. *)
Definition filling (m : message) : str :=
  match m with
  | RequestsFailed e | SeleniumFailed e | ExceptionText e => e
  | StoppedAt title | Extracted title _ => title
  | Fetching pmcid => pmcid
  end.

(** The prints of the loop of strategy 1 over [sections], in order: one
    for each section that is kept and has a title, then one for the
    first excluded section. *)
Definition method1_prints (sections : list node) : list message :=
  map (fun s => Extracted (firstn 40 (section_title s)) (len (section_text s)))
    (filter (fun s => substantial s && truthy (section_title s))
       (before_first excluded_section sections)) ++
  match List.find excluded_section sections with
  | Some s => [StoppedAt (section_title s)]
  | None => []
  end.

(** The print of the loop of strategy 2 over [headings]: the text of
    the first excluded heading. *)
Definition method2_prints (headings : list heading_view) : list message :=
  match List.find excluded_heading headings with
  | Some h => [StoppedAt (heading_text h)]
  | None => []
  end.

(** ** Example consoles *)

(** A console that rejects a message filled with a text that holds the
    closing tag [/]: the template has one open tag, which this tag
    closes, and nothing is left for the closing tag of the template.
    The text of the error is abridged: Rich also names the position. *)
Definition closing_tag : str := lit "[/]".

Definition strict : console :=
  {| console_print := fun m =>
       if contains closing_tag (filling m)
       then Some (lit "closing tag '[/]' has nothing to close")
       else None;
     markup_format_exc := fun _ => lit "Traceback (most recent call last):" |}.

(** An availability statement whose heading ends in a closing tag,
    before the abstract. *)
Definition tagged_heading : list heading_view :=
  [ (Examples.elem "h2" [Text (lit "Data Availability [/]")],
     [Examples.elem "p" [Text (lit "On request.")]]);
    (Examples.elem "h2" [Text (lit "Abstract")],
     [Examples.elem "p" [Text (lit "We study risk.")]]) ].

End Console.

(* ================================================================== *)
(** * Properties *)

(* ------------------------------------------------------------------ *)
(** ** Strings: [split], [join] and slices *)

Lemma rev_not_nil {A : Type} (x : A) (l : list A) : rev (x :: l) <> [].
Proof.
  intro E. apply (f_equal (@length _)) in E.
  rewrite length_rev in E. discriminate.
Qed.

Lemma split_from_word (x cur rest : str) :
  no_space x ->
  split_from cur (x ++ rest) = split_from (rev x ++ cur) rest.
Proof.
  revert cur. induction x as [|c x IH]; intros cur H; simpl.
  - reflexivity.
  - inversion H as [|? ? Hc Hx]; subst. rewrite Hc.
    rewrite IH by assumption. now rewrite <- app_assoc.
Qed.

Lemma split_from_words (t cur : str) :
  no_space cur -> Forall is_a_word (split_from cur t).
Proof.
  revert cur. induction t as [|c t IH]; intros cur Hcur; simpl.
  - destruct cur as [|x cur]; constructor; [|constructor].
    split; [apply rev_not_nil | now apply Forall_rev].
  - destruct (is_space c) eqn:Hc.
    + destruct cur as [|x cur].
      * now apply IH.
      * constructor; [|apply IH; constructor].
        split; [apply rev_not_nil | now apply Forall_rev].
    + apply IH. now constructor.
Qed.

Lemma split_words (t : str) : Forall is_a_word (split t).
Proof. apply split_from_words. constructor. Qed.

Lemma is_space_space : is_space " " = true.
Proof. reflexivity. Qed.

(** Splitting what [' '.join] built from words gives the words back. *)
Lemma split_join (ws : list str) :
  Forall is_a_word ws -> split (join (lit " ") ws) = ws.
Proof.
  unfold split. induction ws as [|x ws IH]; intros H.
  - reflexivity.
  - inversion H as [|? ? [Hne Hx] Hws]; subst.
    destruct ws as [|y ws].
    + simpl. rewrite <- (app_nil_r x) at 1.
      rewrite split_from_word by assumption. simpl. rewrite app_nil_r.
      destruct (rev x) eqn:E.
      * apply (f_equal (@rev _)) in E. rewrite rev_involutive in E.
        now subst.
      * now rewrite <- E, rev_involutive.
    + change (join (lit " ") (x :: y :: ws))
        with (x ++ " "%char :: join (lit " ") (y :: ws)).
      rewrite split_from_word by assumption. rewrite app_nil_r.
      cbn [split_from]. rewrite is_space_space.
      destruct (rev x) eqn:E.
      * apply (f_equal (@rev _)) in E. rewrite rev_involutive in E.
        now subst.
      * rewrite <- E, rev_involutive. f_equal. now apply IH.
Qed.

Lemma Forall_firstn {A : Type} (P : A -> Prop) (n : nat) (l : list A) :
  Forall P l -> Forall P (firstn n l).
Proof.
  intro H. rewrite <- (firstn_skipn n l) in H.
  now apply Forall_app in H.
Qed.

Lemma Forall_skipn {A : Type} (P : A -> Prop) (n : nat) (l : list A) :
  Forall P l -> Forall P (skipn n l).
Proof.
  intro H. rewrite <- (firstn_skipn n l) in H.
  now apply Forall_app in H.
Qed.

Lemma slice_forall {A : Type} (P : A -> Prop) (l : list A) (lo hi : Z) :
  Forall P l -> Forall P (slice l lo hi).
Proof.
  intro H. unfold slice. apply Forall_firstn. now apply Forall_skipn.
Qed.

(** An element of a slice taken between two offsets inside the list. *)
Lemma slice_nth {A : Type} (l : list A) (lo hi : Z) (i : nat) :
  (0 <= lo <= Z.of_nat i)%Z -> (Z.of_nat i < hi)%Z ->
  (hi <= Z.of_nat (length l))%Z ->
  nth_error (slice l lo hi) (i - Z.to_nat lo) = nth_error l i.
Proof.
  intros Hlo Hi Hhi. unfold slice, slice_index.
  assert (E1 : (lo <? 0)%Z = false) by (apply Z.ltb_ge; lia).
  assert (E2 : (hi <? 0)%Z = false) by (apply Z.ltb_ge; lia).
  rewrite E1, E2.
  rewrite !Z.min_l by lia.
  rewrite nth_error_firstn.
  destruct (Nat.ltb_spec (i - Z.to_nat lo) (Z.to_nat hi - Z.to_nat lo)) as [_|C];
    [|lia].
  rewrite nth_error_skipn. f_equal. lia.
Qed.

(* ------------------------------------------------------------------ *)
(** ** The chunker: termination and coverage *)

Section ChunkLoop.

Variable words : list str.
Variables chunk_size_words overlap_words : Z.

Let n : Z := Z.of_nat (length words).
Let stride : Z := (chunk_size_words - overlap_words)%Z.
Let loop (fuel : nat) (start : Z) : option (list str) :=
  chunk_loop fuel words chunk_size_words overlap_words start.

Let window (a : Z) : str := window words chunk_size_words a.

(** Each iteration breaks with the window at the last word, or moves
    [start] by the stride. *)
Lemma chunk_step_cases (start : Z) :
  chunk_step words chunk_size_words overlap_words start =
    (window start,
     if (Z.min (start + chunk_size_words) n =? n)%Z then None
     else Some (start + stride)%Z).
Proof. reflexivity. Qed.

(** With a positive stride the loop returns as soon as the fuel exceeds
    the number of words left. *)
Lemma chunk_loop_enough (fuel : nat) (start : Z) :
  (overlap_words < chunk_size_words)%Z ->
  (n - start < Z.of_nat fuel)%Z ->
  exists chunks, loop fuel start = Some chunks.
Proof.
  intros Hpos. revert start.
  induction fuel as [|fuel IH]; intros start Hfuel; unfold loop; simpl.
  - destruct (Z.ltb_spec start (Z.of_nat (length words))); [|eauto].
    unfold n in *; lia.
  - destruct (Z.ltb_spec start (Z.of_nat (length words))); [|eauto].
    destruct (_ =? _)%Z; [eauto|].
    destruct (IH (start + (chunk_size_words - overlap_words))%Z) as [c Hc].
    + unfold n in *; lia.
    + unfold loop in Hc. rewrite Hc. simpl. eauto.
Qed.

(** More fuel does not change a result. *)
Lemma chunk_loop_more (fuel fuel' : nat) (start : Z) (chunks : list str) :
  fuel <= fuel' ->
  loop fuel start = Some chunks -> loop fuel' start = Some chunks.
Proof.
  revert fuel' start chunks.
  induction fuel as [|fuel IH]; intros fuel' start chunks Hle; unfold loop.
  - destruct fuel'; simpl;
      destruct (Z.ltb_spec start (Z.of_nat (length words)));
      try discriminate; auto.
  - destruct fuel' as [|fuel']; [lia|]. simpl.
    destruct (Z.ltb_spec start (Z.of_nat (length words))); [|auto].
    destruct (_ =? _)%Z; [auto|].
    destruct (chunk_loop fuel _ _ _ _) as [c|] eqn:E; [|discriminate].
    intro Hs. apply (IH fuel') in E; [|lia].
    unfold loop in E. now rewrite E.
Qed.

(** Without a positive stride, a loop that does not break in its first
    iteration runs forever: no fuel is enough. *)
Lemma chunk_loop_stuck (fuel : nat) (start : Z) :
  (chunk_size_words <= overlap_words)%Z ->
  (start < n)%Z -> (start + chunk_size_words < n)%Z ->
  loop fuel start = None.
Proof.
  intros Hneg. revert start.
  induction fuel as [|fuel IH]; intros start H1 H2; unfold loop; simpl.
  - destruct (Z.ltb_spec start (Z.of_nat (length words))); [auto|].
    unfold n in *; lia.
  - destruct (Z.ltb_spec start (Z.of_nat (length words))); [|unfold n in *; lia].
    destruct (Z.eqb_spec
                (Z.min (start + chunk_size_words) (Z.of_nat (length words)))
                (Z.of_nat (length words))); [unfold n in *; lia|].
    fold (loop fuel (start + (chunk_size_words - overlap_words))).
    rewrite IH; [reflexivity| |]; lia.
Qed.

(** Every word offset from [start] on lies in the window of some
    iteration, and that window is the chunk the iteration appended. *)
Lemma chunk_loop_cover (fuel : nat) (start : Z) (chunks : list str) :
  (0 <= overlap_words < chunk_size_words)%Z ->
  loop fuel start = Some chunks ->
  forall i : Z, (start <= i < n)%Z ->
  exists j : nat,
    let a := (start + Z.of_nat j * stride)%Z in
    nth_error chunks j = Some (window a) /\
    (a <= i < Z.min (a + chunk_size_words) n)%Z.
Proof.
  intros Hpos. revert start chunks.
  induction fuel as [|fuel IH]; intros start chunks; unfold loop; simpl.
  - destruct (Z.ltb_spec start (Z.of_nat (length words)));
      [discriminate|]. intros _ i Hi. unfold n in *; lia.
  - destruct (Z.ltb_spec start (Z.of_nat (length words)));
      [|intros _ i Hi; unfold n in *; lia].
    destruct (Z.eqb_spec
                (Z.min (start + chunk_size_words) (Z.of_nat (length words)))
                (Z.of_nat (length words))) as [Hend|Hend].
    + intros [= <-] i Hi. exists 0%nat. cbn zeta.
      rewrite Z.mul_0_l, Z.add_0_r. split; [reflexivity|].
      fold n in Hend. lia.
    + destruct (chunk_loop fuel _ _ _ _) as [rest|] eqn:E; [|discriminate].
      intros [= <-] i Hi.
      destruct (Z.lt_ge_cases i (start + chunk_size_words)) as [Hin|Hout].
      * exists 0%nat. cbn zeta.
        rewrite Z.mul_0_l, Z.add_0_r. split; [reflexivity|]. lia.
      * destruct (IH _ _ E i) as [j [Hj Hrange]]; [lia|].
        exists (S j). cbn zeta in *.
        replace (start + Z.of_nat (S j) * stride)%Z
          with (start + (chunk_size_words - overlap_words)
                + Z.of_nat j * stride)%Z by (unfold stride; lia).
        split; assumption.
Qed.

End ChunkLoop.

(** A positive stride makes [chunk_text_v2] return, whatever the text. *)
Lemma chunk_text_v2_returns (text : str) (chunk_size_words overlap_words : Z) :
  (overlap_words < chunk_size_words)%Z ->
  exists chunks,
    chunk_text_v2 text chunk_size_words overlap_words = Some chunks.
Proof.
  intro H. unfold chunk_text_v2, chunk_text_v2_fuel.
  destruct (_ <=? _)%Z; [eauto|].
  apply chunk_loop_enough; [assumption|]. lia.
Qed.

(** The fuel of [chunk_text_v2] loses nothing: a call that returns with
    some amount of fuel returns the same chunks with that of the model. *)
Lemma chunk_text_v2_fuel_exact (fuel : nat) (text : str)
  (chunk_size_words overlap_words : Z) (chunks : list str) :
  chunk_text_v2_fuel fuel text chunk_size_words overlap_words = Some chunks ->
  chunk_text_v2 text chunk_size_words overlap_words = Some chunks.
Proof.
  unfold chunk_text_v2, chunk_text_v2_fuel.
  destruct (Z.leb_spec (Z.of_nat (length (split text))) chunk_size_words)
    as [|Hlong]; [auto|].
  intro H.
  destruct (Z.lt_ge_cases overlap_words chunk_size_words) as [Hpos|Hneg].
  - destruct (chunk_loop_enough (split text) (S (length (split text))) 0 Hpos)
      as [c Hc]; [lia|].
    destruct (Nat.le_ge_cases fuel (S (length (split text)))) as [Hle|Hle].
    + eapply chunk_loop_more; eassumption.
    + assert (Hc' := Hc).
      eapply chunk_loop_more in Hc'; [|eassumption]. congruence.
  - destruct (split text) as [|x ws] eqn:Hw.
    + destruct fuel; simpl in *; assumption.
    + rewrite chunk_loop_stuck in H; [discriminate|simpl length in *; lia..].
Qed.

(** C9.  [chunk_text_v2] terminates for every text whenever
    [chunk_size_words] is strictly greater than [overlap_words]: the call
    returns a list of chunks, and every larger amount of fuel gives the
    same list.  Each pass through the loop body either breaks with the
    window ending at the last word, or increases [start] by
    [chunk_size_words - overlap_words], a strict increase.  The function
    keeps no state: any two runs that return, return the same chunks. *)
Theorem C9_chunk_text_v2_terminates
  (text : str) (chunk_size_words overlap_words : Z) :
  (overlap_words < chunk_size_words)%Z ->
  (exists chunks,
     chunk_text_v2 text chunk_size_words overlap_words = Some chunks /\
     forall fuel, S (length (split text)) <= fuel ->
       chunk_text_v2_fuel fuel text chunk_size_words overlap_words
       = Some chunks) /\
  (forall start : Z,
     let n := Z.of_nat (length (split text)) in
     let end_ := Z.min (start + chunk_size_words) n in
     let next :=
       snd (chunk_step (split text) chunk_size_words overlap_words start) in
     (end_ = n /\ next = None) \/
     (end_ <> n /\
      next = Some (start + (chunk_size_words - overlap_words))%Z /\
      (start < start + (chunk_size_words - overlap_words))%Z)) /\
  (forall fuel1 fuel2 chunks1 chunks2,
     chunk_text_v2_fuel fuel1 text chunk_size_words overlap_words
     = Some chunks1 ->
     chunk_text_v2_fuel fuel2 text chunk_size_words overlap_words
     = Some chunks2 ->
     chunks1 = chunks2).
Proof.
  intro Hpos. split; [|split].
  - destruct (chunk_text_v2_returns text Hpos) as [chunks Hc].
    exists chunks. split; [assumption|].
    intros fuel Hfuel. revert Hc.
    unfold chunk_text_v2, chunk_text_v2_fuel.
    destruct (_ <=? _)%Z; [auto|].
    intro Hc. eapply chunk_loop_more; eassumption.
  - intros start n end_ next. subst next.
    rewrite chunk_step_cases. cbn [snd]. fold n. fold end_.
    destruct (Z.eqb_spec end_ n) as [E|E]; [left|right]; repeat split;
      auto; lia.
  - intros fuel1 fuel2 chunks1 chunks2 H1 H2.
    apply chunk_text_v2_fuel_exact in H1, H2. congruence.
Qed.

Lemma C9_chunk_text_v2_terminates_witness :
  (1 < 2)%Z /\
  exists chunks, chunk_text_v2 (lit "a b c d e") 2 1 = Some chunks.
Proof.
  split; [reflexivity|].
  destruct (@C9_chunk_text_v2_terminates (lit "a b c d e") 2 1 eq_refl)
    as [[chunks [H _]] _].
  exists chunks. exact H.
Defined.

(** C8.  A text of at most 4000 words gives exactly one chunk, the text
    itself, unchanged.  A longer text gives chunks whose windows start at
    the word offsets 0, 3000, 6000, ...; every word of the text lies in
    the window of some chunk, and splitting that chunk gives the word
    back at its place in the window. *)
Theorem C8_chunk_coverage (text : str) :
  let words := split text in
  (length words <= 4000 -> chunk_text_v2 text 4000 1000 = Some [text]) /\
  (4000 < length words ->
   exists chunks,
     chunk_text_v2 text 4000 1000 = Some chunks /\
     forall (i : nat) (x : str), nth_error words i = Some x ->
       exists (j : nat) (c : str),
         nth_error chunks j = Some c /\
         3000 * j <= i < 3000 * j + 4000 /\
         c = join (lit " ")
               (slice words (3000 * Z.of_nat j)
                  (Z.min (3000 * Z.of_nat j + 4000)
                     (Z.of_nat (length words)))) /\
         nth_error (split c) (i - 3000 * j) = Some x).
Proof.
  intro words. split.
  - intro Hshort. unfold chunk_text_v2, chunk_text_v2_fuel. fold words.
    destruct (Z.leb_spec (Z.of_nat (length words)) 4000); [reflexivity|lia].
  - intro Hlong.
    destruct (@chunk_text_v2_returns text 4000 1000 eq_refl) as [chunks Hc].
    exists chunks. split; [assumption|].
    intros i x Hx.
    assert (Hi : i < length words)
      by (apply nth_error_Some; congruence).
    revert Hc. unfold chunk_text_v2, chunk_text_v2_fuel. fold words.
    destruct (Z.leb_spec (Z.of_nat (length words)) 4000); [lia|].
    intro Hc.
    destruct (@chunk_loop_cover words 4000 1000 _ 0%Z chunks
                ltac:(lia) Hc (Z.of_nat i))
      as [j [Hj Hrange]]; [lia|].
    cbn zeta in *. unfold window in Hj.
    replace (0 + Z.of_nat j * (4000 - 1000))%Z with (3000 * Z.of_nat j)%Z
      in * by lia.
    eexists j, _. split; [exact Hj|]. split; [lia|]. split; [reflexivity|].
    rewrite split_join
      by (apply slice_forall, split_words).
    replace (3000 * j) with (Z.to_nat (3000 * Z.of_nat j)) by lia.
    rewrite slice_nth; [assumption|lia..].
Qed.

(** A text of five words and a text of 4001 words. *)
Lemma C8_chunk_coverage_witness :
  (length (split (lit "to be or not to")) <= 4000 /\
   chunk_text_v2 (lit "to be or not to") 4000 1000
   = Some [lit "to be or not to"]) /\
  (4000 < length (split (concat (repeat (lit "ab ") 4001))) /\
   exists chunks,
     chunk_text_v2 (concat (repeat (lit "ab ") 4001)) 4000 1000
     = Some chunks).
Proof.
  split.
  - split; [vm_compute; lia|].
    apply (C8_chunk_coverage (lit "to be or not to")). vm_compute. lia.
  - assert (H : 4000 < length (split (concat (repeat (lit "ab ") 4001))))
      by (vm_compute; lia).
    split; [exact H|].
    destruct (C8_chunk_coverage (concat (repeat (lit "ab ") 4001)))
      as [_ Hlong].
    destruct (Hlong H) as [chunks [Hc _]]. exists chunks. exact Hc.
Defined.

(* ------------------------------------------------------------------ *)
(** ** The result of [extract_full_text] *)

Lemma chunk_loop_not_nil (fuel : nat) (words : list str)
  (chunk_size_words overlap_words start : Z) (chunks : list str) :
  (start < Z.of_nat (length words))%Z ->
  chunk_loop fuel words chunk_size_words overlap_words start = Some chunks ->
  chunks <> [].
Proof.
  intro Hlt. destruct fuel as [|fuel]; simpl;
    destruct (Z.ltb_spec start (Z.of_nat (length words))); try lia;
    [discriminate|].
  destruct (_ =? _)%Z; [intros [= <-]; discriminate|].
  destruct (chunk_loop fuel _ _ _ _); [|discriminate].
  intros [= <-]. discriminate.
Qed.

(** With the default window and overlap the chunker returns at least
    one chunk, and exactly the text itself when the text is empty. *)
Lemma chunk_text_v2_default_not_nil (text : str) :
  chunk_text_v2_default text <> [].
Proof.
  unfold chunk_text_v2_default.
  destruct (@chunk_text_v2_returns text 4000 1000 eq_refl) as [chunks Hc].
  rewrite Hc. revert Hc. unfold chunk_text_v2, chunk_text_v2_fuel.
  destruct (Z.leb_spec (Z.of_nat (length (split text))) 4000).
  - intros [= <-]. discriminate.
  - apply chunk_loop_not_nil. lia.
Qed.

Lemma passes_some (n : Z) (o : option str) (t : str) :
  passes n o = Some t -> o = Some t /\ t <> [] /\ (n < len t)%Z.
Proof.
  destruct o as [x|]; simpl; [|discriminate].
  destruct x as [|c x]; simpl; [discriminate|].
  destruct (Z.gtb_spec (len (c :: x)) n); [|discriminate].
  intros [= <-]. repeat split; [discriminate|lia].
Qed.

Lemma extract_from_html_end (w : world) (id html : str) :
  chain_end w id html (fst (extract_from_html w id html))
    (snd (extract_from_html w id html)).
Proof.
  unfold extract_from_html.
  destruct (extract_method1_main_body _) as [t1 s1] eqn:E1.
  destruct (passes 1000 t1) as [x1|] eqn:P1.
  { pose proof (@end_method1 w id html x1) as H.
    rewrite E1 in H. now apply H. }
  destruct (extract_method2_heading _) as [t2 s2] eqn:E2.
  destruct (passes 1000 t2) as [x2|] eqn:P2.
  { pose proof (@end_method2 w id html x2) as H.
    rewrite E1, E2 in H. now apply H. }
  destruct (extract_method3_fallback _) as [t3 s3] eqn:E3.
  destruct (passes 500 t3) as [x3|] eqn:P3.
  { pose proof (@end_method3 w id html x3) as H.
    rewrite E1, E2, E3 in H. now apply H. }
  pose proof (@end_failed w id html) as H.
  rewrite E1, E2, E3 in H. now apply H.
Qed.

Lemma extract_full_text_end (w : world) (use_selenium : bool) (pmcid : str) :
  run_end w use_selenium pmcid
    (fst (extract_full_text w use_selenium pmcid))
    (snd (extract_full_text w use_selenium pmcid)).
Proof.
  unfold extract_full_text.
  destruct pmcid as [|c p]; [now constructor|].
  cbn [truthy negb].
  assert (Hne : c :: p <> []) by discriminate.
  revert Hne. generalize (c :: p). clear c p. intros pmcid Hne.
  destruct (fetch_html _ _ _) as [[[html error]|e] log] eqn:F.
  - destruct html as [[|h html]|].
    + constructor; eauto.
    + pose proof (extract_from_html_end w (normalize_pmcid pmcid) (h :: html)) as H.
      destruct (extract_from_html _ _ _) as [r log'].
      cbn [fst snd] in *.
      apply (@end_chain w use_selenium pmcid (h :: html) error log r log');
        [assumption | discriminate | exact F | exact H].
    + constructor; eauto.
  - constructor; eauto.
Qed.

Lemma extracted_fields (id : str) (st : ExtractionStatus) (m : string)
  (text : str) (sections : list str) :
  let r := extracted id st m text sections in
  pmcid r = id /\ status r = st /\
  full_text r = Some (clean_text_v2 text) /\
  full_text_chunks r = Some (chunk_text_v2_default (clean_text_v2 text)) /\
  error_message r = None /\ method_used r = Some (lit m).
Proof. repeat split. Qed.

(** C1, as amended.  When [extract_full_text] returns SUCCESS, the page
    was fetched and strategy 1 or strategy 2 produced a candidate text of
    more than 1000 characters, and [full_text] is that candidate after
    normalization; when it returns PARTIAL, strategies 1 and 2 did not
    pass their gate, strategy 3 produced a candidate of more than 500
    characters, and [full_text] is that candidate after normalization.
    The gate is on the candidate, not on [full_text]. *)
Theorem C1_gate_on_candidate (w : world) (use_selenium : bool) (pmcid : str) :
  let r := fst (extract_full_text w use_selenium pmcid) in
  (status r = SUCCESS ->
   exists html error text,
     fst (fetch_html w use_selenium (normalize_pmcid pmcid))
     = Return (Some html, error) /\
     (fst (extract_method1_main_body (html_parser w html)) = Some text \/
      fst (extract_method2_heading (html_parser w html)) = Some text) /\
     (1000 < len text)%Z /\
     full_text r = Some (clean_text_v2 text) /\
     char_count r = len (clean_text_v2 text)) /\
  (status r = PARTIAL ->
   exists html error text,
     fst (fetch_html w use_selenium (normalize_pmcid pmcid))
     = Return (Some html, error) /\
     passes 1000 (fst (extract_method1_main_body (html_parser w html))) = None /\
     passes 1000 (fst (extract_method2_heading (html_parser w html))) = None /\
     fst (extract_method3_fallback (html_parser w html)) = Some text /\
     (500 < len text)%Z /\
     full_text r = Some (clean_text_v2 text) /\
     char_count r = len (clean_text_v2 text)).
Proof.
  intro r. subst r.
  destruct (extract_full_text_end w use_selenium pmcid)
    as [ | | html error log r log' Hne Hhtml Hfetch Hchain];
    try (split; discriminate).
  destruct Hchain as [text P1 | text P1 P2 | text P1 P2 P3 | P1 P2 P3];
    (split; [intro Hs | intro Hs]); try discriminate;
    exists html, error, text; rewrite Hfetch; cbn [fst].
  - apply passes_some in P1. destruct P1 as (E & _ & Hlen). auto 10.
  - apply passes_some in P2. destruct P2 as (E & _ & Hlen). auto 10.
  - apply passes_some in P3. destruct P3 as (E & _ & Hlen). auto 10.
Qed.

(** The page of [Examples.spaced_page] passes the gate of strategy 1 and
    is normalized to eleven characters. *)
Lemma C1_gate_on_candidate_witness :
  let r := fst (extract_full_text (Examples.serving Examples.spaced_page)
                  false (lit "PMC1234567")) in
  status r = SUCCESS /\
  exists html error text,
    fst (fetch_html (Examples.serving Examples.spaced_page) false
           (normalize_pmcid (lit "PMC1234567")))
    = Return (Some html, error) /\
    (fst (extract_method1_main_body
            (html_parser (Examples.serving Examples.spaced_page) html))
     = Some text \/
     fst (extract_method2_heading
            (html_parser (Examples.serving Examples.spaced_page) html))
     = Some text) /\
    (1000 < len text)%Z /\
    full_text r = Some (clean_text_v2 text) /\
    char_count r = len (clean_text_v2 text).
Proof.
  assert (Hs : status (fst (extract_full_text
                  (Examples.serving Examples.spaced_page) false
                  (lit "PMC1234567"))) = SUCCESS)
    by (vm_compute; reflexivity).
  split; [exact Hs|].
  exact (proj1 (C1_gate_on_candidate (Examples.serving Examples.spaced_page)
                  false (lit "PMC1234567")) Hs).
Defined.

(** C1 as stated fails: the page of [Examples.spaced_page] is reported
    SUCCESS with a [full_text] of eleven characters. *)
Lemma C1_counterexample :
  let r := fst (extract_full_text (Examples.serving Examples.spaced_page)
                  false (lit "PMC1234567")) in
  ~ (status r = SUCCESS ->
     exists t, full_text r = Some t /\ (1000 < len t)%Z).
Proof.
  intros r H.
  assert (Hs : status r = SUCCESS) by (vm_compute; reflexivity).
  assert (Ht : full_text r = Some (lit "Results a b"))
    by (vm_compute; reflexivity).
  destruct (H Hs) as [t [E Hlen]].
  rewrite Ht in E. injection E as <-. vm_compute in Hlen. discriminate.
Qed.

(** C2, as amended.  The result of [extract_full_text] has a non-empty
    sequence of chunks if and only if [full_text] is present, empty or
    not; the chunks are those of [full_text], and when [full_text] is
    the empty string they are the single empty chunk. *)
Theorem C2_chunks_iff_text_present
  (w : world) (use_selenium : bool) (pmcid : str) :
  let r := fst (extract_full_text w use_selenium pmcid) in
  ((exists c cs, full_text_chunks r = Some (c :: cs)) <->
   (exists t, full_text r = Some t)) /\
  (forall t, full_text r = Some t ->
     full_text_chunks r = Some (chunk_text_v2_default t)) /\
  (full_text r = Some [] -> full_text_chunks r = Some [[]]).
Proof.
  intro r. subst r.
  assert (G : forall r : ExtractionResult,
             (forall t, full_text r = Some t ->
                full_text_chunks r = Some (chunk_text_v2_default t)) ->
             (full_text r = None -> full_text_chunks r = None) ->
             ((exists c cs, full_text_chunks r = Some (c :: cs)) <->
              (exists t, full_text r = Some t)) /\
             (forall t, full_text r = Some t ->
                full_text_chunks r = Some (chunk_text_v2_default t)) /\
             (full_text r = Some [] -> full_text_chunks r = Some [[]])).
  { intros r Hsome Hnone. split; [split|split].
    - intros (c & cs & Hc). destruct (full_text r) as [t|]; [eauto|].
      rewrite Hnone in Hc by reflexivity. discriminate.
    - intros (t & Ht). rewrite (Hsome _ Ht).
      pose proof (chunk_text_v2_default_not_nil t) as Hn.
      destruct (chunk_text_v2_default t) as [|c cs]; [contradiction|eauto].
    - assumption.
    - intro Ht. now rewrite (Hsome _ Ht). }
  apply G.
  - destruct (extract_full_text_end w use_selenium pmcid)
      as [ | | html error log r log' Hne Hhtml Hfetch Hchain];
      try discriminate.
    destruct Hchain; cbn; intros t [= <-]; try reflexivity.
  - destruct (extract_full_text_end w use_selenium pmcid)
      as [ | | html error log r log' Hne Hhtml Hfetch Hchain];
      try reflexivity.
    destruct Hchain; cbn; try discriminate; reflexivity.
Qed.

(** The page of [Examples.orcid_page]: the text is present and empty,
    and there is one chunk. *)
Lemma C2_chunks_iff_text_present_witness :
  let r := fst (extract_full_text (Examples.serving Examples.orcid_page)
                  false (lit "PMC1234567")) in
  full_text r = Some [] /\ full_text_chunks r = Some [[]].
Proof.
  assert (Ht : full_text (fst (extract_full_text
                  (Examples.serving Examples.orcid_page) false
                  (lit "PMC1234567"))) = Some [])
    by (vm_compute; reflexivity).
  split; [exact Ht|].
  exact (proj2 (proj2 (C2_chunks_iff_text_present
                         (Examples.serving Examples.orcid_page)
                         false (lit "PMC1234567"))) Ht).
Defined.

(** C2 as stated fails: on the page of [Examples.orcid_page] the chunks
    are not empty although [full_text] is the empty string. *)
Lemma C2_counterexample :
  let r := fst (extract_full_text (Examples.serving Examples.orcid_page)
                  false (lit "PMC1234567")) in
  ~ ((exists c cs, full_text_chunks r = Some (c :: cs)) <->
     (exists c t, full_text r = Some (c :: t))).
Proof.
  intros r [H _].
  assert (Hc : full_text_chunks r = Some [[]]) by (vm_compute; reflexivity).
  assert (Ht : full_text r = Some []) by (vm_compute; reflexivity).
  destruct H as (c & t & E); [eauto|].
  rewrite Ht in E. discriminate.
Qed.

(* ------------------------------------------------------------------ *)
(** ** Fetch failures and the identifier *)

Lemma fetch_html_log (w : world) (use_selenium : bool) (id : str) :
  exists rest,
    snd (fetch_html w use_selenium id) = CallRequests (article_url id) :: rest.
Proof.
  unfold fetch_html, fetch_selenium.
  destruct (requests_get w _) as [text| |code|m|m];
    repeat match goal with
      | |- context [if ?b then _ else _] => destruct b
      | |- context [match selenium_get ?w ?u with _ => _ end] =>
          destruct (selenium_get w u)
      end; cbn; eauto.
Qed.

Lemma lstrip_spaces (t : str) :
  Forall (fun c => is_space c = true) t -> lstrip t = [].
Proof.
  induction 1 as [|c t Hc _ IH]; simpl; [reflexivity|]. now rewrite Hc.
Qed.

Lemma strip_spaces (t : str) :
  Forall (fun c => is_space c = true) t -> strip t = [].
Proof.
  intro H. unfold strip. now rewrite lstrip_spaces.
Qed.

Lemma chain_end_status (w : world) (id html : str)
  (r : ExtractionResult) (log : list event) :
  chain_end w id html r log -> pmcid r = id /\ status r <> NO_PMCID.
Proof. destruct 1; split; cbn; congruence. Qed.

(** C10.  [extract_full_text] returns NO_PMCID exactly when the
    identifier is the empty string, and then calls nothing.  An
    identifier made of white space only is not empty: it is trimmed to
    the empty string, which becomes the bare identifier "PMC", and the
    page of that identifier is requested. *)
Theorem C10_no_pmcid_iff_empty
  (w : world) (use_selenium : bool) (input : str) :
  let r := fst (extract_full_text w use_selenium input) in
  let log := snd (extract_full_text w use_selenium input) in
  (status r = NO_PMCID <-> input = []) /\
  (input = [] -> log = []) /\
  (input <> [] -> Forall (fun c => is_space c = true) input ->
   strip input = [] /\
   normalize_pmcid input = lit "PMC" /\
   pmcid r = lit "PMC" /\
   status r <> NO_PMCID /\
   exists rest, log = CallRequests (article_url (lit "PMC")) :: rest).
Proof.
  intros r log. subst r log.
  assert (N : Forall (fun c => is_space c = true) input ->
              normalize_pmcid input = lit "PMC").
  { intro H. unfold normalize_pmcid. now rewrite strip_spaces. }
  destruct (extract_full_text_end w use_selenium input)
    as [E | message log Hne [x Hfetch]
        | html error log r log' Hne Hhtml Hfetch Hchain].
  - subst input. repeat split; auto; try contradiction.
  - split; [split; [discriminate|contradiction]|].
    split; [contradiction|]. intros _ Hsp.
    rewrite (N Hsp) in *. repeat split; auto using strip_spaces.
    + discriminate.
    + destruct (fetch_html_log w use_selenium (lit "PMC")) as [rest Hrest].
      rewrite Hfetch in Hrest. eauto.
  - destruct (chain_end_status Hchain) as [Hid Hst].
    split; [split; [contradiction|contradiction]|].
    split; [contradiction|]. intros _ Hsp.
    rewrite (N Hsp) in *. repeat split; auto using strip_spaces.
    destruct (fetch_html_log w use_selenium (lit "PMC")) as [rest Hrest].
    rewrite Hfetch in Hrest. cbn [snd] in Hrest. subst log.
    cbn [app]. eauto.
Qed.

(** An identifier of three spaces. *)
Lemma C10_no_pmcid_iff_empty_witness :
  lit "   " <> [] /\
  Forall (fun c => is_space c = true) (lit "   ") /\
  pmcid (fst (extract_full_text Examples.missing false (lit "   ")))
  = lit "PMC" /\
  status (fst (extract_full_text Examples.missing false (lit "   ")))
  <> NO_PMCID.
Proof.
  assert (Hne : lit "   " <> []) by discriminate.
  assert (Hsp : Forall (fun c => is_space c = true) (lit "   "))
    by (repeat constructor).
  split; [exact Hne|]. split; [exact Hsp|].
  destruct (C10_no_pmcid_iff_empty Examples.missing false (lit "   "))
    as (_ & _ & H).
  destruct (H Hne Hsp) as (_ & _ & Hid & Hst & _).
  split; [exact Hid|exact Hst].
Defined.

(* ------------------------------------------------------------------ *)
(** ** Strategy 2: where collection starts and stops *)

Lemma from_first_all_false {A : Type} (p : A -> bool) (l : list A) :
  (forall x, In x l -> p x = false) -> from_first p l = [].
Proof.
  induction l as [|x l IH]; intro H; simpl; [reflexivity|].
  rewrite (H x) by now left. apply IH. intros y Hy. apply H. now right.
Qed.

(** One pass through the body of the loop of strategy 2. *)
Lemma method2_loop_cons (h : heading_view) (hs : list heading_view)
  (start_found : bool) (cp sf : list str) :
  method2_loop (h :: hs) start_found cp sf =
    if excluded_heading h then (cp, sf)
    else if main_heading h || start_found
         then method2_loop hs true (cp ++ heading_part h)
                (sf ++ [heading_text h])
         else method2_loop hs false cp sf.
Proof.
  destruct h as [h sib].
  unfold excluded_heading, main_heading, heading_part, heading_text.
  cbn [method2_loop fst snd].
  destruct (is_exclude_section _); [reflexivity|].
  destruct (is_main_content_section _), start_found; cbn [orb];
    try reflexivity;
    destruct (sibling_content sib); now rewrite ?app_nil_r.
Qed.

(** The loop once collection has started: every heading before the
    first excluded one is collected. *)
Lemma method2_loop_started (hs : list heading_view) (cp sf : list str) :
  method2_loop hs true cp sf =
    (cp ++ flat_map heading_part (before_first excluded_heading hs),
     sf ++ map heading_text (before_first excluded_heading hs)).
Proof.
  revert cp sf. induction hs as [|h hs IH]; intros cp sf.
  - simpl. now rewrite !app_nil_r.
  - rewrite method2_loop_cons. cbn [before_first].
    destruct (excluded_heading h).
    + simpl. now rewrite !app_nil_r.
    + rewrite orb_true_r, IH. cbn [flat_map map].
      now rewrite <- !app_assoc.
Qed.

(** The loop before collection has started. *)
Lemma method2_loop_waiting (hs : list heading_view) (cp sf : list str) :
  method2_loop hs false cp sf =
    (cp ++ flat_map heading_part
             (from_first main_heading (before_first excluded_heading hs)),
     sf ++ map heading_text
             (from_first main_heading (before_first excluded_heading hs))).
Proof.
  revert cp sf. induction hs as [|h hs IH]; intros cp sf.
  - simpl. now rewrite !app_nil_r.
  - rewrite method2_loop_cons. cbn [before_first].
    destruct (excluded_heading h).
    + simpl. now rewrite !app_nil_r.
    + cbn [from_first]. rewrite orb_false_r.
      destruct (main_heading h).
      * rewrite method2_loop_started. cbn [flat_map map].
        now rewrite <- !app_assoc.
      * apply IH.
Qed.

Lemma before_first_excluded_early
  (pre post : list heading_view) (e : heading_view) :
  excluded_heading e = true ->
  (forall h, In h pre -> main_heading h = false) ->
  from_first main_heading (before_first excluded_heading (pre ++ e :: post))
  = [].
Proof.
  intros He Hpre. apply from_first_all_false.
  induction pre as [|x pre IH]; simpl.
  - rewrite He. intros ? [].
  - destruct (excluded_heading x); [intros ? []|].
    intros y [<-|Hy].
    + apply Hpre. now left.
    + apply IH; [|assumption]. intros h Hh. apply Hpre. now right.
Qed.


(* ------------------------------------------------------------------ *)
(** ** Strategy 3: the marker words *)

Lemma last_opt_snoc (t : str) (c : ascii) : last_opt (t ++ [c]) = Some c.
Proof. unfold last_opt. now rewrite rev_app_distr. Qed.

Lemma prev_after_cons (prev : option ascii) (c : ascii) (m : str) :
  prev_after prev (c :: m) = prev_after (Some c) m.
Proof.
  unfold prev_after, last_opt. simpl.
  destruct (rev m) as [|x r] eqn:E; simpl; reflexivity.
Qed.

Lemma prev_after_last (pre m : str) :
  prev_after (last_opt pre) m = last_opt (pre ++ m).
Proof.
  unfold prev_after, last_opt. rewrite rev_app_distr.
  destruct (rev m); reflexivity.
Qed.

Lemma ascii_eqb_eq (a b : ascii) : ascii_eqb a b = true <-> a = b.
Proof. apply Ascii.eqb_eq. Qed.

(** A literal matched without regard to case: the text begins with
    characters equal to those of the literal up to case. *)
Lemma run_lit_spec (l : str) (prev : option ascii) (t : str)
  (prev' : option ascii) (t' : str) :
  run_lit true l prev t = Some (prev', t') <->
  exists m, t = m ++ t' /\ lower m = lower l /\ prev' = prev_after prev m.
Proof.
  revert prev t. induction l as [|p l IH]; intros prev t; simpl.
  - split.
    + intros [= <- <-]. now exists [].
    + intros (m & -> & Hm & ->). destruct m; [reflexivity|discriminate].
  - destruct t as [|c t].
    + split; [discriminate|].
      intros (m & Ht & Hm & _). destruct m; discriminate.
    + unfold chr_eq. destruct (ascii_eqb (lower_char p) (lower_char c)) eqn:E.
      * apply ascii_eqb_eq in E. rewrite IH. split.
        -- intros (m & -> & Hm & ->). exists (c :: m).
           rewrite prev_after_cons. simpl. now rewrite Hm, E.
        -- intros (m & Ht & Hm & ->). destruct m as [|x m]; [discriminate|].
           injection Ht as <- ->. injection Hm as _ Hm.
           exists m. now rewrite prev_after_cons.
      * split; [discriminate|].
        intros (m & Ht & Hm & _). destruct m as [|x m]; [discriminate|].
        injection Ht as <- ->. injection Hm as Hc _.
        rewrite Hc in E. unfold ascii_eqb in E.
        now rewrite Ascii.eqb_refl in E.
Qed.

(** The attempt of [\bword\b] at one position. *)
Lemma match_marker (word : string) (prev : option ascii) (t : str) :
  match_at true (marker word) prev t =
    if at_wordb prev t
    then match run_lit true (lit word) prev t with
         | Some (prev', t') =>
             if at_wordb prev' t' then Some (t', []) else None
         | None => None
         end
    else None.
Proof. reflexivity. Qed.

Lemma match_marker_occurs (word : string) (pre t : str) :
  is_some (match_at true (marker word) (last_opt pre) t) = true <->
  occurs_at (lit word) (pre ++ t) (length pre).
Proof.
  rewrite match_marker. split.
  - destruct (at_wordb (last_opt pre) t) eqn:B1; [|discriminate].
    destruct (run_lit true (lit word) (last_opt pre) t) as [[p' t']|] eqn:R;
      [|discriminate].
    destruct (at_wordb p' t') eqn:B2; [|discriminate]. intros _.
    apply run_lit_spec in R. destruct R as (m & -> & Hm & ->).
    exists pre, m, t'. rewrite <- prev_after_last. auto.
  - intros (before & m & after & Ht & Hlen & Hm & B1 & B2).
    apply app_eq_app in Ht.
    assert (before = pre /\ t = m ++ after) as [-> ->].
    { destruct Ht as [l [[-> E]|[-> E]]];
        rewrite length_app in Hlen;
        (destruct l; [|simpl in Hlen; lia]);
        rewrite ?app_nil_r in *; simpl in E; auto. }
    rewrite B1.
    assert (R : run_lit true (lit word) (last_opt pre) (m ++ after)
                = Some (prev_after (last_opt pre) m, after))
      by (apply run_lit_spec; eauto).
    rewrite R, prev_after_last, B2. reflexivity.
Qed.

(** [re.search] of a marker finds its first occurrence. *)
Lemma search_marker_from (word : string) (t pre : str) :
  (forall j, j < length pre -> ~ occurs_at (lit word) (pre ++ t) j) ->
  match search_from true (marker word) (last_opt pre) t (length pre) with
  | Some i => first_occurrence (lit word) (pre ++ t) i
  | None => absent (lit word) (pre ++ t)
  end.
Proof.
  revert pre. induction t as [|c t IH]; intros pre Hpre; cbn [search_from].
  - destruct (match_at true (marker word) (last_opt pre) []) eqn:M.
    + split; [|assumption].
      apply match_marker_occurs. now rewrite M.
    + intros j Hj.
      destruct (Nat.lt_ge_cases j (length pre)) as [Hlt|Hge];
        [now apply (Hpre j)|].
      destruct Hj as (before & m & after & Ht & Hlen & Hm & B1 & B2).
      assert (j = length pre).
      { apply (f_equal (@length _)) in Ht.
        rewrite !length_app in Ht. simpl in Ht. lia. }
      subst j.
      assert (O : occurs_at (lit word) (pre ++ []) (length pre))
        by (exists before, m, after; auto).
      apply match_marker_occurs in O. rewrite M in O. discriminate.
  - destruct (match_at true (marker word) (last_opt pre) (c :: t)) eqn:M.
    + split; [|assumption].
      apply match_marker_occurs. now rewrite M.
    + specialize (IH (pre ++ [c])).
      rewrite last_opt_snoc, length_app, Nat.add_1_r, <- app_assoc in IH.
      apply IH. intros j Hj.
      destruct (Nat.lt_ge_cases j (length pre)) as [Hlt|Hge];
        [now apply (Hpre j)|].
      assert (j = length pre) by lia. subst j.
      intro O. change (pre ++ [c] ++ t) with (pre ++ c :: t) in O.
      apply match_marker_occurs in O. rewrite M in O. discriminate.
Qed.

Lemma search_marker (word : string) (text : str) :
  match re_search true (marker word) text with
  | Some i => first_occurrence (lit word) text i
  | None => absent (lit word) text
  end.
Proof.
  apply (search_marker_from word text []). intros j Hj. inversion Hj.
Qed.

(** C4, as amended.  Strategy 3 cuts the flattened text before the first
    occurrence of "References" when the text has one; otherwise before
    the first occurrence of "Bibliography" when it has one; otherwise
    before the first occurrence of "Footnotes"; otherwise it keeps the
    whole text.  An occurrence is a match up to case between two word
    boundaries.  The candidate is this prefix with its ends trimmed, and
    it is returned when the prefix has more than 500 characters. *)
Theorem C4_truncation_priority (text : str) :
  exists cut : nat,
    truncate_at_marker MARKER_PATTERNS text = firstn cut text /\
    method3_text text =
      (if (len (firstn cut text) >? 500)%Z
       then Some (strip (firstn cut text)) else None) /\
    (first_occurrence (lit "References") text cut \/
     (absent (lit "References") text /\
      first_occurrence (lit "Bibliography") text cut) \/
     (absent (lit "References") text /\
      absent (lit "Bibliography") text /\
      first_occurrence (lit "Footnotes") text cut) \/
     (absent (lit "References") text /\
      absent (lit "Bibliography") text /\
      absent (lit "Footnotes") text /\
      cut = length text)).
Proof.
  assert (G : exists cut : nat,
             truncate_at_marker MARKER_PATTERNS text = firstn cut text /\
             (first_occurrence (lit "References") text cut \/
              (absent (lit "References") text /\
               first_occurrence (lit "Bibliography") text cut) \/
              (absent (lit "References") text /\
               absent (lit "Bibliography") text /\
               first_occurrence (lit "Footnotes") text cut) \/
              (absent (lit "References") text /\
               absent (lit "Bibliography") text /\
               absent (lit "Footnotes") text /\
               cut = length text))).
  { pose proof (search_marker "References" text) as R.
    pose proof (search_marker "Bibliography" text) as B.
    pose proof (search_marker "Footnotes" text) as F.
    unfold MARKER_PATTERNS. cbn [truncate_at_marker].
    fold (marker "References") (marker "Bibliography") (marker "Footnotes").
    destruct (re_search true (marker "References") text) as [i|];
      [exists i; split; [reflexivity|]; left; exact R|].
    destruct (re_search true (marker "Bibliography") text) as [i|];
      [exists i; split; [reflexivity|]; right; left; split; assumption|].
    destruct (re_search true (marker "Footnotes") text) as [i|];
      [exists i; split; [reflexivity|]; right; right; left;
       split; [assumption|split; assumption]|].
    exists (length text). rewrite firstn_all.
    split; [reflexivity|]. right; right; right.
    split; [assumption|split; [assumption|split; [assumption|reflexivity]]]. }
  destruct G as (cut & E & H). exists cut.
  split; [exact E|]. split; [|exact H].
  unfold method3_text. now rewrite E.
Qed.

(** C4 as stated fails: in [Examples.footnotes_first] the earliest
    marker is "Footnotes", and the candidate still contains it, because
    the text is cut at "References". *)
Lemma C4_counterexample :
  method3_text Examples.footnotes_first
  = Some (repeat "x"%char 600 ++ lit " Footnotes 1") /\
  earliest_marker_prefix Examples.footnotes_first
  = repeat "x"%char 600 ++ lit " " /\
  ~ (forall candidate,
       method3_text Examples.footnotes_first = Some candidate ->
       candidate = earliest_marker_prefix Examples.footnotes_first \/
       candidate = strip (earliest_marker_prefix Examples.footnotes_first)).
Proof.
  assert (M : method3_text Examples.footnotes_first
              = Some (repeat "x"%char 600 ++ lit " Footnotes 1"))
    by (vm_compute; reflexivity).
  assert (P : earliest_marker_prefix Examples.footnotes_first
              = repeat "x"%char 600 ++ lit " ")
    by (vm_compute; reflexivity).
  split; [exact M|]. split; [exact P|].
  intro H. destruct (H _ M) as [E|E]; rewrite P in E;
    vm_compute in E; discriminate.
Qed.

(* ------------------------------------------------------------------ *)
(** ** The matcher and its continuation *)

Lemma suffix_refl (t : str) : suffix t t.
Proof. now exists []. Qed.

Lemma suffix_cons (c : ascii) (t' t : str) : suffix t' t -> suffix t' (c :: t).
Proof. intros [pre ->]. now exists (c :: pre). Qed.

Lemma suffix_trans (a b c : str) : suffix a b -> suffix b c -> suffix a c.
Proof. intros [p ->] [q ->]. exists (q ++ p). now rewrite app_assoc. Qed.

Lemma run_lit_suffix (ic : bool) (l : str) (prev : option ascii) (t : str)
  (prev' : option ascii) (t' : str) :
  run_lit ic l prev t = Some (prev', t') -> suffix t' t.
Proof.
  revert prev t. induction l as [|p l IH]; intros prev t; simpl.
  - intros [= _ <-]. apply suffix_refl.
  - destruct t as [|c t]; [discriminate|].
    destruct (chr_eq ic p c); [|discriminate].
    intro H. apply suffix_cons. eapply IH, H.
Qed.

Section Continuations.

Variable ic : bool.
Variable A : Type.

(** The matcher calls its continuation on suffixes of the text only. *)
Lemma run_rep_ext (f : ascii -> bool) (t : str) :
  forall (n : nat) (prev : option ascii) (g : caps) (k1 k2 : kont A),
  (forall p t' g', suffix t' t -> k1 p t' g' = k2 p t' g') ->
  run_rep f n prev t g k1 = run_rep f n prev t g k2.
Proof.
  induction t as [|c t IH]; intros n prev g k1 k2 H; simpl.
  - now rewrite (H prev [] g (suffix_refl _)).
  - rewrite (H prev (c :: t) g (suffix_refl _)).
    destruct (f c); [|reflexivity].
    rewrite (IH (pred n) (Some c) g k1 k2); [reflexivity|].
    intros p t' g' Hs. apply H. now apply suffix_cons.
Qed.

Lemma run_ext (r : re) :
  forall (prev : option ascii) (t : str) (g : caps) (k1 k2 : kont A),
  (forall p t' g', suffix t' t -> k1 p t' g' = k2 p t' g') ->
  run ic r prev t g k1 = run ic r prev t g k2.
Proof.
  induction r as [l|p| | | |a IHa b IHb|a IHa b IHb|a IHa|n p|i a IHa];
    intros prev t g k1 k2 H; cbn [run].
  - destruct (run_lit ic l prev t) as [[p' t']|] eqn:E; [|reflexivity].
    apply H. eapply run_lit_suffix, E.
  - destruct t as [|c t]; [reflexivity|].
    destruct (cls_test ic p c); [|reflexivity].
    apply H. apply suffix_cons, suffix_refl.
  - destruct prev; [reflexivity|]. apply H, suffix_refl.
  - destruct (at_eol t); [|reflexivity]. apply H, suffix_refl.
  - destruct (at_wordb prev t); [|reflexivity]. apply H, suffix_refl.
  - apply IHa. intros p t' g' Hs. apply IHb.
    intros p2 t2 g2 Hs2. apply H. eapply suffix_trans; eassumption.
  - rewrite (IHa prev t g k1 k2 H), (IHb prev t g k1 k2 H). reflexivity.
  - rewrite (IHa prev t g k1 k2 H), (H prev t g (suffix_refl _)).
    reflexivity.
  - now apply run_rep_ext.
  - apply IHa. intros p t' g' Hs. now apply H.
Qed.

(** A pattern that ends with [$] reaches its continuation only where
    [$] holds. *)
Lemma run_anchored (r : re) :
  anchored_end r = true ->
  forall (prev : option ascii) (t : str) (g : caps) (k : kont A),
  run ic r prev t g k =
  run ic r prev t g (fun p t' g' => if at_eol t' then k p t' g' else None).
Proof.
  induction r as [l|p| | | |a IHa b IHb|a IHa b IHb|a IHa|n p|i a IHa];
    intro Hr; try discriminate; intros prev t g k; cbn [run].
  - destruct (at_eol t); reflexivity.
  - apply run_ext. intros p t' g' _. now apply IHb.
  - cbn in Hr. apply andb_prop in Hr. destruct Hr as [Ha Hb].
    now rewrite <- (IHa Ha), <- (IHb Hb).
  - now rewrite (IHa Hr).
Qed.

End Continuations.

(** On a text that does not end with a line feed, a pattern that ends
    with [$] matches at the start exactly when it matches the whole. *)
Lemma match_anchored_full (ic : bool) (r : re) (t : str) :
  anchored_end r = true ->
  last_opt t <> Some LF ->
  re_match ic r t = re_fullmatch ic r t.
Proof.
  intros Hr Ht. unfold re_match, re_fullmatch, match_at.
  rewrite (@run_anchored ic _ r Hr None t [] (@accept)).
  rewrite (@run_anchored ic _ r Hr None t []
             (fun _ t' g => match t' with [] => Some (t', g) | _ => None end)).
  apply run_ext. intros p t' g' [pre ->].
  destruct t' as [|c [|d t']]; try reflexivity.
  cbn [at_eol]. destruct (ascii_eqb c LF) eqn:E; [|reflexivity].
  apply ascii_eqb_eq in E. subst c.
  exfalso. apply Ht. apply last_opt_snoc.
Qed.

(** ** Trimmed titles *)

Lemma lstrip_head (t : str) (c : ascii) (t' : str) :
  lstrip t = c :: t' -> is_space c = false.
Proof.
  induction t as [|x t IH]; simpl; [discriminate|].
  destruct (is_space x) eqn:E; [assumption|].
  now intros [= <- _].
Qed.

Lemma strip_last (t : str) (c : ascii) :
  last_opt (strip t) = Some c -> is_space c = false.
Proof.
  unfold strip, rstrip, last_opt. rewrite rev_involutive.
  destruct (lstrip (rev (lstrip t))) as [|x r] eqn:E; [discriminate|].
  intros [= <-]. eapply lstrip_head, E.
Qed.

Lemma lower_char_LF (c : ascii) : lower_char c = LF -> c = LF.
Proof.
  destruct c as [[] [] [] [] [] [] [] []]; vm_compute; intro H;
    solve [reflexivity | discriminate H].
Qed.

Lemma lower_strip_last (t : str) : last_opt (lower (strip t)) <> Some LF.
Proof.
  unfold lower, last_opt. rewrite <- map_rev.
  destruct (rev (strip t)) as [|c r] eqn:E; [discriminate|].
  simpl. intros [= H]. apply lower_char_LF in H. subst c.
  assert (L : last_opt (strip t) = Some LF)
    by (unfold last_opt; now rewrite E).
  apply strip_last in L. discriminate.
Qed.

Lemma lstrip_app_keep (a b : str) (c : ascii) (b' : str) :
  b = c :: b' -> is_space c = false ->
  exists x, lstrip (a ++ b) = x ++ b.
Proof.
  intros -> Hc. induction a as [|y a IH]; simpl.
  - rewrite Hc. now exists [].
  - destruct (is_space y); [assumption|]. now exists (y :: a).
Qed.

(** Trimming keeps a prefix that begins and ends with characters that
    are not white space. *)
Lemma strip_prefix (P rest : str) (c : ascii) (P' : str) (d : ascii) :
  P = c :: P' -> is_space c = false ->
  last_opt P = Some d -> is_space d = false ->
  exists z, strip (P ++ rest) = P ++ z.
Proof.
  intros -> Hc Hd Hsd. unfold strip, rstrip.
  replace (lstrip ((c :: P') ++ rest)) with ((c :: P') ++ rest)
    by (simpl; now rewrite Hc).
  rewrite rev_app_distr. unfold last_opt in Hd.
  destruct (rev (c :: P')) as [|e r] eqn:E; [discriminate|].
  injection Hd as ->.
  destruct (@lstrip_app_keep (rev rest) (d :: r) d r eq_refl Hsd) as [x Hx].
  rewrite Hx, rev_app_distr, <- E, rev_involutive. now exists (rev x).
Qed.

Lemma data_availability_prefix (rest : str) :
  is_exclude_section (lit "Data Availability" ++ rest) = true.
Proof.
  destruct (@strip_prefix (lit "Data Availability") rest "D"
              (lit "ata Availability") "y" eq_refl eq_refl eq_refl eq_refl)
    as [z Hz].
  unfold is_exclude_section.
  replace (negb (truthy (lit "Data Availability" ++ rest))) with false
    by reflexivity.
  cbv zeta. rewrite Hz. unfold lower. rewrite map_app.
  generalize (map lower_char z). intro z'.
  vm_compute. reflexivity.
Qed.

(** C3, as amended.  [is_exclude_section(title)] is true if and only if
    the title is not empty and, for some pattern of the exclude table,
    the trimmed, lower-cased title matches the pattern: in full when the
    pattern ends with [$], from its start on when it does not.  One
    pattern of the table does not end with [$], [^data\s*availability];
    every title that begins with "Data Availability" is therefore
    excluded, "Data Availability Statement" among them, while
    "References and Notes" is not excluded. *)
Theorem C3_exclusion_anchoring (title : str) :
  let t := lower (strip title) in
  (is_exclude_section title = true <->
   title <> [] /\
   exists p, In p EXCLUDE_SECTION_PATTERNS /\
     (if anchored_end p
      then is_some (re_fullmatch true p t)
      else is_some (re_match true p t)) = true) /\
  filter (fun p => negb (anchored_end p)) EXCLUDE_SECTION_PATTERNS
  = [Bol ;; L "data" ;; ws0 ;; L "availability"] /\
  is_exclude_section (lit "References and Notes") = false /\
  is_exclude_section (lit "Data Availability Statement") = true /\
  (forall rest, is_exclude_section (lit "Data Availability" ++ rest) = true).
Proof.
  intro t. split; [|split; [reflexivity|split; [vm_compute; reflexivity|]]].
  - assert (E : forall p,
               (if anchored_end p
                then is_some (re_fullmatch true p t)
                else is_some (re_match true p t))
               = is_some (re_match true p t)).
    { intro p. destruct (anchored_end p) eqn:Hp; [|reflexivity].
      rewrite match_anchored_full;
        [reflexivity | assumption | apply lower_strip_last]. }
    unfold is_exclude_section. fold t.
    destruct title as [|c title]; cbn [truthy negb].
    + split; [discriminate|]. intros [H _]. contradiction.
    + unfold any_match. rewrite existsb_exists. split.
      * intros (p & Hin & Hp). split; [discriminate|].
        exists p. now rewrite E.
      * intros (_ & p & Hin & Hp). exists p. now rewrite <- E.
  - split; [vm_compute; reflexivity|]. apply data_availability_prefix.
Qed.

(** C3 as stated fails: "Data Availability Statement" is classified as
    excluded although no pattern of the table matches it in full. *)
Lemma C3_counterexample :
  ~ (is_exclude_section (lit "Data Availability Statement") = true <->
     excluded_as_specified (lit "Data Availability Statement") = true).
Proof.
  intros [H _].
  assert (E : excluded_as_specified (lit "Data Availability Statement")
              = false) by (vm_compute; reflexivity).
  rewrite E in H. discriminate H. vm_compute. reflexivity.
Qed.

(* ------------------------------------------------------------------ *)
(** ** What a match consumes *)

Section Consumption.

Variable ic : bool.
Variable A : Type.

Lemma run_lit_length (l : str) :
  forall (prev : option ascii) (t : str) (prev' : option ascii) (t' : str),
  run_lit ic l prev t = Some (prev', t') -> length t' + length l = length t.
Proof.
  induction l as [|p l IH]; intros prev t prev' t'; simpl.
  - intros [= _ <-]. lia.
  - destruct t as [|c t]; [discriminate|].
    destruct (chr_eq ic p c); [|discriminate].
    intro H. apply IH in H. simpl. lia.
Qed.

Lemma run_rep_reaches (f : ascii -> bool) (t : str) :
  forall (n : nat) (prev : option ascii) (g : caps) (k : kont A) (x : A),
  run_rep f n prev t g k = Some x ->
  exists p t', k p t' g = Some x /\ length t' + n <= length t.
Proof.
  induction t as [|c t IH]; intros n prev g k x; simpl.
  - destruct n; [|discriminate]. intro H. exists prev, []. auto.
  - assert (Stop : (if n =? 0 then k prev (c :: t) g else None) = Some x ->
                   exists p t', k p t' g = Some x /\
                                length t' + n <= S (length t)).
    { destruct n; [|discriminate]. intro H. exists prev, (c :: t).
      simpl. split; [assumption|lia]. }
    destruct (f c); [|exact Stop].
    destruct (run_rep f (pred n) (Some c) t g k) as [y|] eqn:E; [|exact Stop].
    intros [= ->]. apply IH in E. destruct E as (p & t' & Hk & Hlen).
    exists p, t'. split; [assumption|lia].
Qed.

(** When the matcher succeeds, the continuation succeeded on a rest of
    the text that is shorter by [min_len r] characters at least. *)
Lemma run_reaches (r : re) :
  forall (prev : option ascii) (t : str) (g : caps) (k : kont A) (x : A),
  run ic r prev t g k = Some x ->
  exists p t' g', k p t' g' = Some x /\ length t' + min_len r <= length t.
Proof.
  induction r as [l|p| | | |a IHa b IHb|a IHa b IHb|a IHa|n p|i a IHa];
    intros prev t g k x; cbn [run min_len].
  - destruct (run_lit ic l prev t) as [[p' t']|] eqn:E; [|discriminate].
    intro H. apply run_lit_length in E. exists p', t', g.
    split; [assumption|lia].
  - destruct t as [|c t]; [discriminate|].
    destruct (cls_test ic p c); [|discriminate].
    intro H. exists (Some c), t, g. simpl. split; [assumption|lia].
  - destruct prev; [discriminate|]. intro H. exists None, t, g.
    split; [assumption|lia].
  - destruct (at_eol t); [|discriminate]. intro H. exists prev, t, g.
    split; [assumption|lia].
  - destruct (at_wordb prev t); [|discriminate]. intro H. exists prev, t, g.
    split; [assumption|lia].
  - intro H. apply IHa in H. destruct H as (p1 & t1 & g1 & H & L1).
    apply IHb in H. destruct H as (p2 & t2 & g2 & H & L2).
    exists p2, t2, g2. split; [assumption|lia].
  - destruct (run ic a prev t g k) as [y|] eqn:E.
    + intros [= ->]. apply IHa in E. destruct E as (p1 & t1 & g1 & H & L1).
      exists p1, t1, g1. split; [assumption|lia].
    + intro H. apply IHb in H. destruct H as (p1 & t1 & g1 & H & L1).
      exists p1, t1, g1. split; [assumption|lia].
  - destruct (run ic a prev t g k) as [y|] eqn:E.
    + intros [= ->]. apply IHa in E. destruct E as (p1 & t1 & g1 & H & L1).
      exists p1, t1, g1. split; [assumption|lia].
    + intro H. exists prev, t, g. split; [assumption|lia].
  - intro H. apply run_rep_reaches in H. destruct H as (p1 & t1 & H & L1).
    exists p1, t1, g. split; assumption.
  - intro H. apply IHa in H. destruct H as (p1 & t1 & g1 & H & L1).
    eexists p1, t1, _. split; [exact H|assumption].
Qed.

End Consumption.

Lemma match_at_consumes (ic : bool) (r : re) (prev : option ascii)
  (t rest : str) (g : caps) :
  match_at ic r prev t = Some (rest, g) ->
  length rest + min_len r <= length t.
Proof.
  unfold match_at. intro H. apply run_reaches in H.
  destruct H as (p & t' & g' & H & L). unfold accept in H.
  now injection H as -> _.
Qed.

(** None of the patterns [clean_text_v2] substitutes can match the empty
    string: the substitution never meets an empty match. *)
Lemma substituted_patterns_consume (ic : bool) (r : re)
  (prev : option ascii) (t rest : str) (g : caps) :
  In r [ORCID_ID; ORCID_URL; EMAIL; FIGURE_TABLE; SPACES; BLANK_LINES] ->
  match_at ic r prev t = Some (rest, g) ->
  length rest < length t.
Proof.
  intros Hin H. apply match_at_consumes in H.
  assert (0 < min_len r); [|lia].
  simpl in Hin.
  repeat (destruct Hin as [<-|Hin]; [vm_compute; lia|]). contradiction.
Qed.

(* ------------------------------------------------------------------ *)
(** ** Strategy 2 on a plain article *)

(** The title before the abstract is not collected, the paragraphs under
    a heading are gathered up to the next heading, and what follows the
    references is not reached. *)
Example method2_plain_article :
  method2_loop Examples.plain_article false [] []
  = ([lit "Abstract" ++ [LF] ++ lit "We study risk.";
      lit "Methods" ++ [LF] ++ lit "Cohort."],
     [lit "Abstract"; lit "Aims"; lit "Methods"]).
Proof. vm_compute. reflexivity. Qed.

(* ------------------------------------------------------------------ *)
(** ** Substitution *)

(** Where the pattern is found nowhere, [re.sub] changes nothing. *)
Lemma sub_from_no_match (ic : bool) (r : re) (tpl : list piece) (t : str) :
  forall (prev : option ascii) (i : nat),
  search_from ic r prev t i = None -> sub_from ic r tpl prev t 0 = t.
Proof.
  induction t as [|c t IH]; intros prev i; cbn [search_from sub_from].
  - reflexivity.
  - destruct (match_at ic r prev (c :: t)); [discriminate|].
    intro H. f_equal. eapply IH, H.
Qed.

Lemma re_sub_no_match (ic : bool) (r : re) (tpl : list piece) (t : str) :
  re_search ic r t = None -> re_sub ic r tpl t = t.
Proof. apply sub_from_no_match. Qed.

(** ** Trimming *)

Lemma lstrip_suffix (t : str) : exists pre, t = pre ++ lstrip t.
Proof.
  induction t as [|c t [pre IH]]; simpl.
  - now exists [].
  - destruct (is_space c); [|now exists []].
    exists (c :: pre). simpl. now rewrite <- IH.
Qed.

Lemma lstrip_length (t : str) : length (lstrip t) <= length t.
Proof.
  destruct (lstrip_suffix t) as [pre E]. rewrite E at 2.
  rewrite length_app. lia.
Qed.

Lemma rstrip_prefix (t : str) : exists post, t = rstrip t ++ post.
Proof.
  unfold rstrip. destruct (lstrip_suffix (rev t)) as [pre E].
  exists (rev pre).
  rewrite <- rev_app_distr, <- E. now rewrite rev_involutive.
Qed.

Lemma lstrip_fixed (t : str) : starts_with_space t = false -> lstrip t = t.
Proof. destruct t as [|c t]; simpl; [reflexivity|]. now intros ->. Qed.

Lemma lstrip_starts (t : str) : starts_with_space (lstrip t) = false.
Proof.
  destruct (lstrip t) as [|c t'] eqn:E; [reflexivity|].
  simpl. eapply lstrip_head, E.
Qed.

Lemma skipn_lstrip (t : str) :
  skipn (length t - length (lstrip t)) t = lstrip t.
Proof.
  destruct (lstrip_suffix t) as [pre E].
  rewrite E at 1 3. rewrite length_app.
  replace (length pre + length (lstrip t) - length (lstrip t))
    with (length pre + 0) by lia.
  now rewrite skipn_app, Nat.add_0_r, skipn_all, Nat.sub_diag.
Qed.

Lemma strip_starts (t : str) : starts_with_space (strip t) = false.
Proof.
  unfold strip. destruct (rstrip_prefix (lstrip t)) as [post E].
  pose proof (lstrip_starts t) as H. rewrite E in H.
  destruct (rstrip (lstrip t)); [reflexivity|exact H].
Qed.

(** Trimming a trimmed text changes nothing. *)
Lemma strip_fixed (t : str) :
  starts_with_space t = false ->
  (forall c, last_opt t = Some c -> is_space c = false) ->
  strip t = t.
Proof.
  intros Hhead Hlast. unfold strip. rewrite (lstrip_fixed _ Hhead).
  unfold rstrip. rewrite lstrip_fixed; [apply rev_involutive|].
  unfold last_opt in Hlast. destruct (rev t) as [|c r]; [reflexivity|].
  simpl. now apply Hlast.
Qed.

Lemma strip_strip (t : str) : strip (strip t) = strip t.
Proof.
  apply strip_fixed; [apply strip_starts|]. intros c. apply strip_last.
Qed.

(** ** Tidy white space *)

Lemma tidy_app (a b : str) :
  tidy (a ++ b) = true -> tidy a = true /\ tidy b = true.
Proof.
  induction a as [|c a IH]; simpl; [auto|].
  intro H. apply andb_prop in H. destruct H as [Hc Hab].
  destruct (IH Hab) as [Ha Hb]. split; [|assumption].
  rewrite Ha, andb_true_r.
  destruct (is_space c); [|reflexivity].
  apply andb_prop in Hc. destruct Hc as [Hc1 Hc2]. rewrite Hc1.
  destruct a; [reflexivity|exact Hc2].
Qed.

Lemma tidy_strip (t : str) : tidy t = true -> tidy (strip t) = true.
Proof.
  intro H. unfold strip.
  destruct (lstrip_suffix t) as [pre E]. rewrite E in H.
  apply tidy_app in H. destruct H as [_ H].
  destruct (rstrip_prefix (lstrip t)) as [post E']. rewrite E' in H.
  now apply tidy_app in H.
Qed.

Lemma tidy_no_LF (t : str) (c : ascii) :
  tidy t = true -> In c t -> c <> LF.
Proof.
  induction t as [|x t IH]; simpl; [contradiction|].
  intros H [<-|Hin].
  - apply andb_prop in H. destruct H as [Hx _]. intros ->.
    vm_compute in Hx. discriminate.
  - apply andb_prop in H. now apply IH.
Qed.

(** ** The white-space passes of the normalizer *)

Lemma run_spaces (prev : option ascii) (t : str) (g : caps) :
  run_rep (cls_test false CSpace) 0 prev t g (@accept) = Some (lstrip t, g).
Proof.
  revert prev. induction t as [|c t IH]; intro prev; simpl; [reflexivity|].
  destruct (is_space c); [|reflexivity]. now rewrite IH.
Qed.

(** [\s+] at one position: the run of white space there, if any. *)
Lemma match_spaces (prev : option ascii) (t : str) :
  match_at false SPACES prev t =
    if starts_with_space t then Some (lstrip t, []) else None.
Proof.
  unfold match_at, SPACES. cbn [run]. destruct t as [|c t]; simpl.
  - reflexivity.
  - destruct (is_space c); [|reflexivity]. now rewrite run_spaces.
Qed.

Lemma sub_from_skip (ic : bool) (r : re) (tpl : list piece) :
  forall (n : nat) (t : str) (prev : option ascii),
  n <= length t ->
  exists prev',
    sub_from ic r tpl prev t n = sub_from ic r tpl prev' (skipn n t) 0.
Proof.
  induction n as [|n IH]; intros t prev Hn.
  - now exists prev.
  - destruct t as [|c t]; [simpl in Hn; lia|].
    cbn [sub_from skipn]. apply IH. simpl in Hn. lia.
Qed.

Lemma sub_spaces_prev (tpl : list piece) (t : str) (n : nat)
  (prev prev' : option ascii) :
  sub_from false SPACES tpl prev t n = sub_from false SPACES tpl prev' t n.
Proof.
  destruct n as [|n]; destruct t as [|c t]; cbn [sub_from]; reflexivity.
Qed.

(** The pass [re.sub(r'\s+', ' ', text)], one step at a time. *)
Lemma sub_spaces_cons (c : ascii) (t : str) :
  re_sub false SPACES [PText (lit " ")] (c :: t) =
    if is_space c
    then " "%char :: re_sub false SPACES [PText (lit " ")] (lstrip t)
    else c :: re_sub false SPACES [PText (lit " ")] t.
Proof.
  unfold re_sub. cbn [sub_from]. rewrite match_spaces. cbn [starts_with_space].
  destruct (is_space c) eqn:Hc.
  - cbn [lstrip]. rewrite Hc.
    pose proof (lstrip_length t) as Hle.
    assert (Hlen : length (c :: t) - length (lstrip t)
                   = S (length t - length (lstrip t)))
      by (cbn [length]; lia).
    rewrite Hlen.
    destruct (@sub_from_skip false SPACES [PText (lit " ")]
                (length t - length (lstrip t)) t (Some c)) as [p Hp]; [lia|].
    rewrite Hp, skipn_lstrip. cbn [expand flat_map app lit].
    simpl. f_equal. apply sub_spaces_prev.
  - f_equal. apply sub_spaces_prev.
Qed.

Lemma sub_spaces_starts (t : str) :
  starts_with_space t = false ->
  starts_with_space (re_sub false SPACES [PText (lit " ")] t) = false.
Proof.
  destruct t as [|c t]; [reflexivity|]. cbn [starts_with_space]. intro Hc.
  rewrite sub_spaces_cons, Hc. exact Hc.
Qed.

(** After the pass the white space is tidy. *)
Lemma sub_spaces_tidy (t : str) :
  tidy (re_sub false SPACES [PText (lit " ")] t) = true.
Proof.
  remember (length t) as n eqn:Hn. revert t Hn.
  induction n as [n IH] using lt_wf_ind. intros t ->.
  destruct t as [|c t]; [reflexivity|].
  rewrite sub_spaces_cons. destruct (is_space c) eqn:Hc.
  - cbn [tidy]. rewrite is_space_space.
    rewrite sub_spaces_starts by apply lstrip_starts.
    cbn. apply (IH (length (lstrip t))); [|reflexivity].
    pose proof (lstrip_length t). simpl. lia.
  - cbn [tidy]. rewrite Hc. cbn. apply (IH (length t)); [simpl; lia|reflexivity].
Qed.

(** The pass leaves tidy text as it is. *)
Lemma sub_spaces_fixed (t : str) :
  tidy t = true -> re_sub false SPACES [PText (lit " ")] t = t.
Proof.
  induction t as [|c t IH]; [reflexivity|].
  cbn [tidy]. intro H. apply andb_prop in H. destruct H as [Hc Ht].
  rewrite sub_spaces_cons. destruct (is_space c).
  - apply andb_prop in Hc. destruct Hc as [Hsp Hnext].
    apply ascii_eqb_eq in Hsp. subst c.
    apply negb_true_iff in Hnext.
    rewrite (lstrip_fixed _ Hnext). f_equal. now apply IH.
  - f_equal. now apply IH.
Qed.

(** The pass [re.sub(r'\n\s*\n', '\n\n', text)] needs a line feed. *)
Lemma sub_blank_lines_fixed (tpl : list piece) (t : str) :
  (forall c, In c t -> c <> LF) -> re_sub false BLANK_LINES tpl t = t.
Proof.
  intro H. apply re_sub_no_match. unfold re_search.
  generalize 0. generalize (@None ascii).
  induction t as [|c t IH]; intros prev i; cbn [search_from].
  - reflexivity.
  - assert (M : match_at false BLANK_LINES prev (c :: t) = None).
    { unfold match_at, BLANK_LINES. cbn [run run_lit chr_eq].
      destruct (ascii_eqb LF c) eqn:E; [|reflexivity].
      apply ascii_eqb_eq in E. exfalso. apply (H c); [now left|auto]. }
    rewrite M. apply IH. intros x Hx. apply H. now right.
Qed.

Lemma squeeze_tidy (t : str) :
  tidy (squeeze t) = true /\ strip (squeeze t) = squeeze t.
Proof.
  unfold squeeze. split; [|apply strip_strip].
  apply tidy_strip. rewrite sub_blank_lines_fixed.
  - apply sub_spaces_tidy.
  - intros c. apply tidy_no_LF, sub_spaces_tidy.
Qed.

Lemma squeeze_fixed (t : str) :
  tidy t = true -> strip t = t -> squeeze t = t.
Proof.
  intros Ht Hs. unfold squeeze.
  rewrite (sub_spaces_fixed _ Ht), sub_blank_lines_fixed; [assumption|].
  intros c. now apply tidy_no_LF.
Qed.

Lemma clean_text_v2_squeeze (text : str) :
  text <> [] ->
  clean_text_v2 text =
    squeeze (re_sub true FIGURE_TABLE [PGroup 1; PText (lit " ")]
               (re_sub false EMAIL []
                  (re_sub false ORCID_URL []
                     (re_sub true ORCID_ID [] text)))).
Proof. destruct text; [contradiction|reflexivity]. Qed.

Lemma clean_text_v2_tidy (text : str) :
  tidy (clean_text_v2 text) = true /\
  strip (clean_text_v2 text) = clean_text_v2 text.
Proof.
  destruct text as [|c text]; [split; reflexivity|].
  rewrite clean_text_v2_squeeze by discriminate. apply squeeze_tidy.
Qed.

(** C6, as amended.  The normalizer always returns text whose white
    space is tidy (single spaces only, none at either end), and it is
    idempotent on every text whose normalized form holds no further
    match of the four token patterns (ORCID label, ORCID address,
    e-mail address, Figure/Table number): for such a text
    [clean_text_v2(clean_text_v2(t))] equals [clean_text_v2(t)]. *)
Theorem C6_idempotent_without_leftover (t : str) :
  let u := clean_text_v2 t in
  tidy u = true /\
  strip u = u /\
  (re_search true ORCID_ID u = None ->
   re_search false ORCID_URL u = None ->
   re_search false EMAIL u = None ->
   re_search true FIGURE_TABLE u = None ->
   clean_text_v2 u = u).
Proof.
  intro u. destruct (clean_text_v2_tidy t) as [Ht Hs]. fold u in Ht, Hs.
  split; [exact Ht|]. split; [exact Hs|].
  intros H1 H2 H3 H4.
  destruct u as [|c u'] eqn:Eu; [reflexivity|]. rewrite <- Eu in *.
  rewrite clean_text_v2_squeeze by (rewrite Eu; discriminate).
  rewrite (re_sub_no_match _ _ _ _ H1), (re_sub_no_match _ _ _ _ H2),
    (re_sub_no_match _ _ _ _ H3), (re_sub_no_match _ _ _ _ H4).
  now apply squeeze_fixed.
Qed.

(** A caption with its annotation: nothing is left to remove after one
    pass. *)
Lemma C6_idempotent_without_leftover_witness :
  let u := clean_text_v2 (lit "see  Figure 3. Open in a new tab  here") in
  u = lit "see Figure here" /\
  re_search true ORCID_ID u = None /\
  re_search false ORCID_URL u = None /\
  re_search false EMAIL u = None /\
  re_search true FIGURE_TABLE u = None /\
  clean_text_v2 u = u.
Proof.
  intro u.
  assert (H1 : re_search true ORCID_ID u = None) by (vm_compute; reflexivity).
  assert (H2 : re_search false ORCID_URL u = None) by (vm_compute; reflexivity).
  assert (H3 : re_search false EMAIL u = None) by (vm_compute; reflexivity).
  assert (H4 : re_search true FIGURE_TABLE u = None)
    by (vm_compute; reflexivity).
  split; [vm_compute; reflexivity|].
  repeat (split; [assumption|]).
  exact (proj2 (proj2 (C6_idempotent_without_leftover
                         (lit "see  Figure 3. Open in a new tab  here")))
           H1 H2 H3 H4).
Defined.

(** C6 as stated fails: the first pass over "Figure 1 2" removes the
    number 1 and leaves "Figure 2", from which the second pass removes
    the number 2. *)
Lemma C6_counterexample :
  clean_text_v2 (lit "Figure 1 2") = lit "Figure 2" /\
  clean_text_v2 (lit "Figure 2") = lit "Figure" /\
  ~ (clean_text_v2 (clean_text_v2 (lit "Figure 1 2"))
     = clean_text_v2 (lit "Figure 1 2")).
Proof.
  split; [vm_compute; reflexivity|].
  split; [vm_compute; reflexivity|].
  vm_compute. discriminate.
Qed.

(* ================================================================== *)
(** * Further properties of the scraper *)

(* ------------------------------------------------------------------ *)
(** ** What [fetch_html] returns *)

(** X1.  [fetch_html] returns either markup of more than 10000
    characters and no message, or no markup and a message that is not
    empty, unless [requests.get] raised an exception the method does not
    handle.  It calls the primary transport once, and the browser at most
    once, after the primary transport and only when it is configured. *)
Theorem X1_fetch_html_outcome (w : world) (use_selenium : bool) (id : str) :
  let url := article_url id in
  ((exists html,
      fst (fetch_html w use_selenium id) = Return (Some html, None) /\
      (10000 < len html)%Z) \/
   (exists message,
      fst (fetch_html w use_selenium id) = Return (None, Some message) /\
      message <> []) \/
   (exists e,
      fst (fetch_html w use_selenium id) = Raise e /\
      requests_get w url = OtherException e)) /\
  (snd (fetch_html w use_selenium id) = [CallRequests url] \/
   (use_selenium = true /\
    snd (fetch_html w use_selenium id) = [CallRequests url; CallSelenium url])).
Proof.
  intro url. unfold fetch_html, fetch_selenium. fold url.
  assert (Sel :
    let r := (let (r, log) :=
                if use_selenium
                then match selenium_get w url with
                     | PageSource html =>
                         if (len html >? 10000)%Z
                         then (Return (Some html, None), [CallSelenium url])
                         else (Return
                                 (None,
                                  Some (lit "Unable to fetch page content")),
                               [CallSelenium url])
                     | SeleniumException e =>
                         (Return (None, Some (lit "Selenium failed: " ++ e)),
                          [CallSelenium url])
                     end
                else (Return (None, Some (lit "Unable to fetch page content")),
                      [])
              in (r, CallRequests url :: log)) in
    ((exists html, fst r = Return (Some html, None) /\ (10000 < len html)%Z) \/
     (exists message, fst r = Return (None, Some message) /\ message <> []) \/
     (exists e, fst r = Raise e /\ requests_get w url = OtherException e)) /\
    (snd r = [CallRequests url] \/
     (use_selenium = true /\ snd r = [CallRequests url; CallSelenium url]))).
  { destruct use_selenium; cbn zeta.
    - destruct (selenium_get w url) as [html|e].
      + destruct (Z.gtb_spec (len html) 10000); cbn [fst snd].
        * split; [left; exists html; split; [reflexivity|lia]|auto].
        * split; [right; left; eexists; split; [reflexivity|discriminate]
                 |auto].
      + cbn [fst snd].
        split; [right; left; eexists; split; [reflexivity|discriminate]|auto].
    - cbn [fst snd].
      split; [right; left; eexists; split; [reflexivity|discriminate]|auto]. }
  destruct (requests_get w url) as [text| |code|m|m] eqn:R; try exact Sel.
  - destruct (Z.gtb_spec (len text) 10000); [|exact Sel]. cbn [fst snd].
    split; [left; exists text; split; [reflexivity|lia]|auto].
  - destruct (code =? 404)%Z; [|exact Sel]. cbn [fst snd].
    split; [right; left; eexists; split; [reflexivity|discriminate]|auto].
  - cbn [fst snd]. split; [right; right; exists m; auto|auto].
Qed.

(* ------------------------------------------------------------------ *)
(** ** The record [extract_full_text] returns *)

Lemma run_end_shape (w : world) (use_selenium : bool) (input : str)
  (r : ExtractionResult) (log : list event) :
  run_end w use_selenium input r log ->
  (exists st message,
     r = failure (pmcid r) st message /\ (st = FAILED \/ st = NO_PMCID)) \/
  (exists st m text sections,
     r = extracted (pmcid r) st m text sections /\
     ((st = SUCCESS /\ (m = "method1_main_body" \/ m = "method2_heading")) \/
      (st = PARTIAL /\ m = "method3_fallback"))%string).
Proof.
  destruct 1 as [ | | html error log r log' Hne Hhtml Hfetch Hchain].
  - left. eauto.
  - left. eauto.
  - destruct Hchain.
    + right. repeat eexists. left. auto.
    + right. repeat eexists. left. auto.
    + right. repeat eexists. right. auto.
    + left. eauto.
Qed.

(** X2.  In every record [extract_full_text] returns, the error message
    is present exactly when the text is absent, and exactly when the
    status is FAILED or NO_PMCID.  When the text is present so are the
    chunks, the method and the sections, and the two counts are the
    length of the text and its number of words; when it is absent they
    are absent and the counts are 0. *)
Theorem X2_result_well_formed
  (w : world) (use_selenium : bool) (input : str) :
  let r := fst (extract_full_text w use_selenium input) in
  (full_text r = None /\ full_text_chunks r = None /\
   method_used r = None /\ sections_found r = None /\
   char_count r = 0%Z /\ word_count r = 0%Z /\
   (exists message, error_message r = Some message) /\
   (status r = FAILED \/ status r = NO_PMCID)) \/
  (exists text,
     full_text r = Some text /\
     (exists chunks, full_text_chunks r = Some chunks) /\
     (exists m, method_used r = Some m) /\
     (exists sections, sections_found r = Some sections) /\
     char_count r = len text /\
     word_count r = Z.of_nat (length (split text)) /\
     error_message r = None /\
     (status r = SUCCESS \/ status r = PARTIAL)).
Proof.
  intro r. subst r.
  destruct (run_end_shape (extract_full_text_end w use_selenium input))
    as [(st & message & -> & Hst) | (st & m & text & sections & -> & Hst)].
  - left. cbn. repeat split; eauto.
  - right. exists (clean_text_v2 text). cbn.
    repeat split; eauto. destruct Hst as [[-> _]|[-> _]]; auto.
Qed.



(* ------------------------------------------------------------------ *)
(** ** Case and white space *)

Lemma upper_char_space (c : ascii) : is_space (upper_char c) = is_space c.
Proof. destruct c as [[] [] [] [] [] [] [] []]; reflexivity. Qed.

Lemma lower_char_space (c : ascii) : is_space (lower_char c) = is_space c.
Proof. destruct c as [[] [] [] [] [] [] [] []]; reflexivity. Qed.

Lemma upper_char_upper (c : ascii) : upper_char (upper_char c) = upper_char c.
Proof. destruct c as [[] [] [] [] [] [] [] []]; reflexivity. Qed.

Lemma upper_char_lower (c : ascii) : upper_char (lower_char c) = upper_char c.
Proof. destruct c as [[] [] [] [] [] [] [] []]; reflexivity. Qed.

Lemma lower_char_upper (c : ascii) : lower_char (upper_char c) = lower_char c.
Proof. destruct c as [[] [] [] [] [] [] [] []]; reflexivity. Qed.

Lemma lower_char_lower (c : ascii) : lower_char (lower_char c) = lower_char c.
Proof. destruct c as [[] [] [] [] [] [] [] []]; reflexivity. Qed.

Lemma map_twice (f g h : ascii -> ascii) (t : str) :
  (forall c, f (g c) = h c) -> map f (map g t) = map h t.
Proof. intro H. rewrite map_map. apply map_ext. exact H. Qed.

Lemma upper_upper (t : str) : upper (upper t) = upper t.
Proof. apply map_twice, upper_char_upper. Qed.

Lemma upper_lower (t : str) : upper (lower t) = upper t.
Proof. apply map_twice, upper_char_lower. Qed.

Lemma lower_upper (t : str) : lower (upper t) = lower t.
Proof. apply map_twice, lower_char_upper. Qed.

Lemma lower_lower (t : str) : lower (lower t) = lower t.
Proof. apply map_twice, lower_char_lower. Qed.

(** Trimming commutes with a change of case. *)
Lemma lstrip_map (f : ascii -> ascii) (t : str) :
  (forall c, is_space (f c) = is_space c) ->
  lstrip (map f t) = map f (lstrip t).
Proof.
  intro H. induction t as [|c t IH]; simpl; [reflexivity|].
  rewrite H. destruct (is_space c); [assumption|reflexivity].
Qed.

Lemma strip_map (f : ascii -> ascii) (t : str) :
  (forall c, is_space (f c) = is_space c) ->
  strip (map f t) = map f (strip t).
Proof.
  intro H. unfold strip, rstrip.
  rewrite (lstrip_map f t H), <- map_rev, (lstrip_map f _ H), map_rev.
  reflexivity.
Qed.

Lemma strip_upper (t : str) : strip (upper t) = upper (strip t).
Proof. apply strip_map, upper_char_space. Qed.

Lemma strip_lower (t : str) : strip (lower t) = lower (strip t).
Proof. apply strip_map, lower_char_space. Qed.

(** White space around a text does not change what trimming gives. *)
Lemma lstrip_pad (a t : str) : all_space a -> lstrip (a ++ t) = lstrip t.
Proof.
  induction 1 as [|c a Hc _ IH]; simpl; [reflexivity|]. now rewrite Hc.
Qed.

Lemma rstrip_pad (t b : str) : all_space b -> rstrip (t ++ b) = rstrip t.
Proof.
  intro H. unfold rstrip. rewrite rev_app_distr, lstrip_pad; [reflexivity|].
  now apply Forall_rev.
Qed.

Lemma rstrip_lstrip_pad (t b : str) :
  all_space b -> rstrip (lstrip (t ++ b)) = rstrip (lstrip t).
Proof.
  intro H. induction t as [|c t IH]; simpl.
  - rewrite lstrip_spaces by assumption. reflexivity.
  - destruct (is_space c); [assumption|].
    now rewrite app_comm_cons, rstrip_pad.
Qed.

Lemma strip_pad (a t b : str) :
  all_space a -> all_space b -> strip (a ++ t ++ b) = strip t.
Proof.
  intros Ha Hb. unfold strip.
  now rewrite lstrip_pad, rstrip_lstrip_pad.
Qed.

(* ------------------------------------------------------------------ *)
(** ** The identifier *)

Lemma startswith_refl_app (p t : str) : startswith p (p ++ t) = true.
Proof.
  induction p as [|c p IH]; simpl; [reflexivity|].
  unfold ascii_eqb. now rewrite Ascii.eqb_refl.
Qed.

Lemma normalize_pmcid_cases (p : str) :
  (startswith (lit "PMC") (upper (strip p)) = true /\
   normalize_pmcid p = upper (strip p)) \/
  (startswith (lit "PMC") (upper (strip p)) = false /\
   normalize_pmcid p = lit "PMC" ++ upper (strip p)).
Proof.
  unfold normalize_pmcid.
  destruct (startswith (lit "PMC") (upper (strip p))); [left|right];
    split; reflexivity.
Qed.

Lemma normalize_pmcid_starts (p : str) :
  startswith (lit "PMC") (normalize_pmcid p) = true.
Proof.
  destruct (normalize_pmcid_cases p) as [[H ->]|[_ ->]];
    [assumption|apply startswith_refl_app].
Qed.

Lemma normalize_pmcid_upper (p : str) :
  upper (normalize_pmcid p) = normalize_pmcid p.
Proof.
  destruct (normalize_pmcid_cases p) as [[_ ->]|[_ ->]].
  - apply upper_upper.
  - unfold upper at 1. rewrite map_app. fold (upper (upper (strip p))).
    now rewrite upper_upper.
Qed.

Lemma normalize_pmcid_strip (p : str) :
  strip (normalize_pmcid p) = normalize_pmcid p.
Proof.
  assert (U : strip (upper (strip p)) = upper (strip p))
    by (now rewrite strip_upper, strip_strip).
  destruct (normalize_pmcid_cases p) as [[_ ->]|[_ ->]]; [exact U|].
  apply strip_fixed; [reflexivity|].
  intros c Hc. destruct (upper (strip p)) as [|x u] eqn:E.
  - injection Hc as <-. reflexivity.
  - rewrite <- E in *. apply (strip_last (upper (strip p))).
    rewrite U. rewrite E in *.
    unfold last_opt in *. rewrite rev_app_distr in Hc.
    destruct (rev (x :: u)) eqn:R; [|exact Hc].
    apply (f_equal (@length _)) in R. rewrite length_rev in R. discriminate.
Qed.

(** X4.  The identifier [extract_full_text] works with begins with
    "PMC", has no lower-case letter and no white space at its ends;
    normalizing it again changes nothing; and it does not depend on the
    case of the input nor on white space around it. *)
Theorem X4_normalize_pmcid (p : str) :
  let id := normalize_pmcid p in
  startswith (lit "PMC") id = true /\
  upper id = id /\
  strip id = id /\
  normalize_pmcid id = id /\
  normalize_pmcid (upper p) = id /\
  normalize_pmcid (lower p) = id /\
  (forall a b, all_space a -> all_space b ->
     normalize_pmcid (a ++ p ++ b) = id).
Proof.
  intro id. subst id.
  split; [apply normalize_pmcid_starts|].
  split; [apply normalize_pmcid_upper|].
  split; [apply normalize_pmcid_strip|].
  split; [|split; [|split]].
  - destruct (normalize_pmcid_cases (normalize_pmcid p)) as [[_ E]|[H _]].
    + now rewrite E, normalize_pmcid_strip, normalize_pmcid_upper.
    + rewrite normalize_pmcid_strip, normalize_pmcid_upper,
        normalize_pmcid_starts in H. discriminate.
  - destruct (normalize_pmcid_cases (upper p)) as [[H ->]|[H ->]];
      destruct (normalize_pmcid_cases p) as [[H' ->]|[H' ->]];
      rewrite strip_upper, upper_upper in *; congruence.
  - destruct (normalize_pmcid_cases (lower p)) as [[H ->]|[H ->]];
      destruct (normalize_pmcid_cases p) as [[H' ->]|[H' ->]];
      rewrite strip_lower, upper_lower in *; congruence.
  - intros a b Ha Hb. unfold normalize_pmcid. now rewrite strip_pad.
Qed.

Lemma X4_normalize_pmcid_witness :
  all_space (lit "  ") /\ all_space [LF] /\
  normalize_pmcid (lit "  " ++ lit "pmc77" ++ [LF]) = lit "PMC77".
Proof.
  assert (Ha : all_space (lit "  ")) by (repeat constructor).
  assert (Hb : all_space [LF]) by (repeat constructor).
  split; [exact Ha|]. split; [exact Hb|].
  destruct (X4_normalize_pmcid (lit "pmc77")) as (_ & _ & _ & _ & _ & _ & H).
  exact (H _ _ Ha Hb).
Defined.

(* ------------------------------------------------------------------ *)
(** ** The classifier, case and white space *)

Lemma any_match_empty :
  any_match EXCLUDE_SECTION_PATTERNS [] = false /\
  any_match MAIN_CONTENT_PATTERNS [] = false.
Proof. split; reflexivity. Qed.

Lemma classifier_key (table : list re) (t t' : str) :
  any_match table [] = false ->
  lower (strip t) = lower (strip t') ->
  (if negb (truthy t) then false else any_match table (lower (strip t)))
  = (if negb (truthy t') then false else any_match table (lower (strip t'))).
Proof.
  intros He E.
  assert (G : forall x, (if negb (truthy x) then false
                         else any_match table (lower (strip x)))
                        = any_match table (lower (strip x))).
  { intros [|c x]; [|reflexivity].
    cbn [truthy negb]. change (lower (strip [])) with (@nil ascii).
    now rewrite He. }
  rewrite (G t), (G t'). now rewrite E.
Qed.

(** X5.  On a title of ASCII characters, the two classifiers see the
    title only through its trimmed, lower-cased form: changing the case
    of the title, or putting white space around it, changes neither
    answer.  (Outside ASCII, [str.upper] can change the letters a
    pattern reads, as it does with the sharp s.) *)
Theorem X5_classifier_insensitive (title a b : str) :
  is_ascii title -> all_space a -> all_space b ->
  is_exclude_section (a ++ upper title ++ b) = is_exclude_section title /\
  is_exclude_section (a ++ lower title ++ b) = is_exclude_section title /\
  is_main_content_section (a ++ upper title ++ b)
  = is_main_content_section title /\
  is_main_content_section (a ++ lower title ++ b)
  = is_main_content_section title.
Proof.
  intros _ Ha Hb.
  assert (U : lower (strip (a ++ upper title ++ b)) = lower (strip title))
    by (now rewrite strip_pad, strip_upper, lower_upper).
  assert (L : lower (strip (a ++ lower title ++ b)) = lower (strip title))
    by (now rewrite strip_pad, strip_lower, lower_lower).
  destruct any_match_empty as [E M].
  unfold is_exclude_section, is_main_content_section.
  repeat split; now apply classifier_key.
Qed.

Lemma X5_classifier_insensitive_witness :
  is_ascii (lit "References") /\
  all_space (lit " ") /\ all_space (lit "  ") /\
  is_exclude_section (lit " " ++ upper (lit "References") ++ lit "  ")
  = is_exclude_section (lit "References").
Proof.
  assert (Ht : is_ascii (lit "References"))
    by (repeat constructor; vm_compute; lia).
  assert (Ha : all_space (lit " ")) by (repeat constructor).
  assert (Hb : all_space (lit "  ")) by (repeat constructor).
  split; [exact Ht|]. split; [exact Ha|]. split; [exact Hb|].
  exact (proj1 (X5_classifier_insensitive Ht Ha Hb)).
Defined.

(* ------------------------------------------------------------------ *)
(** ** Strategy 1: which sections make the candidate *)

Lemma method1_loop_cons (section : node) (sections : list node)
  (cp sf : list str) :
  method1_loop (section :: sections) cp sf =
    if excluded_section section then (cp, sf)
    else if substantial section
         then method1_loop sections (cp ++ [section_text section])
                (sf ++ filter truthy [section_title section])
         else method1_loop sections cp sf.
Proof.
  unfold excluded_section, substantial, section_title, section_text.
  cbn [method1_loop filter].
  destruct (find _ section) as [h|]; cbn [truthy andb];
    try destruct (truthy (get_text [] h));
    rewrite ?app_nil_r; reflexivity.
Qed.

Lemma method1_loop_kept (sections : list node) (cp sf : list str) :
  let kept := filter substantial (before_first excluded_section sections) in
  method1_loop sections cp sf =
    (cp ++ map section_text kept,
     sf ++ filter truthy (map section_title kept)).
Proof.
  revert cp sf. induction sections as [|s sections IH]; intros cp sf.
  - simpl. now rewrite !app_nil_r.
  - rewrite method1_loop_cons. cbn [before_first].
    destruct (excluded_section s).
    + simpl. now rewrite !app_nil_r.
    + cbn [filter]. destruct (substantial s).
      * rewrite IH. cbn [map filter].
        destruct (truthy (section_title s)); cbn [app];
          now rewrite <- ?app_assoc, ?app_nil_r.
      * apply IH.
Qed.


(* ------------------------------------------------------------------ *)
(** ** The chunker: the windows *)

Lemma slice_length {A : Type} (l : list A) (lo hi : Z) :
  (0 <= lo <= hi)%Z -> (hi <= Z.of_nat (length l))%Z ->
  Z.of_nat (length (slice l lo hi)) = (hi - lo)%Z.
Proof.
  intros Hlo Hhi. unfold slice, slice_index.
  assert (E1 : (lo <? 0)%Z = false) by (apply Z.ltb_ge; lia).
  assert (E2 : (hi <? 0)%Z = false) by (apply Z.ltb_ge; lia).
  rewrite E1, E2, !Z.min_l by lia.
  rewrite length_firstn, length_skipn. lia.
Qed.

Section Windows.

Variable words : list str.
Variables chunk_size_words overlap_words : Z.
Hypothesis Hparams : (0 <= overlap_words < chunk_size_words)%Z.

Let n : Z := Z.of_nat (length words).
Let stride : Z := (chunk_size_words - overlap_words)%Z.

(** The chunks of a loop that starts inside the text: chunk [j] is the
    window at [start + j * stride]; every window but the last is full,
    and the last reaches the last word. *)
Lemma chunk_loop_windows (fuel : nat) :
  forall (start : Z) (chunks : list str),
  (start < n)%Z ->
  chunk_loop fuel words chunk_size_words overlap_words start = Some chunks ->
  chunks <> [] /\
  forall (j : nat) (c : str), nth_error chunks j = Some c ->
    let a := (start + Z.of_nat j * stride)%Z in
    c = window words chunk_size_words a /\
    (a < n)%Z /\
    (S j < length chunks -> (a + chunk_size_words < n)%Z) /\
    (S j = length chunks -> (n <= a + chunk_size_words)%Z).
Proof.
  induction fuel as [|fuel IH]; intros start chunks Hstart; simpl.
  - destruct (Z.ltb_spec start (Z.of_nat (length words)));
      [discriminate|unfold n in *; lia].
  - destruct (Z.ltb_spec start (Z.of_nat (length words)));
      [|unfold n in *; lia].
    destruct (Z.eqb_spec
                (Z.min (start + chunk_size_words) (Z.of_nat (length words)))
                (Z.of_nat (length words))) as [Hend|Hend].
    + intros [= <-]. split; [discriminate|].
      intros [|j] c Hc; [|destruct j; discriminate Hc].
      injection Hc as <-. cbn zeta.
      rewrite Z.mul_0_l, Z.add_0_r. fold n in Hend.
      repeat split; [assumption| |]; simpl; lia.
    + destruct (chunk_loop fuel _ _ _ _) as [rest|] eqn:E; [|discriminate].
      intros [= <-]. split; [discriminate|].
      fold n in Hend.
      assert (Hnext : (start + (chunk_size_words - overlap_words) < n)%Z)
        by lia.
      destruct (IH _ _ Hnext E) as [Hne Hrest].
      intros [|j] c Hc.
      * injection Hc as <-. cbn zeta. rewrite Z.mul_0_l, Z.add_0_r.
        repeat split; [assumption| |].
        -- intros _. lia.
        -- simpl. intro Hl. destruct rest; [contradiction|discriminate Hl].
      * cbn [nth_error] in Hc. destruct (Hrest j c Hc) as (Hw & Ha & H1 & H2).
        cbn zeta in *.
        replace (start + Z.of_nat (S j) * stride)%Z
          with (start + (chunk_size_words - overlap_words)
                + Z.of_nat j * stride)%Z by (unfold stride; lia).
        repeat split; [assumption|assumption| |]; simpl; intro Hl.
        -- apply H1. lia.
        -- apply H2. lia.
Qed.

End Windows.

(** X8.  For a text of more words than the window and an overlap that
    is not negative and smaller than the window: chunk number [j] is the
    window of words that starts at offset [j * (window - overlap)]; every
    chunk but the last has exactly [chunk_size_words] words, the last
    chunk ends with the last word of the text and has at most
    [chunk_size_words] words; and the number of chunks is
    [1 + ceil((n - window) / (window - overlap))]. *)
Theorem X8_chunk_windows (text : str) (chunk_size_words overlap_words : Z)
  (chunks : list str) :
  (0 <= overlap_words < chunk_size_words)%Z ->
  (chunk_size_words < Z.of_nat (length (split text)))%Z ->
  chunk_text_v2 text chunk_size_words overlap_words = Some chunks ->
  let words := split text in
  let n := Z.of_nat (length words) in
  let stride := (chunk_size_words - overlap_words)%Z in
  (forall (j : nat) (c : str), nth_error chunks j = Some c ->
     let a := (Z.of_nat j * stride)%Z in
     c = join (lit " ") (slice words a (Z.min (a + chunk_size_words) n)) /\
     split c = slice words a (Z.min (a + chunk_size_words) n) /\
     (S j < length chunks ->
      Z.of_nat (length (split c)) = chunk_size_words) /\
     (S j = length chunks ->
      Z.of_nat (length (split c)) = (n - a)%Z /\
      (0 < n - a <= chunk_size_words)%Z)) /\
  Z.of_nat (length chunks)
  = (1 + (n - chunk_size_words + stride - 1) / stride)%Z.
Proof.
  intros Hparams Hlong Hc words n stride.
  revert Hc. unfold chunk_text_v2, chunk_text_v2_fuel. fold words.
  destruct (Z.leb_spec (Z.of_nat (length words)) chunk_size_words);
    [unfold words in *; lia|].
  intro Hc.
  destruct (@chunk_loop_windows words chunk_size_words overlap_words Hparams
              _ 0%Z chunks ltac:(lia) Hc) as [Hne Hw].
  assert (Hj : forall (j : nat) (c : str), nth_error chunks j = Some c ->
             let a := (Z.of_nat j * stride)%Z in
             c = window words chunk_size_words a /\
             (a < n)%Z /\
             (S j < length chunks -> (a + chunk_size_words < n)%Z) /\
             (S j = length chunks -> (n <= a + chunk_size_words)%Z)).
  { intros j c Hjc. specialize (Hw j c Hjc). cbn zeta in Hw.
    rewrite Z.add_0_l in Hw. exact Hw. }
  split.
  - intros j c Hjc. destruct (Hj j c Hjc) as (E & Ha & H1 & H2).
    cbn zeta in *. set (a := (Z.of_nat j * stride)%Z) in *.
    assert (Ha0 : (0 <= a)%Z) by (unfold a, stride; nia).
    assert (Hs : split c = slice words a (Z.min (a + chunk_size_words) n)).
    { rewrite E. unfold window. apply split_join.
      apply slice_forall, split_words. }
    split; [exact E|]. split; [exact Hs|].
    rewrite Hs, slice_length by (unfold n; lia).
    split; intro Hl; [specialize (H1 Hl)|specialize (H2 Hl)]; lia.
  - destruct (nth_error chunks (length chunks - 1)) as [c|] eqn:Elast.
    + destruct (Hj _ _ Elast) as (_ & Ha & H1 & H2). cbn zeta in *.
      assert (Hlen : length chunks <> 0)
        by (destruct chunks; [now contradiction Hne|discriminate]).
      assert (H2' := H2 ltac:(lia)). clear H1 H2.
      destruct (Nat.eq_dec (length chunks) 1) as [One|More].
      * rewrite One in *. simpl in *. lia.
      * destruct (nth_error chunks (length chunks - 2)) as [c'|] eqn:Eprev.
        -- destruct (Hj _ _ Eprev) as (_ & _ & H1 & _). cbn zeta in H1.
           assert (H1' := H1 ltac:(lia)).
           symmetry.
           replace (Z.of_nat (length chunks))
             with (1 + Z.of_nat (length chunks - 1))%Z by lia.
           f_equal. symmetry.
           apply Z.div_unique with
             (r := (n - chunk_size_words + stride - 1
                    - stride * Z.of_nat (length chunks - 1))%Z);
             [|lia].
           left.
           replace (Z.of_nat (length chunks - 2))
             with (Z.of_nat (length chunks - 1) - 1)%Z in H1' by lia.
           unfold stride in *. nia.
        -- apply nth_error_None in Eprev. lia.
    + apply nth_error_None in Elast. destruct chunks; [contradiction|].
      simpl in Elast. lia.
Qed.

Lemma X8_chunk_windows_witness :
  (0 <= 1 < 3)%Z /\
  (3 < Z.of_nat (length (split (lit "a b c d e f"))))%Z /\
  chunk_text_v2 (lit "a b c d e f") 3 1
  = Some [lit "a b c"; lit "c d e"; lit "e f"] /\
  Z.of_nat (length [lit "a b c"; lit "c d e"; lit "e f"])
  = (1 + (Z.of_nat (length (split (lit "a b c d e f"))) - 3 + (3 - 1) - 1)
         / (3 - 1))%Z.
Proof.
  assert (H1 : (0 <= 1 < 3)%Z) by lia.
  assert (H2 : (3 < Z.of_nat (length (split (lit "a b c d e f"))))%Z)
    by (vm_compute; reflexivity).
  assert (H3 : chunk_text_v2 (lit "a b c d e f") 3 1
               = Some [lit "a b c"; lit "c d e"; lit "e f"])
    by (vm_compute; reflexivity).
  split; [exact H1|]. split; [exact H2|]. split; [exact H3|].
  exact (proj2 (X8_chunk_windows (lit "a b c d e f") H1 H2 H3)).
Defined.

(** X9.  When the overlap is not smaller than the window and the text
    has more words than the window (and at least one), the loop of
    [chunk_text_v2] never ends: no amount of fuel gives a result. *)
Theorem X9_chunk_overlap_diverges
  (text : str) (chunk_size_words overlap_words : Z) :
  (chunk_size_words <= overlap_words)%Z ->
  (0 < Z.of_nat (length (split text)))%Z ->
  (chunk_size_words < Z.of_nat (length (split text)))%Z ->
  chunk_text_v2 text chunk_size_words overlap_words = None /\
  forall fuel,
    chunk_text_v2_fuel fuel text chunk_size_words overlap_words = None.
Proof.
  intros Hneg Hpos Hlong.
  assert (G : forall fuel,
             chunk_text_v2_fuel fuel text chunk_size_words overlap_words
             = None).
  { intro fuel. unfold chunk_text_v2_fuel.
    destruct (Z.leb_spec (Z.of_nat (length (split text))) chunk_size_words);
      [lia|].
    apply chunk_loop_stuck; lia. }
  split; [apply G|exact G].
Qed.

Lemma X9_chunk_overlap_diverges_witness :
  (2 <= 2)%Z /\
  (0 < Z.of_nat (length (split (lit "a b c"))))%Z /\
  (2 < Z.of_nat (length (split (lit "a b c"))))%Z /\
  chunk_text_v2 (lit "a b c") 2 2 = None.
Proof.
  assert (H1 : (2 <= 2)%Z) by lia.
  assert (H2 : (0 < Z.of_nat (length (split (lit "a b c"))))%Z)
    by (vm_compute; reflexivity).
  assert (H3 : (2 < Z.of_nat (length (split (lit "a b c"))))%Z)
    by (vm_compute; reflexivity).
  split; [exact H1|]. split; [exact H2|]. split; [exact H3|].
  exact (proj1 (X9_chunk_overlap_diverges (lit "a b c") H1 H2 H3)).
Defined.

(* ------------------------------------------------------------------ *)
(** ** The words of normalized text *)

Lemma last_opt_cons (c : ascii) (t : str) :
  t <> [] -> last_opt (c :: t) = last_opt t.
Proof.
  intro H. unfold last_opt. simpl.
  destruct (rev t) as [|x r] eqn:E; [|reflexivity].
  apply (f_equal (@rev _)) in E. rewrite rev_involutive in E.
  now subst.
Qed.

(** Text with tidy white space and a trimmed end is rebuilt from the
    words [split] reads in it. *)
Lemma join_split_from (t : str) :
  forall cur : str,
  tidy t = true ->
  (starts_with_space t = true -> cur <> []) ->
  (forall c, last_opt t = Some c -> is_space c = false) ->
  join (lit " ") (split_from cur t) = rev cur ++ t.
Proof.
  induction t as [|c t IH]; intros cur Ht Hstart Hlast.
  - simpl. destruct cur; [reflexivity|]. now rewrite app_nil_r.
  - cbn [tidy] in Ht. apply andb_prop in Ht. destruct Ht as [Hc Ht].
    cbn [split_from]. cbn [starts_with_space] in Hstart.
    destruct (is_space c) eqn:Sc.
    + apply andb_prop in Hc. destruct Hc as [Hsp Hnext].
      apply ascii_eqb_eq in Hsp. subst c.
      apply negb_true_iff in Hnext.
      assert (Hne : t <> []).
      { intros ->. specialize (Hlast " "%char eq_refl). discriminate. }
      assert (IHt : join (lit " ") (split_from [] t) = t).
      { apply (IH []); [assumption| |].
        - rewrite Hnext. discriminate.
        - intros x Hx. apply Hlast. now rewrite last_opt_cons. }
      destruct cur as [|x cur]; [now contradiction (Hstart eq_refl)|].
      destruct (split_from [] t) as [|y l] eqn:E.
      * simpl in IHt. now subst t.
      * change (join (lit " ") (rev (x :: cur) :: y :: l))
          with (rev (x :: cur) ++ lit " " ++ join (lit " ") (y :: l)).
        now rewrite IHt.
    + rewrite (IH (c :: cur)); [| assumption | discriminate |].
      * simpl. now rewrite <- app_assoc.
      * intros x Hx. destruct t as [|d t]; [discriminate Hx|].
        apply Hlast. now rewrite last_opt_cons.
Qed.

Lemma join_split_tidy (t : str) :
  tidy t = true -> strip t = t -> join (lit " ") (split t) = t.
Proof.
  intros Ht Hs. unfold split.
  rewrite join_split_from; [reflexivity|assumption| |].
  - intro H. rewrite <- Hs, strip_starts in H. discriminate.
  - intros c Hc. rewrite <- Hs in Hc. eapply strip_last, Hc.
Qed.

(** X10.  The text [clean_text_v2] returns is exactly its own words
    joined by single spaces: splitting it and joining the words with
    ' ' gives it back.  So the full text of a record is made of
    [word_count] words separated by single spaces. *)
Theorem X10_normalized_text_is_its_words (text : str) :
  join (lit " ") (split (clean_text_v2 text)) = clean_text_v2 text.
Proof.
  destruct (clean_text_v2_tidy text) as [Ht Hs].
  now apply join_split_tidy.
Qed.

(* ------------------------------------------------------------------ *)
(** ** Strategy 3: no marker word survives the cut *)

Lemma lstrip_split (t : str) : exists pre, t = pre ++ lstrip t /\ all_space pre.
Proof.
  induction t as [|c t (pre & E & Hpre)]; simpl.
  - exists []. split; [reflexivity|constructor].
  - destruct (is_space c) eqn:Hc.
    + exists (c :: pre). split; [simpl; now rewrite <- E|now constructor].
    + exists []. split; [reflexivity|constructor].
Qed.

Lemma strip_split (t : str) :
  exists a b, t = a ++ strip t ++ b /\ all_space a /\ all_space b.
Proof.
  unfold strip, rstrip.
  destruct (lstrip_split t) as (a & Ea & Ha).
  destruct (lstrip_split (rev (lstrip t))) as (b & Eb & Hb).
  exists a, (rev b). split; [|split; [assumption|now apply Forall_rev]].
  rewrite <- rev_app_distr, <- Eb, rev_involutive. exact Ea.
Qed.

Lemma is_word_lower (c : ascii) : is_word (lower_char c) = is_word c.
Proof. destruct c as [[] [] [] [] [] [] [] []]; reflexivity. Qed.

Lemma space_not_word (c : ascii) : is_space c = true -> is_word c = false.
Proof.
  destruct c as [[] [] [] [] [] [] [] []]; vm_compute; intro H;
    solve [reflexivity | discriminate H].
Qed.

Lemma last_opt_app (a b : str) :
  b <> [] -> last_opt (a ++ b) = last_opt b.
Proof.
  intro H. unfold last_opt. rewrite rev_app_distr.
  destruct (rev b) as [|x r] eqn:E; [|reflexivity].
  apply (f_equal (@rev _)) in E. rewrite rev_involutive in E. now subst.
Qed.

Lemma hd_error_app {A : Type} (a b : list A) :
  a <> [] -> hd_error (a ++ b) = hd_error a.
Proof. destruct a; [contradiction|reflexivity]. Qed.

Lemma all_space_last (a : str) : all_space a -> is_word_opt (last_opt a) = false.
Proof.
  intro H. unfold last_opt. apply Forall_rev in H.
  destruct (rev a) as [|c r]; [reflexivity|].
  inversion H; subst. now apply space_not_word.
Qed.

Lemma all_space_hd (a : str) : all_space a -> is_word_opt (hd_error a) = false.
Proof.
  intro H. destruct a as [|c r]; [reflexivity|].
  inversion H; subst. now apply space_not_word.
Qed.

Lemma lower_nil (m w : str) : lower m = lower w -> w <> [] -> m <> [].
Proof. intros H Hw ->. destruct w; [contradiction|discriminate]. Qed.

Lemma lower_hd_word (m w : str) :
  lower m = lower w -> is_word_opt (hd_error w) = true ->
  is_word_opt (hd_error m) = true.
Proof.
  destruct m as [|c m], w as [|d w]; simpl; intros H Hd;
    try discriminate H; try discriminate Hd.
  injection H as H _. now rewrite <- is_word_lower, H, is_word_lower.
Qed.

Lemma lower_last_word (m w : str) :
  lower m = lower w -> is_word_opt (last_opt w) = true ->
  is_word_opt (last_opt m) = true.
Proof.
  intros H. unfold last_opt.
  assert (R : lower (rev m) = lower (rev w))
    by (unfold lower in *; now rewrite !map_rev, H).
  apply lower_hd_word, R.
Qed.

(** An occurrence inside trimmed text is an occurrence in the text. *)
Lemma occurs_strip (w t : str) (j : nat) :
  w <> [] -> occurs_at w (strip t) j -> exists j', occurs_at w t j'.
Proof.
  intros Hw (before & m & after & E & _ & Hm & B1 & B2).
  destruct (strip_split t) as (a & b & Et & Ha & Hb).
  assert (Hmne : m <> []) by (eapply lower_nil; eassumption).
  exists (length (a ++ before)), (a ++ before), m, (after ++ b).
  split; [rewrite Et, E; now rewrite <- !app_assoc|].
  split; [reflexivity|]. split; [assumption|].
  unfold at_wordb in *.
  rewrite (@hd_error_app _ m after Hmne) in B1.
  rewrite (@last_opt_app before m Hmne) in B2.
  rewrite (@hd_error_app _ m (after ++ b) Hmne).
  rewrite (@last_opt_app (a ++ before) m Hmne).
  split.
  - destruct before as [|x before'].
    + rewrite app_nil_r, (all_space_last Ha). exact B1.
    + rewrite last_opt_app by discriminate. exact B1.
  - destruct after as [|x after'].
    + cbn [app]. rewrite (all_space_hd Hb). exact B2.
    + exact B2.
Qed.

(** An occurrence inside the text before the start of a marker is an
    occurrence in the whole text, before that start. *)
Lemma occurs_before_marker (w w' text : str) (k j : nat) :
  w <> [] -> wordy w -> w' <> [] -> wordy w' ->
  occurs_at w' text k ->
  occurs_at w (firstn k text) j ->
  occurs_at w text j /\ j < k.
Proof.
  intros Hw [_ Wl] Hw' [Wh' _]
    (P & m' & R & Et & Hk & Hm' & B1' & B2')
    (before & m & after & E & Hj & Hm & B1 & B2).
  assert (Hmne : m <> []) by (eapply lower_nil; eassumption).
  assert (Hm'ne : m' <> []) by (eapply lower_nil; eassumption).
  assert (EP : firstn k text = P).
  { subst k. rewrite Et. rewrite firstn_app, Nat.sub_diag, firstn_all.
    simpl. apply app_nil_r. }
  rewrite EP in E. subst P.
  assert (Hlt : j < k).
  { subst j k. rewrite !length_app. destruct m; [contradiction|simpl; lia]. }
  split; [|exact Hlt].
  exists before, m, (after ++ m' ++ R).
  split; [rewrite Et; now rewrite <- !app_assoc|].
  split; [assumption|]. split; [assumption|].
  unfold at_wordb in *.
  rewrite (@hd_error_app _ m after Hmne) in B1.
  rewrite (@last_opt_app before m Hmne) in B2.
  rewrite (@hd_error_app _ m (after ++ m' ++ R) Hmne).
  rewrite (@last_opt_app before m Hmne).
  split; [exact B1|].
  destruct after as [|x after']; [|exact B2].
  exfalso. rewrite app_nil_r in B1'.
  rewrite (@last_opt_app before m Hmne) in B1'.
  rewrite (@hd_error_app _ m' R Hm'ne) in B1'.
  rewrite (lower_last_word _ _ Hm Wl), (lower_hd_word _ _ Hm' Wh') in B1'.
  discriminate.
Qed.

Section Cuts.

Variables w text : str.
Hypothesis Hw : w <> [].
Hypothesis Ww : wordy w.

Lemma cut_at_first (i : nat) :
  first_occurrence w text i -> absent w (strip (firstn i text)).
Proof.
  intros [Hi Hfirst] j O.
  destruct (@occurs_strip w _ j Hw O) as [j' O'].
  destruct (@occurs_before_marker w w text i j' Hw Ww Hw Ww Hi O')
    as [O2 Hlt].
  exact (Hfirst j' Hlt O2).
Qed.

Lemma cut_at_other (w' : str) (i : nat) :
  w' <> [] -> wordy w' ->
  absent w text -> occurs_at w' text i -> absent w (strip (firstn i text)).
Proof.
  intros Hw' Ww' Habs Hi j O.
  destruct (@occurs_strip w _ j Hw O) as [j' O'].
  destruct (@occurs_before_marker w w' text i j' Hw Ww Hw' Ww' Hi O')
    as [O2 _].
  exact (Habs j' O2).
Qed.

Lemma cut_nowhere : absent w text -> absent w (strip text).
Proof.
  intros Habs j O. destruct (@occurs_strip w _ j Hw O) as [j' O'].
  exact (Habs j' O').
Qed.

End Cuts.

Lemma marker_words_wordy :
  (lit "References" <> [] /\ wordy (lit "References")) /\
  (lit "Bibliography" <> [] /\ wordy (lit "Bibliography")) /\
  (lit "Footnotes" <> [] /\ wordy (lit "Footnotes")).
Proof. repeat split; discriminate. Qed.

Lemma method3_text_absent (text candidate : str) :
  method3_text text = Some candidate ->
  absent (lit "References") candidate /\
  (absent (lit "References") text ->
   absent (lit "Bibliography") candidate) /\
  (absent (lit "References") text -> absent (lit "Bibliography") text ->
   absent (lit "Footnotes") candidate).
Proof.
  destruct marker_words_wordy as ([Rn Rw] & [Bn Bw] & [Fn Fw]).
  pose proof (search_marker "References" text) as R.
  pose proof (search_marker "Bibliography" text) as B.
  pose proof (search_marker "Footnotes" text) as F.
  unfold method3_text, MARKER_PATTERNS. cbn [truncate_at_marker].
  fold (marker "References") (marker "Bibliography") (marker "Footnotes").
  destruct (re_search true (marker "References") text) as [i|].
  { destruct (_ >? _)%Z; [|discriminate]. intros [= <-].
    split; [now apply cut_at_first|].
    split; intros Habs; exfalso; destruct R as [O _]; exact (Habs i O). }
  destruct (re_search true (marker "Bibliography") text) as [i|].
  { destruct (_ >? _)%Z; [|discriminate]. intros [= <-].
    destruct B as [O Hfirst].
    split; [now apply (cut_at_other Rn Rw Bn Bw)|].
    split; [intros _; now apply cut_at_first|].
    intros _ Habs. exfalso. exact (Habs i O). }
  destruct (re_search true (marker "Footnotes") text) as [i|].
  { destruct (_ >? _)%Z; [|discriminate]. intros [= <-].
    destruct F as [O Hfirst].
    split; [now apply (cut_at_other Rn Rw Fn Fw)|].
    split; [intros _; now apply (cut_at_other Bn Bw Fn Fw)|].
    intros _ _. now apply cut_at_first. }
  destruct (_ >? _)%Z; [|discriminate]. intros [= <-].
  split; [now apply cut_nowhere|].
  split; intros; now apply cut_nowhere.
Qed.

(** X11.  The candidate strategy 3 returns never contains the word
    "References" (in any case, between word boundaries).  It contains no
    "Bibliography" either when the flattened text had no "References",
    and no "Footnotes" when the flattened text had neither of the two.
    The same holds of [extract_method3_fallback] on any parsed page. *)
Theorem X11_method3_no_marker_left (soup : node) (text candidate : str) :
  (method3_text text = Some candidate ->
   absent (lit "References") candidate /\
   (absent (lit "References") text ->
    absent (lit "Bibliography") candidate) /\
   (absent (lit "References") text -> absent (lit "Bibliography") text ->
    absent (lit "Footnotes") candidate)) /\
  (fst (extract_method3_fallback soup) = Some candidate ->
   absent (lit "References") candidate).
Proof.
  split; [apply method3_text_absent|].
  unfold extract_method3_fallback.
  destruct (orelse _ _) as [article|]; [|discriminate].
  cbn [fst]. intro H. now apply method3_text_absent in H.
Qed.

Lemma X11_method3_no_marker_left_witness :
  method3_text Examples.footnotes_first
  = Some (repeat "x"%char 600 ++ lit " Footnotes 1") /\
  absent (lit "References") (repeat "x"%char 600 ++ lit " Footnotes 1").
Proof.
  assert (M : method3_text Examples.footnotes_first
              = Some (repeat "x"%char 600 ++ lit " Footnotes 1"))
    by (vm_compute; reflexivity).
  split; [exact M|].
  exact (proj1 (proj1 (X11_method3_no_marker_left
                         (Examples.document []) _ _) M)).
Defined.

(* ------------------------------------------------------------------ *)
(** ** The language-model client *)

Lemma chat_attempts_log (api : service) (content : str) (backoff_factor : Z)
  (left : nat) :
  forall (attempt calls : nat),
  let r := fst (chat_attempts api content backoff_factor left attempt calls) in
  let log := snd (chat_attempts api content backoff_factor left attempt calls) in
  api_calls log <= left /\
  (exists k,
     sleeps log = map (fun i => (backoff_factor ^ Z.of_nat i)%Z) (seq attempt k) /\
     k <= api_calls log /\
     (forall i, i < k -> api (calls + i) = ApiError (Some 429%Z)) /\
     (k = left -> r = Return None /\ api_calls log = left)) /\
  Forall (fun e => match e with ApiCall c => c = content | Sleep _ => True end)
    log /\
  (forall c, r = Return (Some c) ->
     0 < api_calls log /\
     api (calls + (api_calls log - 1)) = Completion (Some c)).
Proof.
  induction left as [|left IH]; intros attempt calls; cbn zeta.
  - cbn. split; [lia|]. split; [|split].
    + exists 0. cbn. repeat split; auto. intros i Hi. lia.
    + constructor.
    + discriminate.
  - cbn [chat_attempts].
    assert (One : forall r : outcome (option str),
               (forall c, r = Return (Some c) ->
                  api calls = Completion (Some c)) ->
               api calls <> ApiError (Some 429%Z) \/ r <> Return None ->
               api_calls [ApiCall content] <= S left /\
               (exists k,
                  sleeps [ApiCall content]
                  = map (fun i => (backoff_factor ^ Z.of_nat i)%Z)
                      (seq attempt k) /\
                  k <= api_calls [ApiCall content] /\
                  (forall i, i < k -> api (calls + i) = ApiError (Some 429%Z)) /\
                  (k = S left ->
                   r = Return None /\ api_calls [ApiCall content] = S left)) /\
               Forall (fun e => match e with
                                | ApiCall c => c = content
                                | Sleep _ => True
                                end) [ApiCall content] /\
               (forall c, r = Return (Some c) ->
                  0 < api_calls [ApiCall content] /\
                  api (calls + (api_calls [ApiCall content] - 1))
                  = Completion (Some c))).
    { intros r Hr Hk. cbn. split; [lia|]. split; [|split].
      - exists 0. cbn. repeat split; auto; intros; lia.
      - repeat constructor.
      - intros c Hc. split; [lia|]. rewrite Nat.add_0_r. now apply Hr. }
    destruct (api calls) as [c|[code|]|e] eqn:A.
    + apply One; [intros c' [= ->]; reflexivity|left; discriminate].
    + destruct (Z.eqb_spec code 429) as [->|Hcode].
      * destruct (Z.ltb_spec (backoff_factor ^ Z.of_nat attempt) 0).
        -- apply One; [discriminate|right; discriminate].
        -- specialize (IH (S attempt) (S calls)). cbn zeta in IH.
           destruct (chat_attempts api content backoff_factor left
                       (S attempt) (S calls)) as [r log].
           cbn [fst snd] in *.
           destruct IH as (Hcalls & (k & Hs & Hk & Hall & Hfull) & Hcont & Hret).
           change (api_calls (ApiCall content :: Sleep
                     (backoff_factor ^ Z.of_nat attempt) :: log))
             with (S (api_calls log)).
           split; [lia|]. split; [|split].
           ++ exists (S k). cbn [seq map]. split; [|split; [lia|split]].
              ** unfold sleeps. cbn [flat_map app]. fold (sleeps log).
                 now rewrite Hs.
              ** intros [|i] Hi; [now rewrite Nat.add_0_r|].
                 rewrite <- Nat.add_succ_comm. apply Hall. lia.
              ** intros [= ->]. destruct (Hfull eq_refl) as [-> ->]. auto.
           ++ constructor; [reflexivity|]. constructor; [exact I|assumption].
           ++ intros c Hc. destruct (Hret c Hc) as [Hpos Hapi].
              split; [lia|].
              replace (calls + (S (api_calls log) - 1))
                with (S calls + (api_calls log - 1)) by lia.
              exact Hapi.
      * apply One; [discriminate|left; congruence].
    + apply One; [discriminate|right; discriminate].
    + apply One; [discriminate|right; discriminate].
Qed.




Lemma api_calls_app (a b : list llm_event) :
  api_calls (a ++ b) = api_calls a + api_calls b.
Proof. unfold api_calls. now rewrite filter_app, length_app. Qed.

Lemma sleep_in_sleeps (log : list llm_event) (s : Z) :
  In (Sleep s) log -> In s (sleeps log).
Proof.
  intro H. unfold sleeps. apply in_flat_map. exists (Sleep s).
  split; [assumption|now left].
Qed.

(** One call of [chat_completion] with the default arguments. *)
Lemma chat_completion_default (api : service) (calls : nat) (content : str) :
  let log := snd (chat_completion api calls content 3 2) in
  api_calls log <= 3 /\
  Forall (fun e => match e with
                   | ApiCall c => c = content
                   | Sleep s => In s [1; 2; 4]%Z
                   end) log.
Proof.
  cbn zeta. unfold chat_completion.
  change (Z.to_nat 3) with 3.
  pose proof (chat_attempts_log api content 2 3 0 calls) as H.
  cbn zeta in H. destruct H as (Hcalls & (k & Hs & Hk & _) & Hcont & _).
  split; [exact Hcalls|].
  apply Forall_forall. intros [c|s] Hin.
  - rewrite Forall_forall in Hcont. exact (Hcont _ Hin).
  - apply sleep_in_sleeps in Hin. rewrite Hs in Hin.
    assert (Hk3 : k <= 3) by lia.
    destruct k as [|[|[|[|k]]]]; [| | | |lia]; cbn in Hin; cbn; tauto.
Qed.

Lemma process_prompts_returns (api : service) (input_text : str)
  (prompts : list str) :
  forall (calls : nat) (responses : list str),
  fst (process_prompts api calls input_text prompts) = Return responses ->
  let log := snd (process_prompts api calls input_text prompts) in
  length responses <= length prompts /\
  Forall (fun r => r <> []) responses /\
  api_calls log <= 3 * length prompts /\
  Forall (fun e => match e with
                   | ApiCall c =>
                       exists p, In p prompts /\
                         c = replace (lit "[Extracted text]") input_text p
                   | Sleep s => In s [1; 2; 4]%Z
                   end) log.
Proof.
  induction prompts as [|p prompts IH]; intros calls responses.
  - cbn. intros [= <-]. repeat split; auto.
  - cbn [process_prompts].
    pose proof (chat_completion_default api calls
                  (replace (lit "[Extracted text]") input_text p))
      as [Hc Hev].
    destruct (chat_completion api calls _ 3 2) as [[response|e] log];
      [|discriminate].
    cbn [snd] in Hc, Hev.
    specialize (IH (calls + api_calls log)).
    destruct (process_prompts api (calls + api_calls log) input_text prompts)
      as [[rest|e] log']; [|discriminate].
    cbn [fst snd] in *. destruct (IH rest eq_refl) as (Hl & Hne & Hcalls & Hlog).
    intros [= <-]. split; [|split; [|split]].
    + destruct response as [[|c r]|]; simpl; lia.
    + destruct response as [[|c r]|]; auto.
      constructor; [discriminate|assumption].
    + rewrite api_calls_app. simpl length. lia.
    + apply Forall_app. split.
      * eapply Forall_impl; [|exact Hev].
        intros [c|s] H; [|exact H]. exists p. split; [now left|exact H].
      * eapply Forall_impl; [|exact Hlog].
        intros [c|s] H; [|exact H].
        destruct H as (q & Hq & ->). exists q. split; [now right|reflexivity].
Qed.

(** X13.  When [process_input] returns, it returns at most one response
    per prompt, in the order of the prompts, and none of them is empty:
    an answer that is None or empty is left out, so fewer responses than
    prompts means that a prompt failed.  It makes at most three calls per
    prompt, each with the prompt in which "[Extracted text]" is replaced
    by the input text, and it waits 1, 2 or 4 seconds only. *)
Theorem X13_process_input_responses (api : service) (input_text : str)
  (prompts responses : list str) :
  fst (process_input api input_text prompts) = Return responses ->
  let log := snd (process_input api input_text prompts) in
  length responses <= length prompts /\
  Forall (fun r => r <> []) responses /\
  api_calls log <= 3 * length prompts /\
  Forall (fun e => match e with
                   | ApiCall c =>
                       exists p, In p prompts /\
                         c = replace (lit "[Extracted text]") input_text p
                   | Sleep s => In s [1; 2; 4]%Z
                   end) log.
Proof. apply process_prompts_returns. Qed.

Lemma X13_process_input_responses_witness :
  fst (process_input
         (fun i => match i with
                   | 0 => ApiError (Some 429%Z)
                   | 1 => Completion (Some (lit "cohort"))
                   | 2 => Completion None
                   | _ => Completion (Some (lit "table"))
                   end)
         (lit "TEXT")
         [lit "Read [Extracted text] now"; lit "More"; lit "Format"])
  = Return [lit "cohort"; lit "table"] /\
  length [lit "cohort"; lit "table"]
  <= length [lit "Read [Extracted text] now"; lit "More"; lit "Format"].
Proof.
  assert (H : fst (process_input
         (fun i => match i with
                   | 0 => ApiError (Some 429%Z)
                   | 1 => Completion (Some (lit "cohort"))
                   | 2 => Completion None
                   | _ => Completion (Some (lit "table"))
                   end)
         (lit "TEXT")
         [lit "Read [Extracted text] now"; lit "More"; lit "Format"])
  = Return [lit "cohort"; lit "table"]) by (vm_compute; reflexivity).
  split; [exact H|].
  exact (proj1 (X13_process_input_responses _ _ _ H)).
Defined.

(* ------------------------------------------------------------------ *)
(** ** Reading the identifiers *)

(** X14.  Every identifier [read_pmid_from_txt] returns is not empty and
    has no white space at either end; there are at most as many as
    lines, the blank lines being dropped; and a file that is missing or
    cannot be read gives the empty list. *)
Theorem X14_read_pmid_from_txt (file : file_read) :
  Forall (fun p => p <> [] /\ strip p = p /\
                   starts_with_space p = false /\
                   forall c, last_opt p = Some c -> is_space c = false)
    (read_pmid_from_txt file) /\
  match file with
  | Lines lines =>
      length (read_pmid_from_txt file) <= length lines /\
      (forall line, In line lines -> all_space line ->
         ~ In (strip line) (read_pmid_from_txt file)) /\
      (forall line, In line lines -> ~ all_space line ->
         In (strip line) (read_pmid_from_txt file))
  | _ => read_pmid_from_txt file = []
  end.
Proof.
  assert (G : forall p lines,
             In p (map strip (filter (fun line => truthy (strip line)) lines))
             -> p <> []).
  { intros p lines Hin. apply in_map_iff in Hin.
    destruct Hin as (line & <- & Hl). apply filter_In in Hl.
    destruct Hl as [_ Hl]. destruct (strip line); [discriminate|discriminate]. }
  destruct file as [lines| |m]; cbn [read_pmid_from_txt];
    try (split; [constructor|reflexivity]).
  split; [|split; [|split]].
  - apply Forall_forall. intros p Hin. split; [now apply (G p lines)|].
    apply in_map_iff in Hin. destruct Hin as (line & <- & _).
    split; [apply strip_strip|].
    split; [apply strip_starts|apply strip_last].
  - rewrite length_map. apply filter_length_le.
  - intros line _ Hsp Hin. apply G in Hin.
    now rewrite strip_spaces in Hin.
  - intros line Hin Hnsp. apply in_map, filter_In. split; [assumption|].
    destruct (strip line) eqn:E; [|reflexivity].
    exfalso. apply Hnsp. destruct (strip_split line) as (a & b & Et & Ha & Hb).
    rewrite E in Et. cbn [app] in Et. rewrite Et. now apply Forall_app.
Qed.

Lemma X14_read_pmid_from_txt_witness :
  In (lit "12345" ++ [LF]) [lit "12345" ++ [LF]; [LF]] /\
  ~ all_space (lit "12345" ++ [LF]) /\
  In (strip (lit "12345" ++ [LF]))
    (read_pmid_from_txt (Lines [lit "12345" ++ [LF]; [LF]])).
Proof.
  assert (Hin : In (lit "12345" ++ [LF]) [lit "12345" ++ [LF]; [LF]])
    by (now left).
  assert (Hns : ~ all_space (lit "12345" ++ [LF]))
    by (intro H; inversion H as [|? ? Hc _]; discriminate Hc).
  split; [exact Hin|]. split; [exact Hns|].
  destruct (X14_read_pmid_from_txt (Lines [lit "12345" ++ [LF]; [LF]]))
    as (_ & _ & _ & H).
  exact (H _ Hin Hns).
Defined.

(* ------------------------------------------------------------------ *)
(** ** Dictionaries *)

Lemma str_eqb_eq (a b : str) : str_eqb a b = true <-> a = b.
Proof.
  revert b. induction a as [|x a IH]; intros [|y b]; simpl;
    try (split; [discriminate|discriminate]); [tauto|].
  rewrite andb_true_iff, ascii_eqb_eq, IH. split.
  - intros [-> ->]. reflexivity.
  - intros [= -> ->]. auto.
Qed.

Lemma str_eqb_refl (a : str) : str_eqb a a = true.
Proof. now apply str_eqb_eq. Qed.

Lemma str_eqb_neq (a b : str) : a <> b -> str_eqb a b = false.
Proof.
  intro H. destruct (str_eqb a b) eqn:E; [|reflexivity].
  apply str_eqb_eq in E. contradiction.
Qed.

Lemma dict_set_keys {V : Type} (d : dict V) (key : str) (v : V) :
  In key (dict_keys d) -> dict_keys (dict_set d key v) = dict_keys d.
Proof.
  induction d as [|[k x] d IH]; simpl; [contradiction|].
  intros [->|Hin].
  - now rewrite str_eqb_refl.
  - destruct (str_eqb k key); simpl; [reflexivity|]. f_equal. now apply IH.
Qed.

Lemma dict_get_set_other {V : Type} (d : dict V) (key key' : str) (v : V) :
  key <> key' -> dict_get (dict_set d key v) key' = dict_get d key'.
Proof.
  intro Hne. induction d as [|[k x] d IH]; simpl.
  - now rewrite str_eqb_neq.
  - destruct (str_eqb k key) eqn:E; simpl.
    + apply str_eqb_eq in E. subst k. now rewrite str_eqb_neq.
    + destruct (str_eqb k key'); [reflexivity|assumption].
Qed.

Lemma dict_get_set_same {V : Type} (d : dict V) (key : str) (v : V) :
  dict_get (dict_set d key v) key = Some v.
Proof.
  induction d as [|[k x] d IH]; simpl.
  - now rewrite str_eqb_refl.
  - destruct (str_eqb k key) eqn:E; simpl; rewrite E; [reflexivity|assumption].
Qed.

(** What [store] does: it sets the first field whose name the label
    contains, and nothing when there is none. *)
Lemma store_cases (fields : list str) (field value : str) (d : dict str) :
  (store fields field value d = d /\
   forall f, In f fields -> contains f field = false) \/
  (exists f, In f fields /\ contains f field = true /\
             store fields field value d = dict_set d f value).
Proof.
  induction fields as [|f fields IH]; simpl.
  - left. split; [reflexivity|]. intros f [].
  - destruct (contains f field) eqn:E.
    + right. exists f. auto.
    + destruct IH as [[Hs Hall]|(g & Hg & Hc & Hs)].
      * left. split; [assumption|]. intros g [<-|Hg]; auto.
      * right. exists g. auto.
Qed.

Lemma store_keys (fields : list str) (field value : str) (d : dict str) :
  (forall f, In f fields -> In f (dict_keys d)) ->
  dict_keys (store fields field value d) = dict_keys d.
Proof.
  intro H. destruct (store_cases fields field value d)
    as [[-> _]|(f & Hf & _ & ->)]; [reflexivity|].
  apply dict_set_keys. now apply H.
Qed.

Lemma fold_left_invariant {A B : Type} (P : A -> Prop) (step : A -> B -> A)
  (l : list B) :
  forall a, P a -> (forall a x, In x l -> P a -> P (step a x)) ->
  P (fold_left step l a).
Proof.
  induction l as [|x l IH]; intros a Ha Hstep; simpl; [assumption|].
  apply IH.
  - apply Hstep; [now left|assumption].
  - intros b y Hy. apply Hstep. now right.
Qed.

Lemma new_record_keys (pmid : str) :
  dict_keys (new_record sample_fields pmid) = sample_fields /\
  dict_keys (new_record model_fields pmid) = model_fields.
Proof. split; reflexivity. Qed.

Lemma new_record_values (pmid key : str) :
  (In key sample_fields ->
   key <> lit "PMID" -> dict_get (new_record sample_fields pmid) key = Some []) /\
  (In key model_fields ->
   key <> lit "PMID" -> dict_get (new_record model_fields pmid) key = Some []).
Proof.
  split; intros Hin Hne;
    unfold new_record; rewrite dict_get_set_other by congruence;
    simpl in Hin;
    repeat (destruct Hin as [<-|Hin]; [reflexivity || contradiction|]);
    contradiction.
Qed.

(* ------------------------------------------------------------------ *)
(** ** The sample table *)

(** X15.  The record [extract_sample_data] returns always has the 26
    sample fields as its keys, in their order, whatever the response.
    A field other than PMID is empty, or holds the value of a line of
    the response whose label contains the name of the field.  PMID holds
    the identifier passed in, unless the label of some line of the
    response contains "PMID". *)
Theorem X15_extract_sample_data (response pmid : str) :
  let d := extract_sample_data response pmid in
  dict_keys d = sample_fields /\
  (forall key, In key sample_fields -> key <> lit "PMID" ->
     dict_get d key = Some [] \/
     exists line field value,
       In line (splitlines response) /\
       table_line (strip line) = Some (field, value) /\
       contains key field = true /\
       dict_get d key = Some value) /\
  ((forall line field value,
      In line (splitlines response) ->
      table_line (strip line) = Some (field, value) ->
      contains (lit "PMID") field = false) ->
   dict_get d (lit "PMID") = Some pmid).
Proof.
  intro d. subst d. unfold extract_sample_data.
  split; [|split].
  - apply fold_left_invariant.
    + apply new_record_keys.
    + intros a line _ Ha. destruct (table_line (strip line)) as [[f v]|];
        [|assumption].
      rewrite store_keys; [assumption|]. intros x Hx. now rewrite Ha.
  - intros key Hkey Hne.
    apply (fold_left_invariant
             (fun a =>
                dict_get a key = Some [] \/
                exists line field value,
                  In line (splitlines response) /\
                  table_line (strip line) = Some (field, value) /\
                  contains key field = true /\
                  dict_get a key = Some value)).
    + left. now apply new_record_values.
    + intros a line Hline Ha.
      destruct (table_line (strip line)) as [[f v]|] eqn:M; [|assumption].
      destruct (store_cases sample_fields f v a)
        as [[-> _]|(g & Hg & Hc & ->)]; [assumption|].
      destruct (str_eqb g key) eqn:E.
      * apply str_eqb_eq in E. subst g. right.
        exists line, f, v. rewrite dict_get_set_same. auto.
      * rewrite dict_get_set_other; [assumption|].
        intros ->. now rewrite str_eqb_refl in E.
  - intro Hno.
    apply (fold_left_invariant
             (fun a => dict_get a (lit "PMID") = Some pmid)).
    + reflexivity.
    + intros a line Hline Ha.
      destruct (table_line (strip line)) as [[f v]|] eqn:M; [|assumption].
      destruct (store_cases sample_fields f v a)
        as [[-> _]|(g & Hg & Hc & ->)]; [assumption|].
      rewrite dict_get_set_other; [assumption|].
      intros ->. rewrite (Hno line f v Hline M) in Hc. discriminate.
Qed.

Lemma X15_extract_sample_data_witness :
  (forall line field value,
     In line (splitlines (lit "1. Study Type   cohort")) ->
     table_line (strip line) = Some (field, value) ->
     contains (lit "PMID") field = false) /\
  dict_get (extract_sample_data (lit "1. Study Type   cohort") (lit "77"))
    (lit "PMID") = Some (lit "77") /\
  dict_get (extract_sample_data (lit "1. Study Type   cohort") (lit "77"))
    (lit "Study Type") = Some (lit "cohort").
Proof.
  assert (H : forall line field value,
             In line (splitlines (lit "1. Study Type   cohort")) ->
             table_line (strip line) = Some (field, value) ->
             contains (lit "PMID") field = false).
  { intros line field value [<-|[]]. vm_compute. intros [= <- _].
    reflexivity. }
  split; [exact H|]. split; [|vm_compute; reflexivity].
  exact (proj2 (proj2 (X15_extract_sample_data
                         (lit "1. Study Type   cohort") (lit "77"))) H).
Defined.

(* ------------------------------------------------------------------ *)
(** ** The model table *)

Lemma model_step_ok (pmid : str) (state : list (dict str) * dict str)
  (line : str) :
  models_ok state -> models_ok (model_step pmid state line).
Proof.
  destruct state as [l cur]. unfold models_ok, model_step. cbn [fst snd].
  intros [Hl Hcur].
  destruct (table_line (strip line)) as [[f v]|]; [|auto].
  destruct (contains (lit "Model Name") f &&
            truthy (dict_at cur (lit "Model Name"))) eqn:E; cbn [fst snd].
  - apply andb_prop in E. destruct E as [_ E]. split.
    + apply Forall_app. split; [assumption|].
      constructor; [|constructor]. split; [assumption|].
      intro H. rewrite H in E. discriminate.
    + rewrite store_keys; [reflexivity|]. intros x Hx. exact Hx.
  - split; [assumption|].
    rewrite store_keys; [assumption|]. intros x Hx. now rewrite Hcur.
Qed.

Lemma model_fold_ok (pmid : str) (lines : list str) :
  models_ok (fold_left (model_step pmid) lines
               ([], new_record model_fields pmid)).
Proof.
  apply fold_left_invariant.
  - split; [constructor|reflexivity].
  - intros a x _. apply model_step_ok.
Qed.

Lemma removelast_snoc {A : Type} (l : list A) (x : A) :
  removelast (l ++ [x]) = l.
Proof. rewrite removelast_app by discriminate. simpl. apply app_nil_r. Qed.

Lemma removelast_In {A : Type} (l : list A) (x : A) :
  In x (removelast l) -> In x l.
Proof.
  induction l as [|y l IH]; simpl; [auto|].
  destruct l as [|z l]; [intros []|].
  intros [->|H]; [now left|right; now apply IH].
Qed.

(** X16.  [extract_model_data] never returns an empty list.  Every
    record it returns has the 11 model fields as its keys, in their
    order, and every record but the last has a model name that is not
    empty.  When no line of the response is a table line, the result is
    the single empty record that holds the identifier. *)
Theorem X16_extract_model_data (response pmid : str) :
  let models := extract_model_data response pmid in
  models <> [] /\
  Forall (fun d => dict_keys d = model_fields) models /\
  Forall (fun d => dict_at d (lit "Model Name") <> []) (removelast models) /\
  ((forall line, In line (splitlines response) ->
      table_line (strip line) = None) ->
   models = [new_record model_fields pmid]).
Proof.
  intro models. subst models. unfold extract_model_data.
  pose proof (model_fold_ok pmid (splitlines response)) as Hok.
  assert (Hnone :
    (forall line, In line (splitlines response) ->
       table_line (strip line) = None) ->
    fold_left (model_step pmid) (splitlines response)
      ([], new_record model_fields pmid)
    = ([], new_record model_fields pmid)).
  { intro H.
    apply (fold_left_invariant
             (fun s => s = ([], new_record model_fields pmid)));
      [reflexivity|].
    intros a line Hline ->. unfold model_step. now rewrite (H line Hline). }
  destruct (fold_left (model_step pmid) (splitlines response)
              ([], new_record model_fields pmid)) as [l cur].
  destruct Hok as [Hl Hcur]. cbn [fst snd] in *.
  assert (Hkeys : Forall (fun d => dict_keys d = model_fields) l)
    by (eapply Forall_impl; [|exact Hl]; intros d [H _]; exact H).
  assert (Hnames : Forall (fun d => dict_at d (lit "Model Name") <> []) l)
    by (eapply Forall_impl; [|exact Hl]; intros d [_ H]; exact H).
  destruct (truthy (dict_at cur (lit "Model Name")) || existsb _ _) eqn:E.
  - destruct (l ++ [cur]) as [|d rest] eqn:El.
    + apply app_eq_nil in El. destruct El as [_ El]. discriminate.
    + rewrite <- El. split; [|split; [|split]].
      * rewrite El. discriminate.
      * apply Forall_app. split; [assumption|]. now constructor.
      * now rewrite removelast_snoc.
      * intro H. specialize (Hnone H). injection Hnone as -> ->.
        vm_compute in E. discriminate.
  - destruct l as [|d rest].
    + split; [discriminate|]. split; [|split].
      * constructor; [reflexivity|constructor].
      * constructor.
      * reflexivity.
    + split; [discriminate|]. split; [assumption|]. split.
      * apply Forall_forall. intros x Hx. apply removelast_In in Hx.
        rewrite Forall_forall in Hnames. now apply Hnames.
      * intro H. specialize (Hnone H). discriminate.
Qed.

Lemma X16_extract_model_data_witness :
  (forall line, In line (splitlines (lit "No table here.")) ->
     table_line (strip line) = None) /\
  extract_model_data (lit "No table here.") (lit "77")
  = [new_record model_fields (lit "77")].
Proof.
  assert (H : forall line, In line (splitlines (lit "No table here.")) ->
                table_line (strip line) = None).
  { intros line [<-|[]]. vm_compute. reflexivity. }
  split; [exact H|].
  exact (proj2 (proj2 (proj2 (X16_extract_model_data
                                (lit "No table here.") (lit "77")))) H).
Defined.

(** Two models in one answer: the second "Model Name" closes the first
    record. *)
Example extract_model_data_two_models :
  map (fun d => (dict_at d (lit "Model Name"), dict_at d (lit "AUC Values")))
    (extract_model_data
       (lit "1. Model Name   Alpha" ++ [LF] ++
        lit "2. AUC Values   0.81" ++ [LF] ++
        lit "3. Model Name   Beta" ++ [LF] ++
        lit "4. AUC Values   0.77")
       (lit "77"))
  = [(lit "Alpha", lit "0.81"); (lit "Beta", lit "0.77")].
Proof. vm_compute. reflexivity. Qed.

(* ------------------------------------------------------------------ *)
(** ** The two classifiers never agree *)

Lemma startswith_app (p t : str) :
  startswith p t = true <-> exists rest, t = p ++ rest.
Proof.
  revert t. induction p as [|c p IH]; intros t; simpl.
  - split; [intros _; now exists t|reflexivity].
  - destruct t as [|d t].
    + split; [discriminate|]. intros [rest H]. discriminate H.
    + rewrite andb_true_iff, ascii_eqb_eq, IH. split.
      * intros [-> [rest ->]]. now exists rest.
      * intros [rest [= -> ->]]. split; [reflexivity|now exists rest].
Qed.

Lemma app_eq_compatible (a x b y : str) :
  a ++ x = b ++ y -> compatible a b = true.
Proof.
  intro H. unfold compatible. apply orb_true_iff.
  apply app_eq_app in H. destruct H as [l [[-> _]|[-> _]]].
  - right. apply startswith_app. now exists l.
  - left. apply startswith_app. now exists l.
Qed.

(** A pattern that begins with [^] and a literal matches only text
    that begins with the literal, up to case. *)
Lemma match_head (r : re) (l t : str) :
  head_of r = Some l ->
  is_some (re_match true r t) = true ->
  exists rest, lower t = lower l ++ rest.
Proof.
  destruct r as [| | | | |a b| | | |]; try discriminate.
  destruct a; try discriminate. destruct b as [| | | | |a b| | | |];
    try discriminate.
  destruct a; try discriminate. cbn [head_of]. intros [= ->].
  unfold re_match, match_at. cbn [run].
  destruct (run_lit true l None t) as [[p' t']|] eqn:E; [|discriminate].
  intros _. apply run_lit_spec in E. destruct E as (m & -> & Hm & _).
  exists (lower t'). unfold lower in *. now rewrite map_app, Hm.
Qed.

Lemma tables_apart :
  heads_apart EXCLUDE_SECTION_PATTERNS MAIN_CONTENT_PATTERNS = true.
Proof. vm_compute. reflexivity. Qed.

(** X17.  No title is classified both as excluded and as main content:
    the order in which the loop of strategy 2 asks the two questions
    does not matter. *)
Theorem X17_classifiers_exclusive (title : str) :
  is_exclude_section title = true -> is_main_content_section title = false.
Proof.
  unfold is_exclude_section, is_main_content_section.
  destruct title as [|c title]; [discriminate|]. cbn [truthy negb].
  set (t := lower (strip (c :: title))). unfold any_match.
  intro He. apply existsb_exists in He. destruct He as (e & Hein & He).
  destruct (existsb _ MAIN_CONTENT_PATTERNS) eqn:Hm; [|reflexivity].
  apply existsb_exists in Hm. destruct Hm as (m & Hmin & Hm).
  pose proof tables_apart as T. unfold heads_apart in T.
  rewrite forallb_forall in T. specialize (T e Hein).
  rewrite forallb_forall in T. specialize (T m Hmin).
  destruct (head_of e) as [a|] eqn:Ea; [|discriminate].
  destruct (head_of m) as [b|] eqn:Eb; [|discriminate].
  destruct (match_head e t Ea He) as [x Hx].
  destruct (match_head m t Eb Hm) as [y Hy].
  rewrite Hx in Hy. apply app_eq_compatible in Hy.
  rewrite Hy in T. discriminate.
Qed.

Lemma X17_classifiers_exclusive_witness :
  is_exclude_section (lit "Funding") = true /\
  is_main_content_section (lit "Funding") = false.
Proof.
  assert (H : is_exclude_section (lit "Funding") = true)
    by (vm_compute; reflexivity).
  split; [exact H|]. exact (X17_classifiers_exclusive (lit "Funding") H).
Defined.

(* ------------------------------------------------------------------ *)
(** ** Normalization does not lengthen *)

Section Groups.

Variable ic : bool.
Variable A : Type.

(** When the matcher succeeds, the continuation succeeded on a shorter
    rest, with the groups the pattern does not have left as they were. *)
Lemma run_reaches_groups (r : re) :
  forall (prev : option ascii) (t : str) (g : caps) (k : kont A) (x : A),
  run ic r prev t g k = Some x ->
  exists p t' g',
    k p t' g' = Some x /\
    length t' + min_len r <= length t /\
    forall i, ~ In i (groups_of r) -> group g' i = group g i.
Proof.
  induction r as [l|p| | | |a IHa b IHb|a IHa b IHb|a IHa|n p|i a IHa];
    intros prev t g k x; cbn [run min_len groups_of].
  - destruct (run_lit ic l prev t) as [[p' t']|] eqn:E; [|discriminate].
    intro H. apply run_lit_length in E. exists p', t', g.
    repeat split; [assumption|lia].
  - destruct t as [|c t]; [discriminate|].
    destruct (cls_test ic p c); [|discriminate].
    intro H. exists (Some c), t, g. simpl. repeat split; [assumption|lia].
  - destruct prev; [discriminate|]. intro H. exists None, t, g.
    repeat split; [assumption|lia].
  - destruct (at_eol t); [|discriminate]. intro H. exists prev, t, g.
    repeat split; [assumption|lia].
  - destruct (at_wordb prev t); [|discriminate]. intro H. exists prev, t, g.
    repeat split; [assumption|lia].
  - intro H. apply IHa in H. destruct H as (p1 & t1 & g1 & H & L1 & G1).
    apply IHb in H. destruct H as (p2 & t2 & g2 & H & L2 & G2).
    exists p2, t2, g2. repeat split; [assumption|lia|].
    intros i Hi. rewrite G2, G1; [reflexivity| |];
      intro X; apply Hi, in_or_app; auto.
  - destruct (run ic a prev t g k) as [y|] eqn:E.
    + intros [= ->]. apply IHa in E.
      destruct E as (p1 & t1 & g1 & H & L1 & G1).
      exists p1, t1, g1. repeat split; [assumption|lia|].
      intros i Hi. apply G1. intro X. apply Hi, in_or_app. auto.
    + intro H. apply IHb in H. destruct H as (p1 & t1 & g1 & H & L1 & G1).
      exists p1, t1, g1. repeat split; [assumption|lia|].
      intros i Hi. apply G1. intro X. apply Hi, in_or_app. auto.
  - destruct (run ic a prev t g k) as [y|] eqn:E.
    + intros [= ->]. apply IHa in E.
      destruct E as (p1 & t1 & g1 & H & L1 & G1).
      exists p1, t1, g1. repeat split; [assumption|lia|assumption].
    + intro H. exists prev, t, g. repeat split; [assumption|lia].
  - intro H. apply run_rep_reaches in H. destruct H as (p1 & t1 & H & L1).
    exists p1, t1, g. repeat split; assumption.
  - intro H. apply IHa in H. destruct H as (p1 & t1 & g1 & H & L1 & G1).
    eexists p1, t1, _. split; [exact H|]. split; [assumption|].
    intros j Hj. cbn [group].
    destruct (Nat.eqb_spec j i) as [->|Hne].
    + exfalso. apply Hj. now left.
    + apply G1. intro X. apply Hj. now right.
Qed.

End Groups.

Lemma consumed_length (t t' : str) :
  length (consumed t t') = length t - length t'.
Proof. unfold consumed. rewrite length_firstn. lia. Qed.

(** A substitution whose replacement is never longer than what it
    replaces does not lengthen the text. *)
Lemma sub_from_length (ic : bool) (r : re) (tpl : list piece) :
  (forall prev t rest g,
     match_at ic r prev t = Some (rest, g) ->
     length (expand tpl g) <= length t - length rest) ->
  forall (t : str) (prev : option ascii) (skip : nat),
  length (sub_from ic r tpl prev t skip) <= length t - skip.
Proof.
  intro H. induction t as [|c t IH]; intros prev skip.
  - destruct skip; simpl; lia.
  - destruct skip as [|n]; cbn [sub_from].
    + destruct (match_at ic r prev (c :: t)) as [[rest g]|] eqn:M.
      * destruct (length (c :: t) - length rest) as [|n] eqn:E.
        -- simpl. specialize (IH (Some c) 0). lia.
        -- apply H in M. rewrite E in M. rewrite length_app.
           assert (Hn : n <= length t) by (cbn [length] in E; lia).
           specialize (IH (Some c) n). cbn [length]. lia.
      * simpl. specialize (IH (Some c) 0). lia.
    + specialize (IH (Some c) n). simpl. lia.
Qed.

Lemma re_sub_length (ic : bool) (r : re) (tpl : list piece) (t : str) :
  (forall prev t rest g,
     match_at ic r prev t = Some (rest, g) ->
     length (expand tpl g) <= length t - length rest) ->
  length (re_sub ic r tpl t) <= length t.
Proof.
  intro H. unfold re_sub.
  pose proof (sub_from_length ic r tpl H t None 0). lia.
Qed.

Lemma re_sub_delete_length (ic : bool) (r : re) (t : str) :
  length (re_sub ic r [] t) <= length t.
Proof. apply re_sub_length. intros. simpl. lia. Qed.

(** The caption pass: the replacement is the word of the caption and a
    space, the match holds at least a digit after the word. *)
Lemma figure_table_shrinks (prev : option ascii) (t rest : str) (g : caps) :
  match_at true FIGURE_TABLE prev t = Some (rest, g) ->
  length (expand [PGroup 1; PText (lit " ")] g) <= length t - length rest.
Proof.
  unfold match_at.
  change (run true FIGURE_TABLE prev t [] (@accept))
    with (run true (Alt (L "Figure") (L "Table")) prev t []
            (fun p t1 g1 =>
               run true
                 (ws0 ;; Rep 1 CDigit ;; Opt (L ".") ;; ws0 ;;
                  Opt (Grp 2 (L "Open in a new tab")))
                 p t1 ((1, consumed t t1) :: g1) (@accept))).
  intro H. apply run_reaches_groups in H.
  destruct H as (p1 & t1 & g1 & H & L1 & _).
  apply run_reaches_groups in H.
  destruct H as (p2 & t2 & g2 & H & L2 & G2).
  unfold accept in H. injection H as -> ->.
  cbn [expand flat_map]. rewrite app_nil_r, length_app.
  rewrite G2 by (vm_compute; intuition discriminate).
  cbn [group Nat.eqb]. rewrite consumed_length.
  change (length (lit " ")) with 1.
  assert (M : 1 <= min_len
                (ws0 ;; Rep 1 CDigit ;; Opt (L ".") ;; ws0 ;;
                 Opt (Grp 2 (L "Open in a new tab"))))
    by (vm_compute; lia).
  lia.
Qed.

Lemma strip_length (t : str) : length (strip t) <= length t.
Proof.
  unfold strip, rstrip. rewrite length_rev.
  pose proof (lstrip_length (rev (lstrip t))) as H1.
  pose proof (lstrip_length t) as H2. rewrite length_rev in H1. lia.
Qed.

(** X18.  [clean_text_v2] never returns a text longer than the one it
    is given; so the character count of a record is at most the length
    of the candidate the strategy produced. *)
Theorem X18_clean_text_v2_shrinks (text : str) :
  length (clean_text_v2 text) <= length text /\
  forall id st m sections,
    (char_count (extracted id st m text sections) <= len text)%Z.
Proof.
  assert (G : length (clean_text_v2 text) <= length text).
  { destruct text as [|c text]; [reflexivity|].
    rewrite clean_text_v2_squeeze by discriminate. unfold squeeze.
    set (t0 := c :: text).
    eapply Nat.le_trans; [apply strip_length|].
    eapply Nat.le_trans.
    { apply re_sub_length. intros prev t rest g M.
      apply match_at_consumes in M. cbn in M. cbn. lia. }
    eapply Nat.le_trans.
    { apply re_sub_length. intros prev t rest g M.
      apply match_at_consumes in M. cbn in M. cbn. lia. }
    eapply Nat.le_trans.
    { apply re_sub_length. apply figure_table_shrinks. }
    eapply Nat.le_trans; [apply re_sub_delete_length|].
    eapply Nat.le_trans; [apply re_sub_delete_length|].
    apply re_sub_delete_length. }
  split; [exact G|]. intros id st m sections. cbn. unfold len. lia.
Qed.

(* ------------------------------------------------------------------ *)
(** ** The clean-up pass of strategy 3 *)

(** Induction on a parsed tree, with the property known of every child. *)
Lemma node_induction (P : node -> Prop) :
  (forall t, P (Text t)) ->
  (forall name classes id children,
     Forall P children -> P (Tag name classes id children)) ->
  forall n, P n.
Proof.
  intros HT HG. fix IH 1. intros [t|name classes id children].
  - apply HT.
  - apply HG. induction children as [|c cs IHcs]; constructor.
    + apply IH.
    + exact IHcs.
Qed.

Lemma named_decompose_all (names : list string) (bad : node -> bool)
  (n : node) :
  named names (decompose_all bad n) = named names n.
Proof. destruct n; reflexivity. Qed.

(** X19.  After the pass that decomposes the elements named in a list,
    no element of these names is left at any depth: the article
    strategy 3 reads holds no script, style, nav, footer, header or
    aside element. *)
Theorem X19_decompose_all_removes (names : list string) (n : node) :
  find_all (named names) (decompose_all (named names) n) = [].
Proof.
  unfold find_all. induction n as [t|name classes id children IH]
    using node_induction; [reflexivity|].
  cbn [decompose_all descendants].
  induction children as [|c cs IHcs]; [reflexivity|].
  inversion IH as [|? ? Hc Hcs]; subst.
  destruct (named names c) eqn:Ec.
  - now apply IHcs.
  - cbn [flat_map]. rewrite filter_app. cbn [filter].
    rewrite named_decompose_all, Ec, Hc. cbn [app]. now apply IHcs.
Qed.

(* ------------------------------------------------------------------ *)
(** * The functions with their prints *)

(** ** Strategy 2 *)

(** The loop of strategy 2 prints once, when it stops at an excluded
    heading; if that print returns, the loop returns what it has
    collected. *)
Lemma method2_loop_prints (c : Console.console) (hs : list heading_view)
  (start_found : bool) (cp sf : list str) :
  Console.method2_loop c hs start_found cp sf =
    match Console.first_error c (Console.method2_prints hs) with
    | Some e => Console.Exn (Console.MarkupError e)
    | None => Console.Value (method2_loop hs start_found cp sf)
    end.
Proof.
  revert start_found cp sf.
  induction hs as [|[h sib] hs IH]; intros start_found cp sf;
    [reflexivity|].
  unfold Console.method2_prints.
  cbn [Console.method2_loop method2_loop List.find].
  unfold excluded_heading at 1, heading_text at 1. cbn [fst].
  destruct (is_exclude_section (get_text [] h)).
  - cbn [Console.first_error].
    destruct (Console.console_print c _); reflexivity.
  - fold (Console.method2_prints hs).
    destruct (if is_main_content_section (get_text [] h)
              then true else start_found); apply IH.
Qed.

(** C5, as amended.  Over any sequence of headings, strategy 2 looks
    only at the headings before the first one classified as excluded,
    wherever that one stands; among these it collects nothing before the
    first heading classified as main-content and everything from that
    heading on.  When the scan ends at an excluded heading, the text of
    that heading is printed: the loop returns what it has collected if
    the print returns, and raises the error of the print otherwise.  So
    collection stops at the first excluded heading whether or not it has
    begun, and whenever an excluded heading comes before every
    main-content heading, the loop that returns has collected nothing. *)
Theorem C5_method2_collection
  (c : Console.console) (headings : list heading_view) :
  let collected :=
    from_first main_heading (before_first excluded_heading headings) in
  let found := (flat_map heading_part collected, map heading_text collected) in
  Console.method2_loop c headings false [] []
  = match List.find excluded_heading headings with
    | Some e =>
        match Console.console_print c (Console.StoppedAt (heading_text e)) with
        | Some m => Console.Exn (Console.MarkupError m)
        | None => Console.Value found
        end
    | None => Console.Value found
    end /\
  (forall pre e post,
     headings = pre ++ e :: post ->
     excluded_heading e = true ->
     (forall h, In h pre -> main_heading h = false) ->
     found = ([], []) /\
     forall r,
       Console.method2_loop c headings false [] [] = Console.Value r ->
       r = ([], []) /\ method2_result r = (None, [])).
Proof.
  intros collected found.
  assert (E : Console.method2_loop c headings false [] []
              = match List.find excluded_heading headings with
                | Some e =>
                    match Console.console_print c
                            (Console.StoppedAt (heading_text e)) with
                    | Some m => Console.Exn (Console.MarkupError m)
                    | None => Console.Value found
                    end
                | None => Console.Value found
                end).
  { rewrite method2_loop_prints, method2_loop_waiting. cbn [app].
    unfold Console.method2_prints.
    destruct (List.find excluded_heading headings) as [e|];
      cbn [Console.first_error]; [|reflexivity].
    destruct (Console.console_print c _); reflexivity. }
  split; [exact E|].
  intros pre e post Hh He Hpre.
  assert (F : found = ([], [])).
  { subst found collected. rewrite Hh.
    now rewrite before_first_excluded_early. }
  split; [exact F|].
  intros r Hr. rewrite E in Hr.
  assert (R : r = found).
  { destruct (List.find excluded_heading headings);
      [destruct (Console.console_print c _); [discriminate|]|];
      now injection Hr. }
  rewrite R, F. split; reflexivity.
Qed.

(** The funding statement of [Examples.funding_first] ends the loop
    before the abstract is reached, and nothing is collected; the
    availability statement of [Console.tagged_heading] ends it with the
    error of its print. *)
Lemma C5_method2_collection_witness :
  excluded_heading
    (Examples.elem "h2" [Text (lit "Funding")],
     [Examples.elem "p" [Text (lit "None.")]]) = true /\
  Console.method2_loop Console.strict Examples.funding_first false [] []
  = Console.Value ([], []) /\
  Console.method2_loop Console.strict Console.tagged_heading false [] []
  = Console.Exn
      (Console.MarkupError (lit "closing tag '[/]' has nothing to close")).
Proof.
  assert (He : excluded_heading
                 (Examples.elem "h2" [Text (lit "Funding")],
                  [Examples.elem "p" [Text (lit "None.")]]) = true)
    by (vm_compute; reflexivity).
  split; [exact He|]. split.
  - destruct (C5_method2_collection Console.strict Examples.funding_first)
      as [E H].
    destruct (H [] _ _ eq_refl He) as [F _]; [intros h []|].
    rewrite E, F. reflexivity.
  - exact (proj1 (C5_method2_collection Console.strict
                    Console.tagged_heading)).
Defined.

(** C5 as stated fails: on [Examples.funding_first] the specification
    collects the abstract, and the loop returns having collected
    nothing. *)
Lemma C5_counterexample :
  ~ (forall r,
       Console.method2_loop Console.strict Examples.funding_first false [] []
       = Console.Value r ->
       snd r = map heading_text
                 (collected_as_specified Examples.funding_first false)).
Proof.
  intro H. specialize (H ([], []) eq_refl). vm_compute in H. discriminate H.
Qed.

(** ** Strategy 1 *)

(** The loop of strategy 1 raises the error of the first of its prints
    that raises, and returns what it has collected when none does. *)
Lemma method1_loop_prints (c : Console.console) (sections : list node)
  (cp sf : list str) :
  Console.method1_loop c sections cp sf =
    match Console.first_error c (Console.method1_prints sections) with
    | Some e => Console.Exn (Console.MarkupError e)
    | None => Console.Value (method1_loop sections cp sf)
    end.
Proof.
  revert cp sf.
  induction sections as [|s sections IH]; intros cp sf; [reflexivity|].
  rewrite method1_loop_cons.
  unfold Console.method1_prints.
  cbn [Console.method1_loop List.find before_first].
  fold (section_title s). fold (section_text s).
  fold (excluded_section s). fold (substantial s).
  destruct (excluded_section s).
  - cbn [filter map app Console.first_error].
    destruct (Console.console_print c _); reflexivity.
  - cbn [filter]. destruct (substantial s); cbn [andb].
    + destruct (truthy (section_title s)).
      * cbn [map app Console.first_error filter].
        destruct (Console.console_print c _); [reflexivity|].
        apply IH.
      * cbn [filter]. rewrite app_nil_r. apply IH.
    + apply IH.
Qed.

(** X7.  Strategy 1 returns "main-article-body not found" when none of
    its three containers exists.  Otherwise it looks at the child
    sections of the container that come before the first one whose title
    is classified as excluded, and keeps those whose text has more than
    50 characters.  It prints the title of each section it keeps, the
    empty titles left out, and then the title of the excluded section:
    it raises the error of the first of these prints that raises.  When
    none does, the candidate is the texts of the sections kept, joined
    by single spaces (None when none is kept), and the sections found
    are their titles.  No section after the excluded one contributes,
    however long. *)
Theorem X7_method1_sections (c : Console.console) (soup : node) :
  match main_body_of soup with
  | None =>
      Console.extract_method1_main_body c soup
      = Console.Value (None, [lit "main-article-body not found"])
  | Some main_body =>
      let sections := find_all_children (named ["section"%string]) main_body in
      let kept :=
        filter substantial (before_first excluded_section sections) in
      let titled := filter (fun s => truthy (section_title s)) kept in
      let prints :=
        map (fun s => Console.Extracted (firstn 40 (section_title s))
                        (len (section_text s))) titled ++
        match List.find excluded_section sections with
        | Some s => [Console.StoppedAt (section_title s)]
        | None => []
        end in
      Console.extract_method1_main_body c soup
      = match Console.first_error c prints with
        | Some e => Console.Exn (Console.MarkupError e)
        | None =>
            Console.Value
              (match kept with
               | [] => None
               | _ => Some (join (lit " ") (map section_text kept))
               end,
               map section_title titled)
        end /\
      Forall (fun s => (50 < len (section_text s))%Z) kept
  end.
Proof.
  unfold Console.extract_method1_main_body. fold (main_body_of soup).
  destruct (main_body_of soup) as [main_body|]; [|reflexivity].
  cbv zeta. rewrite method1_loop_prints, method1_loop_kept. cbn [app].
  set (sections := find_all_children (named ["section"%string]) main_body).
  set (kept := filter substantial (before_first excluded_section sections)).
  assert (T : filter (fun s => substantial s && truthy (section_title s))
                (before_first excluded_section sections)
              = filter (fun s => truthy (section_title s)) kept).
  { subst kept. induction (before_first excluded_section sections)
      as [|s l IH]; [reflexivity|].
    cbn [filter]. destruct (substantial s); cbn [andb filter];
      [|exact IH].
    destruct (truthy (section_title s)); now rewrite IH. }
  assert (M : forall l,
             filter truthy (map section_title l)
             = map section_title
                 (filter (fun s => truthy (section_title s)) l)).
  { induction l as [|s l IH]; [reflexivity|].
    cbn [map filter]. destruct (truthy (section_title s));
      cbn [map]; now rewrite IH. }
  split.
  - unfold Console.method1_prints. fold sections. rewrite T, M.
    destruct (Console.first_error c _); [reflexivity|].
    destruct kept; reflexivity.
  - apply Forall_forall. intros s Hs. apply filter_In in Hs.
    destruct Hs as [_ Hs]. unfold substantial in Hs.
    apply andb_prop in Hs. destruct Hs as [_ Hs].
    destruct (Z.gtb_spec (len (section_text s)) 50); [lia|discriminate].
Qed.

(** ** Fetching *)

Lemma fetch_html_prints_log (c : Console.console) (w : world)
  (use_selenium : bool) (id : str) :
  snd (Console.fetch_html c w use_selenium id)
  = [CallRequests (article_url id)] \/
  use_selenium = true /\
  snd (Console.fetch_html c w use_selenium id)
  = [CallRequests (article_url id); CallSelenium (article_url id)].
Proof.
  unfold Console.fetch_html, Console.fetch_selenium.
  destruct use_selenium;
    destruct (requests_get w _) as [text| |code|m|m];
    repeat match goal with
      | |- context [if ?b then _ else _] => destruct b
      | |- context [match selenium_get ?w ?u with _ => _ end] =>
          destruct (selenium_get w u)
      | |- context [match Console.console_print ?c ?m with _ => _ end] =>
          destruct (Console.console_print c m)
      end; cbn; auto.
Qed.

(** How the [try] block ends: with the record of a fetch failure, with
    the record of a strategy, or with an exception; the calls are those
    of the fetch, then strategies only. *)
Lemma try_block_cases (c : Console.console) (w : world)
  (use_selenium : bool) (id : str) :
  exists flog mlog,
    snd (Console.try_block c w use_selenium id) = flog ++ mlog /\
    flog = snd (Console.fetch_html c w use_selenium id) /\
    filter is_transport mlog = [] /\
    match fst (Console.try_block c w use_selenium id) with
    | Console.Exn _ => True
    | Console.Value r =>
        (exists message, r = failure id FAILED message) \/
        (exists st method text sections,
           r = extracted id st method text sections /\
           (st = SUCCESS \/ st = PARTIAL))
    end.
Proof.
  unfold Console.try_block.
  destruct (Console.fetch_html c w use_selenium id) as [[[html error]|x] flog].
  - destruct html as [[|ch html]|].
    + exists flog, []. rewrite app_nil_r. cbn. eauto 6.
    + unfold Console.extract_from_html.
      destruct (Console.extract_method1_main_body c _) as [[t1 s1]|x1].
      2:{ exists flog, [CallMethod1]. cbn. auto. }
      destruct (passes 1000 t1).
      { exists flog, [CallMethod1]. cbn.
        repeat split; right; eauto 8. }
      destruct (Console.extract_method2_heading c _) as [[t2 s2]|x2].
      2:{ exists flog, [CallMethod1; CallMethod2]. cbn. auto. }
      destruct (passes 1000 t2).
      { exists flog, [CallMethod1; CallMethod2]. cbn.
        repeat split; right; eauto 8. }
      destruct (extract_method3_fallback _) as [t3 s3].
      destruct (passes 500 t3);
        exists flog, [CallMethod1; CallMethod2; CallMethod3]; cbn;
        repeat split; [right|left]; eauto 8.
    + exists flog, []. rewrite app_nil_r. cbn. eauto 6.
  - exists flog, []. rewrite app_nil_r. cbn. auto.
Qed.

(** C7.  When the GET of the article page fails with status 404,
    [fetch_html] returns no markup and the message
    "Article not found (404): <id>" after the single call to the
    primary transport: the Selenium transport is not called, whether or
    not it is configured.  The GET is made when the print of the
    identifier that precedes it returns, and [extract_full_text] then
    returns FAILED, with that message, which contains "not found",
    without text, and without calling any extraction strategy.  When
    that print raises, the call raises with it and no GET is made. *)
Theorem C7_not_found_short_circuit
  (c : Console.console) (w : world) (use_selenium : bool) (pmcid : str) :
  pmcid <> [] ->
  requests_get w (article_url (normalize_pmcid pmcid)) = HTTPError 404 ->
  let id := normalize_pmcid pmcid in
  Console.fetch_html c w use_selenium id
  = (Console.Value (None, Some (lit "Article not found (404): " ++ id)),
     [CallRequests (article_url id)]) /\
  match Console.console_print c (Console.Fetching id) with
  | Some e =>
      Console.extract_full_text c w use_selenium pmcid
      = (Console.Exn (Console.MarkupError e), [])
  | None =>
      exists r,
        Console.extract_full_text c w use_selenium pmcid
        = (Console.Value r, [CallRequests (article_url id)]) /\
        status r = FAILED /\
        error_message r = Some (lit "Article not found (404): " ++ id) /\
        contains (lit "not found") (lit "Article not found (404): " ++ id)
        = true /\
        full_text r = None /\
        full_text_chunks r = None /\
        method_used r = None
  end.
Proof.
  intros Hne H404 id.
  assert (F : Console.fetch_html c w use_selenium id
              = (Console.Value
                   (None, Some (lit "Article not found (404): " ++ id)),
                 [CallRequests (article_url id)])).
  { unfold Console.fetch_html. subst id. rewrite H404. reflexivity. }
  split; [exact F|].
  unfold Console.extract_full_text.
  destruct pmcid as [|ch p]; [contradiction|].
  cbn [truthy negb]. fold id.
  destruct (Console.console_print c (Console.Fetching id)); [reflexivity|].
  unfold Console.try_block. rewrite F.
  eexists. split; [reflexivity|]. repeat split.
Qed.

Lemma C7_not_found_short_circuit_witness :
  lit "1234567" <> [] /\
  requests_get Examples.missing
    (article_url (normalize_pmcid (lit "1234567"))) = HTTPError 404 /\
  exists r,
    Console.extract_full_text Console.strict Examples.missing true
      (lit "1234567")
    = (Console.Value r, [CallRequests (article_url (lit "PMC1234567"))]) /\
    status r = FAILED.
Proof.
  assert (Hne : lit "1234567" <> []) by discriminate.
  assert (H404 : requests_get Examples.missing
                   (article_url (normalize_pmcid (lit "1234567")))
                 = HTTPError 404) by reflexivity.
  split; [exact Hne|]. split; [exact H404|].
  pose proof (proj2 (C7_not_found_short_circuit Console.strict
                       Examples.missing true Hne H404)) as H.
  cbv zeta in H.
  change (Console.console_print Console.strict
            (Console.Fetching (normalize_pmcid (lit "1234567"))))
    with (@None str) in H.
  destruct H as (r & E & S & _).
  exists r. split; [exact E|exact S].
Defined.

(** ** The convenience function *)


(** How a call of [extract_full_text] ends: the calls it has made, and
    the form of the record when it returns one. *)
Lemma extract_full_text_prints_log (c : Console.console) (w : world)
  (use_selenium : bool) (input : str) :
  let id := normalize_pmcid input in
  let log := snd (Console.extract_full_text c w use_selenium input) in
  match input with
  | [] => log = []
  | _ =>
      match Console.console_print c (Console.Fetching id) with
      | Some _ => log = []
      | None =>
          exists mlog,
            log = snd (Console.fetch_html c w use_selenium id) ++ mlog /\
            filter is_transport mlog = []
      end
  end.
Proof.
  intros id log. subst log. unfold Console.extract_full_text.
  destruct input as [|ch p]; [reflexivity|].
  cbn [truthy negb]. fold id.
  destruct (Console.console_print c (Console.Fetching id)); [reflexivity|].
  destruct (try_block_cases c w use_selenium id)
    as (flog & mlog & L & F & M & _).
  exists mlog. split; [|exact M]. rewrite <- F, <- L.
  destruct (Console.try_block c w use_selenium id) as [[r|x] tlog];
    [reflexivity|].
  destruct (Console.console_print c _); reflexivity.
Qed.

Lemma extract_full_text_prints_record (c : Console.console) (w : world)
  (use_selenium : bool) (input : str) (r : ExtractionResult) :
  fst (Console.extract_full_text c w use_selenium input) = Console.Value r ->
  (exists id st message,
     r = failure id st message /\ (st = FAILED \/ st = NO_PMCID)) \/
  (exists id st method text sections,
     r = extracted id st method text sections /\
     (st = SUCCESS \/ st = PARTIAL)).
Proof.
  unfold Console.extract_full_text.
  destruct input as [|ch p]; cbn [truthy negb fst].
  { intros [= <-]. left. eauto 7. }
  set (id := normalize_pmcid (ch :: p)).
  destruct (Console.console_print c (Console.Fetching id)); [discriminate|].
  destruct (try_block_cases c w use_selenium id) as (_ & _ & _ & _ & _ & R).
  destruct (Console.try_block c w use_selenium id) as [[r'|x] tlog];
    cbn [fst] in *.
  - intros [= <-].
    destruct R as [[message ->]|(st & method & text & sections & -> & Hst)];
      [left|right]; eauto 9.
  - destruct (Console.console_print c _); [discriminate|].
    intros [= <-]. left. eauto 7.
Qed.

Lemma fetch_pmc_full_text_v2_dict (c : Console.console) (w : world)
  (input : str) (d : dict pyval) :
  fst (Console.fetch_pmc_full_text_v2 c w input) = Console.Value d ->
  exists r,
    fst (Console.extract_full_text c w false input) = Console.Value r /\
    dict_keys d
    = map lit ["pmcid"; "full_text"; "full_text_chunks"; "status"; "error";
               "method"; "sections"; "char_count"; "word_count"]%string /\
    dict_get d (lit "full_text") = Some (opt_str (full_text r)) /\
    dict_get d (lit "error") = Some (opt_str (error_message r)) /\
    dict_get d (lit "status") = Some (PStr (status_value (status r))).
Proof.
  unfold Console.fetch_pmc_full_text_v2.
  destruct (Console.extract_full_text c w false input) as [[r|x] log];
    cbn [fst]; [|discriminate].
  intros [= <-]. exists r. repeat split.
Qed.

Lemma fetch_pmc_full_text_v2_outcome (c : Console.console) (w : world)
  (input : str) :
  snd (Console.fetch_pmc_full_text_v2 c w input)
  = snd (Console.extract_full_text c w false input) /\
  forall x,
    fst (Console.extract_full_text c w false input) = Console.Exn x ->
    fst (Console.fetch_pmc_full_text_v2 c w input) = Console.Exn x.
Proof.
  unfold Console.fetch_pmc_full_text_v2.
  destruct (Console.extract_full_text c w false input) as [[r|x] log];
    cbn [fst snd]; split; try reflexivity; intros y H;
    [discriminate H|now injection H as ->].
Qed.

(** X6.  [fetch_pmc_full_text_v2] never drives a browser, whatever the
    world and the console: it makes no call for an empty identifier, and
    none when the print of the identifier raises; otherwise it makes
    exactly one call to the network, the GET of the article page, before
    the strategies.  It returns a dictionary for the empty identifier,
    and raises when the print of the identifier raises.  Every
    dictionary it returns has the nine keys of the source, in order;
    'full_text' is None exactly when 'error' is a message, and 'status'
    is one of the four status strings. *)
Theorem X6_convenience_function
  (c : Console.console) (w : world) (input : str) :
  let result := fst (Console.fetch_pmc_full_text_v2 c w input) in
  let log := snd (Console.fetch_pmc_full_text_v2 c w input) in
  (forall url, ~ In (CallSelenium url) log) /\
  filter is_transport log
  = match input with
    | [] => []
    | _ =>
        match Console.console_print c
                (Console.Fetching (normalize_pmcid input)) with
        | Some _ => []
        | None => [CallRequests (article_url (normalize_pmcid input))]
        end
    end /\
  (input = [] -> exists d, result = Console.Value d) /\
  (forall e,
     input <> [] ->
     Console.console_print c (Console.Fetching (normalize_pmcid input))
     = Some e ->
     result = Console.Exn (Console.MarkupError e)) /\
  (forall d,
     result = Console.Value d ->
     dict_keys d
     = map lit ["pmcid"; "full_text"; "full_text_chunks"; "status"; "error";
                "method"; "sections"; "char_count"; "word_count"]%string /\
     (dict_get d (lit "full_text") = Some PNone <->
      exists message, dict_get d (lit "error") = Some (PStr message)) /\
     (exists s,
        dict_get d (lit "status") = Some (PStr s) /\
        In s (map lit ["success"; "partial"; "failed"; "no_pmcid"]%string))).
Proof.
  intros result log. subst result log.
  destruct (fetch_pmc_full_text_v2_outcome c w input) as [L X].
  rewrite L.
  pose proof (extract_full_text_prints_log c w false input) as G.
  cbv zeta in G.
  assert (F : snd (Console.fetch_html c w false (normalize_pmcid input))
              = [CallRequests (article_url (normalize_pmcid input))]).
  { destruct (fetch_html_prints_log c w false (normalize_pmcid input))
      as [H|[H _]]; [exact H|discriminate H]. }
  split; [|split; [|split; [|split]]].
  - intros url Hin. destruct input as [|ch p].
    + rewrite G in Hin. contradiction.
    + destruct (Console.console_print c _).
      * rewrite G in Hin. contradiction.
      * destruct G as (mlog & G & M). rewrite G, F in Hin.
        destruct Hin as [H|H]; [discriminate H|].
        assert (In (CallSelenium url) (filter is_transport mlog))
          by (apply filter_In; split; [exact H|reflexivity]).
        rewrite M in *. contradiction.
  - destruct input as [|ch p]; [now rewrite G|].
    destruct (Console.console_print c _); [now rewrite G|].
    destruct G as (mlog & G & M). rewrite G, F.
    cbn [app filter is_transport]. now rewrite M.
  - intros ->. eexists. reflexivity.
  - intros e Hne P. apply X.
    unfold Console.extract_full_text.
    destruct input as [|ch p]; [contradiction|].
    cbn [truthy negb]. rewrite P. reflexivity.
  - intros d Hd.
    destruct (fetch_pmc_full_text_v2_dict c w input Hd)
      as (r & Hr & K & Dt & De & Ds).
    split; [exact K|]. rewrite Dt, De, Ds.
    destruct (extract_full_text_prints_record c w false input Hr)
      as [(id & st & message & -> & Hst)
         |(id & st & method & text & sections & -> & Hst)]; cbn.
    + split; [split; eauto|].
      eexists. split; [reflexivity|].
      destruct Hst as [-> | ->]; cbn; auto.
    + split; [split; [discriminate|intros [m H]; discriminate H]|].
      eexists. split; [reflexivity|].
      destruct Hst as [-> | ->]; cbn; auto.
Qed.

(** Even in a world whose browser would deliver the page. *)
Lemma X6_convenience_function_witness :
  In (CallSelenium (article_url (lit "PMC1")))
    (snd (Console.extract_full_text Console.strict
            {| requests_get := fun _ => Timeout;
               selenium_get := fun _ => PageSource Examples.long_page;
               html_parser := fun _ => Examples.document [];
               format_exc := [] |} true (lit "PMC1"))) /\
  ~ In (CallSelenium (article_url (lit "PMC1")))
      (snd (Console.fetch_pmc_full_text_v2 Console.strict
              {| requests_get := fun _ => Timeout;
                 selenium_get := fun _ => PageSource Examples.long_page;
                 html_parser := fun _ => Examples.document [];
                 format_exc := [] |} (lit "PMC1"))) /\
  fst (Console.fetch_pmc_full_text_v2 Console.strict Examples.missing
         (lit "PMC[/]"))
  = Console.Exn
      (Console.MarkupError (lit "closing tag '[/]' has nothing to close")).
Proof.
  split; [vm_compute; right; left; reflexivity|]. split.
  - exact (proj1 (X6_convenience_function Console.strict
                    {| requests_get := fun _ => Timeout;
                       selenium_get := fun _ => PageSource Examples.long_page;
                       html_parser := fun _ => Examples.document [];
                       format_exc := [] |} (lit "PMC1")) _).
  - refine (proj1 (proj2 (proj2 (proj2
              (X6_convenience_function Console.strict Examples.missing
                 (lit "PMC[/]"))))) _ _ _);
      [discriminate|reflexivity].
Defined.

(** ** A console that prints everything *)

Lemma first_error_quiet (c : Console.console) (ms : list Console.message) :
  (forall m, Console.console_print c m = None) ->
  Console.first_error c ms = None.
Proof.
  intro Q. induction ms as [|m ms IH]; [reflexivity|].
  cbn [Console.first_error]. now rewrite Q.
Qed.

(** When no print raises, [extract_full_text] with its prints returns
    the record, and makes the calls, of [extract_full_text] above. *)
Lemma extract_full_text_quiet (c : Console.console) (w : world)
  (use_selenium : bool) (input : str) :
  (forall m, Console.console_print c m = None) ->
  Console.extract_full_text c w use_selenium input
  = (Console.Value (fst (extract_full_text w use_selenium input)),
     snd (extract_full_text w use_selenium input)).
Proof.
  intro Q.
  assert (M1 : forall soup,
             Console.extract_method1_main_body c soup
             = Console.Value (extract_method1_main_body soup)).
  { intro soup.
    unfold Console.extract_method1_main_body, extract_method1_main_body.
    destruct (orelse _ _); [|reflexivity].
    rewrite method1_loop_prints, first_error_quiet by exact Q.
    destruct (method1_loop _ [] []) as [[|x xs] sf]; reflexivity. }
  assert (M2 : forall soup,
             Console.extract_method2_heading c soup
             = Console.Value (extract_method2_heading soup)).
  { intro soup.
    unfold Console.extract_method2_heading, extract_method2_heading.
    now rewrite method2_loop_prints, first_error_quiet by exact Q. }
  assert (F : forall id,
             Console.fetch_html c w use_selenium id
             = (match fst (fetch_html w use_selenium id) with
                | Return v => Console.Value v
                | Raise e => Console.Exn (Console.Unhandled e)
                end,
                snd (fetch_html w use_selenium id))).
  { intro id.
    unfold Console.fetch_html, fetch_html, Console.fetch_selenium,
      fetch_selenium.
    destruct use_selenium;
      destruct (requests_get w _) as [text| |code|m|m];
      rewrite ?Q;
      repeat match goal with
        | |- context [if ?b then _ else _] => destruct b
        | |- context [match selenium_get ?w ?u with _ => _ end] =>
            destruct (selenium_get w u)
        end; rewrite ?Q; reflexivity. }
  unfold Console.extract_full_text, extract_full_text.
  destruct input as [|ch p]; [reflexivity|].
  cbn [truthy negb]. rewrite Q.
  unfold Console.try_block. rewrite F.
  destruct (fetch_html w use_selenium _) as [[[html error]|e] log];
    cbn [fst snd].
  - destruct html as [[|h html]|]; [reflexivity| |reflexivity].
    unfold Console.extract_from_html, extract_from_html.
    rewrite M1.
    destruct (extract_method1_main_body _) as [t1 s1].
    destruct (passes 1000 t1); [reflexivity|].
    rewrite M2.
    destruct (extract_method2_heading _) as [t2 s2].
    destruct (passes 1000 t2); [reflexivity|].
    destruct (extract_method3_fallback _) as [t3 s3].
    destruct (passes 500 t3); reflexivity.
  - rewrite Q. reflexivity.
Qed.

(** Each function with its prints raises a [MarkupError] or does what
    the function above does. *)
Lemma method1_prints_cases (c : Console.console) (soup : node) :
  (exists e, Console.extract_method1_main_body c soup
             = Console.Exn (Console.MarkupError e)) \/
  Console.extract_method1_main_body c soup
  = Console.Value (extract_method1_main_body soup).
Proof.
  unfold Console.extract_method1_main_body, extract_method1_main_body.
  destruct (orelse _ _); [|now right].
  rewrite method1_loop_prints.
  destruct (Console.first_error c _) as [e|]; [left; eauto|right].
  destruct (method1_loop _ [] []) as [[|x xs] sf]; reflexivity.
Qed.

Lemma method2_prints_cases (c : Console.console) (soup : node) :
  (exists e, Console.extract_method2_heading c soup
             = Console.Exn (Console.MarkupError e)) \/
  Console.extract_method2_heading c soup
  = Console.Value (extract_method2_heading soup).
Proof.
  unfold Console.extract_method2_heading, extract_method2_heading.
  rewrite method2_loop_prints.
  destruct (Console.first_error c _) as [e|]; [left; eauto|now right].
Qed.

Lemma fetch_html_prints_cases (c : Console.console) (w : world)
  (use_selenium : bool) (id : str) :
  (exists e, fst (Console.fetch_html c w use_selenium id)
             = Console.Exn (Console.MarkupError e)) \/
  Console.fetch_html c w use_selenium id
  = (match fst (fetch_html w use_selenium id) with
     | Return v => Console.Value v
     | Raise e => Console.Exn (Console.Unhandled e)
     end,
     snd (fetch_html w use_selenium id)).
Proof.
  unfold Console.fetch_html, fetch_html, Console.fetch_selenium,
    fetch_selenium.
  destruct use_selenium;
    destruct (requests_get w _) as [text| |code|m|m];
    repeat match goal with
      | |- context [if ?b then _ else _] => destruct b
      | |- context [match selenium_get ?w ?u with _ => _ end] =>
          destruct (selenium_get w u)
      | |- context [match Console.console_print ?c ?m with _ => _ end] =>
          destruct (Console.console_print c m)
      end; cbn [fst snd]; eauto.
Qed.

(** X20.  A record that [extract_full_text] returns is the record that
    [extract_full_text] computes without its prints, after the same
    calls, or the FAILED record that its handler builds from the
    [MarkupError] of a print of the [try] block, which the handler has
    been able to print: "Exception: ", the text of the error, a line
    feed, and the first 500 characters of the traceback. *)
Theorem X20_extract_full_text_returns (c : Console.console) (w : world)
  (use_selenium : bool) (input : str) (r : ExtractionResult) :
  fst (Console.extract_full_text c w use_selenium input) = Console.Value r ->
  r = fst (extract_full_text w use_selenium input) /\
  snd (Console.extract_full_text c w use_selenium input)
  = snd (extract_full_text w use_selenium input) \/
  exists e,
    Console.console_print c (Console.ExceptionText e) = None /\
    r = failure (normalize_pmcid input) FAILED
          (lit "Exception: " ++ e ++ [LF] ++
           firstn 500 (Console.markup_format_exc c e)).
Proof.
  unfold Console.extract_full_text, extract_full_text.
  destruct input as [|ch p]; cbn [truthy negb].
  { intros [= <-]. left. split; reflexivity. }
  set (id := normalize_pmcid (ch :: p)).
  destruct (Console.console_print c (Console.Fetching id));
    [discriminate|].
  assert (H : forall e (log : list event),
             fst (match Console.console_print c (Console.ExceptionText e) with
                  | Some e' =>
                      (@Console.Exn ExtractionResult (Console.MarkupError e'),
                       log)
                  | None =>
                      (Console.Value
                         (failure id FAILED
                            (lit "Exception: " ++ e ++ [LF] ++
                             firstn 500 (Console.markup_format_exc c e))),
                       log)
                  end) = Console.Value r ->
             exists e,
               Console.console_print c (Console.ExceptionText e) = None /\
               r = failure id FAILED
                     (lit "Exception: " ++ e ++ [LF] ++
                      firstn 500 (Console.markup_format_exc c e))).
  { intros e log. destruct (Console.console_print c _) eqn:P;
      [discriminate|]. intros [= <-]. eauto. }
  unfold Console.try_block.
  destruct (fetch_html_prints_cases c w use_selenium id) as [[e F]|F].
  { destruct (Console.fetch_html c w use_selenium id) as [o flog].
    cbn [fst] in F. subst o. intro R. right. exact (H e flog R). }
  rewrite F.
  destruct (fetch_html w use_selenium id) as [[[html error]|e] log];
    cbn [fst snd].
  2:{ cbn. destruct (Console.console_print c _); [discriminate|].
      intros [= <-]. left. split; reflexivity. }
  destruct html as [[|h html]|];
    [intros [= <-]; left; split; reflexivity|
    |intros [= <-]; left; split; reflexivity].
  unfold Console.extract_from_html, extract_from_html.
  destruct (method1_prints_cases c (html_parser w (h :: html)))
    as [[e ->]| ->]; [intro R; right; exact (H e _ R)|].
  destruct (extract_method1_main_body _) as [t1 s1].
  destruct (passes 1000 t1);
    [intros [= <-]; left; split; reflexivity|].
  destruct (method2_prints_cases c (html_parser w (h :: html)))
    as [[e ->]| ->]; [intro R; right; exact (H e _ R)|].
  destruct (extract_method2_heading _) as [t2 s2].
  destruct (passes 1000 t2);
    [intros [= <-]; left; split; reflexivity|].
  destruct (extract_method3_fallback _) as [t3 s3].
  destruct (passes 500 t3); intros [= <-]; left; split; reflexivity.
Qed.

Lemma X20_extract_full_text_returns_witness :
  exists r,
    fst (Console.extract_full_text Console.strict Examples.missing true
           (lit "1234567")) = Console.Value r /\
    r = fst (extract_full_text Examples.missing true (lit "1234567")).
Proof.
  eexists. split; [reflexivity|].
  destruct (@X20_extract_full_text_returns Console.strict Examples.missing
              true (lit "1234567") _ eq_refl) as [[H _]|(e & _ & H)];
    [exact H|discriminate H].
Defined.
